(** * Maestro: the execution and decoding subsystem

    A shallow embedding of the AppleScript executor (retry controller and
    subprocess layer), the domain error taxonomy, the value objects and the
    player-state / track decoders of [tibir123/maestro], with the properties
    the specification states about them.

    Layout:
    - [GoStr]       the pieces of Go's [strings], [strconv] and [fmt] the
                    code calls, over byte strings;
    - [Music]       [domain/music]: errors, value objects, entities;
    - [AppleScript] [infrastructure/applescript]: executor and decoders.

    Go's [int] is the 64-bit signed integer; it is modelled by [Z] with the
    wrap-around written out where the code does arithmetic. *)

From Stdlib Require Import ZArith Ascii String List Lia Bool SpecFloat.
From stdpp Require Import base option gmap strings.

Open Scope string_scope.
Open Scope Z_scope.

(* ===================================================================== *)
(** * Go strings: [strings], [strconv], [fmt] *)
(* ===================================================================== *)

Module GoStr.

(** A Go string is a sequence of bytes; [ascii] is the byte. *)
Definition byte_of (c : ascii) : Z := Z.of_N (N_of_ascii c).
Definition of_byte (z : Z) : ascii := ascii_of_N (Z.to_N z).

Fixpoint rev_append (s acc : string) : string :=
  match s with
  | EmptyString => acc
  | String c r => rev_append r (String c acc)
  end.
Definition rev (s : string) : string := rev_append s EmptyString.

(** [asciiSpace] of package strings: tab, newline, vertical tab, form
    feed, carriage return and space. *)
Definition asciiSpace (c : ascii) : bool :=
  let b := byte_of c in
  (b =? 9) || (b =? 10) || (b =? 11) || (b =? 12) || (b =? 13) || (b =? 32).

(** The runes at or above [utf8.RuneSelf] for which [unicode.IsSpace]
    holds, by their UTF-8 encoding: U+0085, U+00A0 (two bytes) and U+1680,
    U+2000..U+200A, U+2028, U+2029, U+202F, U+205F, U+3000 (three). *)
Definition space2 (c1 c2 : ascii) : bool :=
  (byte_of c1 =? 194) && ((byte_of c2 =? 133) || (byte_of c2 =? 160)).

Definition space3 (c1 c2 c3 : ascii) : bool :=
  let b1 := byte_of c1 in
  let b2 := byte_of c2 in
  let b3 := byte_of c3 in
  ((b1 =? 225) && (b2 =? 154) && (b3 =? 128))
  || ((b1 =? 226) && (b2 =? 128)
      && (((128 <=? b3) && (b3 <=? 138)) || (b3 =? 168) || (b3 =? 169) || (b3 =? 175)))
  || ((b1 =? 226) && (b2 =? 129) && (b3 =? 159))
  || ((b1 =? 227) && (b2 =? 128) && (b3 =? 128)).

(** [strings.TrimLeftFunc(s, unicode.IsSpace)]: drop white-space runes
    from the front.  Decoding is strict, so a rune is white space exactly
    when the bytes at the cursor are one of the encodings above. *)
Fixpoint trimLeft (s : string) : string :=
  match s with
  | EmptyString => EmptyString
  | String c1 r1 =>
      if asciiSpace c1 then trimLeft r1
      else
        match r1 with
        | EmptyString => s
        | String c2 r2 =>
            if space2 c1 c2 then trimLeft r2
            else
              match r2 with
              | EmptyString => s
              | String c3 r3 => if space3 c1 c2 c3 then trimLeft r3 else s
              end
        end
  end.

(** The same from the back, on the reversed string ([DecodeLastRune]
    finds a white-space rune exactly when the string ends with one of the
    encodings). *)
Fixpoint trimLeftRev (s : string) : string :=
  match s with
  | EmptyString => EmptyString
  | String c1 r1 =>
      if asciiSpace c1 then trimLeftRev r1
      else
        match r1 with
        | EmptyString => s
        | String c2 r2 =>
            if space2 c2 c1 then trimLeftRev r2
            else
              match r2 with
              | EmptyString => s
              | String c3 r3 => if space3 c3 c2 c1 then trimLeftRev r3 else s
              end
        end
  end.

Definition trimRight (s : string) : string := rev (trimLeftRev (rev s)).

(** [strings.TrimSpace]: leading and trailing Unicode white space removed. *)
Definition TrimSpace (s : string) : string := trimRight (trimLeft s).

(** [strings.Split(s, sep)] for a one-byte separator: the substrings
    between the separators, [Count(s, sep) + 1] of them; the empty string
    splits into one empty field. *)
Fixpoint splitAcc (sep : ascii) (cur : string) (s : string) : list string :=
  match s with
  | EmptyString => [rev cur]
  | String c r =>
      if Ascii.eqb c sep then rev cur :: splitAcc sep EmptyString r
      else splitAcc sep (String c cur) r
  end.
Definition Split (s : string) (sep : ascii) : list string :=
  splitAcc sep EmptyString s.

Definition isUpperASCII (c : ascii) : bool :=
  (65 <=? byte_of c) && (byte_of c <=? 90).

Definition isASCII (s : string) : bool :=
  forallb (fun c => byte_of c <? 128) (list_ascii_of_string s).

Definition hasUpper (s : string) : bool :=
  existsb isUpperASCII (list_ascii_of_string s).

Definition lowerByte (c : ascii) : ascii :=
  if isUpperASCII c then of_byte (byte_of c + 32) else c.

Fixpoint mapBytes (f : ascii -> ascii) (s : string) : string :=
  match s with
  | EmptyString => EmptyString
  | String c r => String (f c) (mapBytes f r)
  end.

Section Lowering.
(** [strings.Map(unicode.ToLower, s)], the path [strings.ToLower] takes
    for a string with a byte at or above [utf8.RuneSelf].  It depends
    on the case tables of Go's [unicode] package, which are data of the
    standard library; it is a parameter here. *)
Variable unicodeLower : string -> string.

(** [strings.ToLower]. *)
Definition ToLower (s : string) : string :=
  if isASCII s then
    if negb (hasUpper s) then s else mapBytes lowerByte s
  else unicodeLower s.
End Lowering.

(** [strings.Contains]. *)
Fixpoint Contains (s substr : string) : bool :=
  if String.prefix substr s then true
  else match s with
       | EmptyString => false
       | String _ r => Contains r substr
       end.

(** [strings.ReplaceAll(s, old, new)] for a non-empty [old]: the
    non-overlapping occurrences, left to right.  [skip] counts the bytes
    of an occurrence that are still to be dropped. *)
Fixpoint replaceFrom (skip : nat) (s old new : string) : string :=
  match s with
  | EmptyString => EmptyString
  | String c r =>
      match skip with
      | S k => replaceFrom k r old new
      | O =>
          if String.prefix old s
          then new +:+ replaceFrom (String.length old - 1) r old new
          else String c (replaceFrom O r old new)
      end
  end.
Definition ReplaceAll (s old new : string) : string :=
  replaceFrom O s old new.

(** Decimal digits. *)
Definition digit (d : Z) : ascii := of_byte (48 + d).

Fixpoint formatBits (fuel : nat) (u : Z) (acc : string) : string :=
  match fuel with
  | O => acc
  | S f =>
      if u <? 10 then String (digit u) acc
      else formatBits f (u / 10) (String (digit (u mod 10)) acc)
  end.

(** [strconv.Itoa] and the verb [%d]: base 10, a leading minus sign for a
    negative number.  Twenty digits cover the 64-bit range. *)
Definition Itoa (i : Z) : string :=
  if i <? 0 then String "-" (formatBits 20 (- i) EmptyString)
  else formatBits 20 i EmptyString.

(** The verb [%02d] for a number that is not negative. *)
Definition pad2 (i : Z) : string :=
  let s := Itoa i in
  if (String.length s <? 2)%nat then String "0" s else s.

Definition minInt : Z := - 2 ^ 63.
Definition maxInt : Z := 2 ^ 63 - 1.
Definition inInt (z : Z) : bool := (minInt <=? z) && (z <=? maxInt).

(** Two's-complement wrap-around of 64-bit [int] arithmetic. *)
Definition wrap (z : Z) : Z := (z + 2 ^ 63) mod 2 ^ 64 - 2 ^ 63.

Definition isDigit (c : ascii) : bool :=
  (48 <=? byte_of c) && (byte_of c <=? 57).

Fixpoint digitsValue (s : string) (n : Z) : option Z :=
  match s with
  | EmptyString => Some n
  | String c r =>
      if isDigit c then digitsValue r (n * 10 + (byte_of c - 48)) else None
  end.

(** [strconv.Atoi]: an optional sign, then one or more decimal digits and
    nothing else; [None] is the syntax error and the range error (a value
    outside the 64-bit range). *)
Definition Atoi (s : string) : option Z :=
  let '(neg, body) :=
    match s with
    | String "-" r => (true, r)
    | String "+" r => (false, r)
    | _ => (false, s)
    end in
  match body with
  | EmptyString => None
  | _ =>
      match digitsValue body 0 with
      | None => None
      | Some n =>
          let v := if neg then - n else n in
          if inInt v then Some v else None
      end
  end.

End GoStr.

(* ===================================================================== *)
(** * [domain/music]: errors, value objects, entities *)
(* ===================================================================== *)

Module Music.
Import GoStr.

(** ** errors.go *)

(** The base errors, one constructor per [Err*] variable.  Each is made by
    [errors.New], so two of them are equal only when they are the same
    variable. *)
Inductive ErrCode : Set :=
| ErrTrackNotFound | ErrInvalidTrackID | ErrInvalidTrack
| ErrPlaylistNotFound | ErrInvalidPlaylistID | ErrInvalidPlaylist
| ErrPlaylistReadOnly | ErrTrackAlreadyInPlaylist
| ErrPlayerNotAvailable | ErrInvalidPlayerState | ErrInvalidVolume
| ErrInvalidPosition | ErrInvalidRepeatMode
| ErrQueueEmpty | ErrInvalidQueuePosition
| ErrLibraryNotAvailable | ErrSearchFailed | ErrInvalidSearchQuery
| ErrOperationFailed | ErrTimeout | ErrPermissionDenied | ErrInvalidOperation.

Definition ErrCode_eqb (a b : ErrCode) : bool :=
  match a, b with
  | ErrTrackNotFound, ErrTrackNotFound
  | ErrInvalidTrackID, ErrInvalidTrackID
  | ErrInvalidTrack, ErrInvalidTrack
  | ErrPlaylistNotFound, ErrPlaylistNotFound
  | ErrInvalidPlaylistID, ErrInvalidPlaylistID
  | ErrInvalidPlaylist, ErrInvalidPlaylist
  | ErrPlaylistReadOnly, ErrPlaylistReadOnly
  | ErrTrackAlreadyInPlaylist, ErrTrackAlreadyInPlaylist
  | ErrPlayerNotAvailable, ErrPlayerNotAvailable
  | ErrInvalidPlayerState, ErrInvalidPlayerState
  | ErrInvalidVolume, ErrInvalidVolume
  | ErrInvalidPosition, ErrInvalidPosition
  | ErrInvalidRepeatMode, ErrInvalidRepeatMode
  | ErrQueueEmpty, ErrQueueEmpty
  | ErrInvalidQueuePosition, ErrInvalidQueuePosition
  | ErrLibraryNotAvailable, ErrLibraryNotAvailable
  | ErrSearchFailed, ErrSearchFailed
  | ErrInvalidSearchQuery, ErrInvalidSearchQuery
  | ErrOperationFailed, ErrOperationFailed
  | ErrTimeout, ErrTimeout
  | ErrPermissionDenied, ErrPermissionDenied
  | ErrInvalidOperation, ErrInvalidOperation => true
  | _, _ => false
  end.

(** The text each base error was created with. *)
Definition ErrCode_text (c : ErrCode) : string :=
  match c with
  | ErrTrackNotFound => "track not found"
  | ErrInvalidTrackID => "invalid track ID"
  | ErrInvalidTrack => "invalid track"
  | ErrPlaylistNotFound => "playlist not found"
  | ErrInvalidPlaylistID => "invalid playlist ID"
  | ErrInvalidPlaylist => "invalid playlist"
  | ErrPlaylistReadOnly => "playlist is read-only"
  | ErrTrackAlreadyInPlaylist => "track already in playlist"
  | ErrPlayerNotAvailable => "player not available"
  | ErrInvalidPlayerState => "invalid player state"
  | ErrInvalidVolume => "invalid volume"
  | ErrInvalidPosition => "invalid position"
  | ErrInvalidRepeatMode => "invalid repeat mode"
  | ErrQueueEmpty => "queue is empty"
  | ErrInvalidQueuePosition => "invalid queue position"
  | ErrLibraryNotAvailable => "library not available"
  | ErrSearchFailed => "search failed"
  | ErrInvalidSearchQuery => "invalid search query"
  | ErrOperationFailed => "operation failed"
  | ErrTimeout => "operation timed out"
  | ErrPermissionDenied => "permission denied"
  | ErrInvalidOperation => "invalid operation"
  end.

(** The two errors of package [context]. *)
Inductive CtxErr : Set := Canceled | DeadlineExceeded.

(** A value stored under [interface{}]: the context map holds integers
    and strings, template parameters also booleans. *)
Inductive GoValue : Set :=
| VInt (i : Z)
| VStr (s : string)
| VBool (b : bool).

(** A Go [error] value, as far as this code meets them: a base error, a
    context error, the [exec.ExitError] of a process that exited with a
    status, any other error of the operating system, or a [DomainError].
    [DomainError] is the struct of errors.go; [Code] is, as its comment
    says, one of the [Err*] variables. *)
Inductive error : Type :=
| EBase (c : ErrCode)
| EContext (e : CtxErr)
| EExit (code : Z)
| EOS (msg : string)
| EDomain (d : DomainError)
with DomainError : Type :=
| mkDomainError (code : ErrCode) (message : string) (cause : option error)
    (context : gmap string GoValue).

Definition Code (e : DomainError) : ErrCode :=
  let 'mkDomainError c _ _ _ := e in c.
Definition Message (e : DomainError) : string :=
  let 'mkDomainError _ m _ _ := e in m.
Definition Cause (e : DomainError) : option error :=
  let 'mkDomainError _ _ c _ := e in c.
Definition Context (e : DomainError) : gmap string GoValue :=
  let 'mkDomainError _ _ _ x := e in x.

(** [NewDomainError]. *)
Definition NewDomainError (code : ErrCode) (message : string) : DomainError :=
  mkDomainError code message None ∅.

(** [NewDomainErrorWithCause].  A nil cause is [None]. *)
Definition NewDomainErrorWithCause
    (code : ErrCode) (message : string) (cause : option error) : DomainError :=
  mkDomainError code message cause ∅.

(** [DomainError.Unwrap]. *)
Definition Unwrap (e : DomainError) : option error := Cause e.

(** [errors.Is(err, target)] for a base error [target]: [err] is the
    target, or its [Is] method says so ([DomainError.Is] compares the
    code), or the error it unwraps to matches. *)
Fixpoint errors_Is (err : error) (target : ErrCode) : bool :=
  match err with
  | EBase c => ErrCode_eqb c target
  | EDomain (mkDomainError code _ cause _) =>
      ErrCode_eqb code target
      || match cause with
         | Some c => errors_Is c target
         | None => false
         end
  | _ => false
  end.

(** [errors.As(err, &domainErr)]: the first [DomainError] on the chain.
    Only a [DomainError] unwraps, so it is [err] itself or nothing. *)
Definition errors_As (err : error) : option DomainError :=
  match err with
  | EDomain d => Some d
  | _ => None
  end.

(** [DomainError.WithContext] ([Context] is never nil here: every
    constructor makes the map). *)
Definition WithContext (e : DomainError) (key : string) (value : GoValue)
  : DomainError :=
  mkDomainError (Code e) (Message e) (Cause e) (<[key := value]> (Context e)).

(** [DomainError.GetContext]. *)
Definition GetContext (e : DomainError) (key : string) : option GoValue :=
  Context e !! key.

(** [DomainError.IsRetryable]. *)
Definition DomainError_IsRetryable (e : DomainError) : bool :=
  errors_Is (EBase (Code e)) ErrTimeout
  || errors_Is (EBase (Code e)) ErrPlayerNotAvailable
  || errors_Is (EBase (Code e)) ErrLibraryNotAvailable
  || errors_Is (EBase (Code e)) ErrOperationFailed.

(** [DomainError.IsPermanent]. *)
Definition DomainError_IsPermanent (e : DomainError) : bool :=
  errors_Is (EBase (Code e)) ErrPermissionDenied
  || errors_Is (EBase (Code e)) ErrInvalidTrackID
  || errors_Is (EBase (Code e)) ErrInvalidPlaylistID
  || errors_Is (EBase (Code e)) ErrInvalidVolume
  || errors_Is (EBase (Code e)) ErrInvalidPosition
  || errors_Is (EBase (Code e)) ErrInvalidSearchQuery
  || errors_Is (EBase (Code e)) ErrPlaylistReadOnly.

(** The package-level [IsRetryable]. *)
Definition IsRetryable (err : error) : bool :=
  match errors_As err with
  | Some domainErr => DomainError_IsRetryable domainErr
  | None =>
      errors_Is err ErrTimeout
      || errors_Is err ErrPlayerNotAvailable
      || errors_Is err ErrLibraryNotAvailable
  end.

(** The package-level [IsPermanent]. *)
Definition IsPermanent (err : error) : bool :=
  match errors_As err with
  | Some domainErr => DomainError_IsPermanent domainErr
  | None =>
      errors_Is err ErrPermissionDenied
      || errors_Is err ErrInvalidTrackID
      || errors_Is err ErrInvalidPlaylistID
  end.

(** [IsTimeout]. *)
Definition IsTimeout (err : error) : bool := errors_Is err ErrTimeout.

(** ** values.go *)

Record TrackID : Set := mkTrackID { value : string }.

(** [NewTrackID]. *)
Definition NewTrackID (v : string) : TrackID := {| value := TrimSpace v |}.

(** [TrackID.IsEmpty]. *)
Definition TrackID_IsEmpty (t : TrackID) : bool := String.eqb (value t) "".

Record Duration : Set := mkDuration { seconds : Z }.

(** [NewDuration]. *)
Definition NewDuration (secs : Z) : Duration :=
  let secs := if secs <? 0 then 0 else secs in
  {| seconds := secs |}.

(** [time.Duration.Seconds] followed by the conversion to [int]:
    [float64(d / Second) + float64(d % Second) / 1e9] in IEEE binary64,
    truncated toward zero.  [d] counts nanoseconds. *)
Definition f64 (z : Z) : spec_float := binary_normalize 53 1024 z 0 false.

Definition f64_to_int (f : spec_float) : Z :=
  match f with
  | S754_finite s m e =>
      let a := if 0 <=? e then Z.pos m * 2 ^ e else Z.pos m / 2 ^ (- e) in
      if s then - a else a
  | _ => 0
  end.

Definition time_Seconds (d : Z) : spec_float :=
  let sec := Z.quot d 1000000000 in
  let nsec := Z.rem d 1000000000 in
  SFadd 53 1024 (f64 sec) (SFdiv 53 1024 (f64 nsec) (f64 1000000000)).

(** [NewDurationFromTime]. *)
Definition NewDurationFromTime (d : Z) : Duration :=
  NewDuration (f64_to_int (time_Seconds d)).

(** [Duration.Seconds]. *)
Definition Seconds (d : Duration) : Z := seconds d.

(** [Duration.IsValid]. *)
Definition Duration_IsValid (d : Duration) : bool := 0 <=? seconds d.

(** [Duration.IsZero]. *)
Definition IsZero (d : Duration) : bool := seconds d =? 0.

(** [Duration.Add]. *)
Definition Add (d other : Duration) : Duration :=
  NewDuration (wrap (seconds d + seconds other)).

(** [Duration.Subtract]. *)
Definition Subtract (d other : Duration) : Duration :=
  let result := wrap (seconds d - seconds other) in
  let result := if result <? 0 then 0 else result in
  NewDuration result.

(** [Duration.String]: "M:SS" or "H:MM:SS". *)
Definition Duration_String (d : Duration) : string :=
  if seconds d <? 0 then "0:00"
  else
    let hours := Z.quot (seconds d) 3600 in
    let minutes := Z.quot (Z.rem (seconds d) 3600) 60 in
    let secs := Z.rem (seconds d) 60 in
    if 0 <? hours
    then Itoa hours +:+ ":" +:+ pad2 minutes +:+ ":" +:+ pad2 secs
    else Itoa minutes +:+ ":" +:+ pad2 secs.

Record Volume : Set := mkVolume { level : Z }.

(** [NewVolume]. *)
Definition NewVolume (lvl : Z) : Volume :=
  let lvl := if lvl <? 0 then 0 else if 100 <? lvl then 100 else lvl in
  {| level := lvl |}.

(** [Volume.Level]. *)
Definition Level (v : Volume) : Z := level v.

(** [Volume.IsValid]. *)
Definition Volume_IsValid (v : Volume) : bool :=
  (0 <=? level v) && (level v <=? 100).

(** [Volume.Increase] and [Volume.Decrease]. *)
Definition Increase (v : Volume) (amount : Z) : Volume :=
  NewVolume (wrap (level v + amount)).
Definition Decrease (v : Volume) (amount : Z) : Volume :=
  NewVolume (wrap (level v - amount)).

(** [Volume.String]: the level followed by a percent sign. *)
Definition Volume_String (v : Volume) : string := Itoa (level v) +:+ "%".

Inductive PlayerState : Set :=
| PlayerStateStopped | PlayerStatePlaying | PlayerStatePaused
| PlayerStateBuffering.

(** [PlayerState.String]. *)
Definition PlayerState_String (ps : PlayerState) : string :=
  match ps with
  | PlayerStateStopped => "stopped"
  | PlayerStatePlaying => "playing"
  | PlayerStatePaused => "paused"
  | PlayerStateBuffering => "buffering"
  end.

Inductive RepeatMode : Set := RepeatModeOff | RepeatModeAll | RepeatModeOne.

(** [RepeatMode.String]. *)
Definition RepeatMode_String (rm : RepeatMode) : string :=
  match rm with
  | RepeatModeOff => "off"
  | RepeatModeAll => "all"
  | RepeatModeOne => "one"
  end.

(** ** errors.go, the wrapping helpers that need the value objects *)

(** [WrapOperationTimeout]. *)
Definition WrapOperationTimeout
    (operation : string) (timeout : Duration) (cause : option error)
  : DomainError :=
  let err :=
    NewDomainErrorWithCause ErrTimeout
      ("operation '" +:+ operation +:+ "' timed out after "
         +:+ Duration_String timeout)
      cause in
  WithContext (WithContext err "operation" (VStr operation))
    "timeout_seconds" (VInt (Seconds timeout)).

(** [WrapInvalidVolume]. *)
Definition WrapInvalidVolume (volume : Z) (cause : option error)
  : DomainError :=
  let err :=
    NewDomainErrorWithCause ErrInvalidVolume
      ("volume " +:+ Itoa volume +:+ " is invalid (must be 0-100)") cause in
  WithContext err "volume" (VInt volume).

(** ** entities.go *)

Record Track : Set :=
  mkTrack {
    ID : TrackID;
    Title : string;
    Artist : string;
    Album : string;
    Track_Duration : Duration
  }.

(** [NewTrack].  A Go result, a pointer and an error, is the pair of
    two options; [nil] is [None]. *)
Definition NewTrack (id : TrackID) (title artist album : string)
    (duration : Duration) : option Track * option error :=
  if TrackID_IsEmpty id then
    (None, Some (EDomain (NewDomainError ErrInvalidTrackID "track ID cannot be empty")))
  else if String.eqb title "" then
    (None, Some (EDomain (NewDomainError ErrInvalidTrack "track title cannot be empty")))
  else if String.eqb artist "" then
    (None, Some (EDomain (NewDomainError ErrInvalidTrack "track artist cannot be empty")))
  else if negb (Duration_IsValid duration) then
    (None, Some (EDomain (NewDomainError ErrInvalidTrack "track duration must be valid")))
  else
    (Some {| ID := id; Title := title; Artist := artist; Album := album;
             Track_Duration := duration |}, None).

Record Player : Set :=
  mkPlayer {
    State : PlayerState;
    CurrentTrack : option TrackID;
    Position : Duration;
    Player_Volume : Volume;
    Shuffle : bool;
    Repeat : RepeatMode;
    LastUpdated : Z
  }.

(** [NewPlayer]; [now] is the reading of [time.Now()]. *)
Definition NewPlayer (now : Z) : Player :=
  {| State := PlayerStateStopped;
     CurrentTrack := None;
     Position := NewDuration 0;
     Player_Volume := NewVolume 50;
     Shuffle := false;
     Repeat := RepeatModeOff;
     LastUpdated := now |}.

(** The [Duration] values the package hands out: the zero value, the two
    constructors on any [int] and any [time.Duration], and the two
    operations on values handed out before. *)
Inductive Produced : Duration -> Prop :=
| Produced_zero : Produced {| seconds := 0 |}
| Produced_NewDuration (secs : Z) :
    inInt secs = true -> Produced (NewDuration secs)
| Produced_NewDurationFromTime (d : Z) :
    inInt d = true -> Produced (NewDurationFromTime d)
| Produced_Add (d other : Duration) :
    Produced d -> Produced other -> Produced (Add d other)
| Produced_Subtract (d other : Duration) :
    Produced d -> Produced other -> Produced (Subtract d other).

(** ** errors.go, the remaining queries and helpers *)

(** [DomainError.IsTrackError]. *)
Definition IsTrackError (e : DomainError) : bool :=
  errors_Is (EBase (Code e)) ErrTrackNotFound
  || errors_Is (EBase (Code e)) ErrInvalidTrackID
  || errors_Is (EBase (Code e)) ErrInvalidTrack.

(** [DomainError.IsPlaylistError]. *)
Definition IsPlaylistError (e : DomainError) : bool :=
  errors_Is (EBase (Code e)) ErrPlaylistNotFound
  || errors_Is (EBase (Code e)) ErrInvalidPlaylistID
  || errors_Is (EBase (Code e)) ErrInvalidPlaylist
  || errors_Is (EBase (Code e)) ErrPlaylistReadOnly
  || errors_Is (EBase (Code e)) ErrTrackAlreadyInPlaylist.

(** [DomainError.IsPlayerError]. *)
Definition IsPlayerError (e : DomainError) : bool :=
  errors_Is (EBase (Code e)) ErrPlayerNotAvailable
  || errors_Is (EBase (Code e)) ErrInvalidPlayerState
  || errors_Is (EBase (Code e)) ErrInvalidVolume
  || errors_Is (EBase (Code e)) ErrInvalidPosition
  || errors_Is (EBase (Code e)) ErrInvalidRepeatMode.

(** [DomainError.IsQueueError]. *)
Definition IsQueueError (e : DomainError) : bool :=
  errors_Is (EBase (Code e)) ErrQueueEmpty
  || errors_Is (EBase (Code e)) ErrInvalidQueuePosition.

(** [DomainError.IsLibraryError]. *)
Definition IsLibraryError (e : DomainError) : bool :=
  errors_Is (EBase (Code e)) ErrLibraryNotAvailable
  || errors_Is (EBase (Code e)) ErrSearchFailed
  || errors_Is (EBase (Code e)) ErrInvalidSearchQuery.

(** [IsTrackNotFound], [IsPlaylistNotFound], [IsInvalidVolume]. *)
Definition IsTrackNotFound (err : error) : bool := errors_Is err ErrTrackNotFound.
Definition IsPlaylistNotFound (err : error) : bool :=
  errors_Is err ErrPlaylistNotFound.
Definition IsInvalidVolume (err : error) : bool := errors_Is err ErrInvalidVolume.

(** [WrapTrackNotFound]. *)
Definition WrapTrackNotFound (trackID : TrackID) (cause : option error)
  : DomainError :=
  let err :=
    NewDomainErrorWithCause ErrTrackNotFound
      ("track with ID '" +:+ value trackID +:+ "' was not found") cause in
  WithContext err "track_id" (VStr (value trackID)).

(** [WrapInvalidPosition]. *)
Definition WrapInvalidPosition (position : Duration) (cause : option error)
  : DomainError :=
  let err :=
    NewDomainErrorWithCause ErrInvalidPosition
      ("position " +:+ Duration_String position +:+ " is invalid") cause in
  WithContext err "position_seconds" (VInt (Seconds position)).

(** ** values.go, the remaining methods *)

(** [TrackID.Equals]. *)
Definition TrackID_Equals (t other : TrackID) : bool :=
  String.eqb (value t) (value other).

Record PlaylistID : Set := mkPlaylistID { playlistValue : string }.

(** [NewPlaylistID], [PlaylistID.IsEmpty]. *)
Definition NewPlaylistID (v : string) : PlaylistID :=
  {| playlistValue := TrimSpace v |}.
Definition PlaylistID_IsEmpty (p : PlaylistID) : bool :=
  String.eqb (playlistValue p) "".

(** [WrapPlaylistNotFound]. *)
Definition WrapPlaylistNotFound (playlistID : PlaylistID) (cause : option error)
  : DomainError :=
  let err :=
    NewDomainErrorWithCause ErrPlaylistNotFound
      ("playlist with ID '" +:+ playlistValue playlistID +:+ "' was not found")
      cause in
  WithContext err "playlist_id" (VStr (playlistValue playlistID)).

(** [Duration.Minutes], [Duration.Hours]. *)
Definition Minutes (d : Duration) : Z := Z.quot (seconds d) 60.
Definition Hours (d : Duration) : Z := Z.quot (seconds d) 3600.

(** [Duration.ToTime]: nanoseconds, a 64-bit product. *)
Definition ToTime (d : Duration) : Z := wrap (seconds d * 1000000000).

(** [Volume.IsMuted], [Volume.IsMax]. *)
Definition IsMuted (v : Volume) : bool := level v =? 0.
Definition IsMax (v : Volume) : bool := level v =? 100.

Inductive PlaylistType : Set :=
| PlaylistTypeUser | PlaylistTypeSmart | PlaylistTypeLibrary
| PlaylistTypeQueue | PlaylistTypeRecentlyPlayed | PlaylistTypeRecentlyAdded.

(** [PlaylistType.IsReadOnly]. *)
Definition PlaylistType_IsReadOnly (pt : PlaylistType) : bool :=
  match pt with
  | PlaylistTypeLibrary | PlaylistTypeQueue
  | PlaylistTypeRecentlyPlayed | PlaylistTypeRecentlyAdded => true
  | _ => false
  end.

(** ** entities.go, the remaining entities and methods *)

(** [Track.Equals]; [other] may be nil. *)
Definition Track_Equals (t : Track) (other : option Track) : bool :=
  match other with
  | None => false
  | Some o => TrackID_Equals (ID t) (ID o)
  end.

(** [Track.String]. *)
Definition Track_String (t : Track) : string := Artist t +:+ " - " +:+ Title t.

Record Playlist : Set :=
  mkPlaylist {
    Playlist_ID : PlaylistID;
    Name : string;
    Playlist_Type : PlaylistType;
    ReadOnly : bool;
    Tracks : list TrackID;
    CreatedAt : Z;
    ModifiedAt : Z
  }.

(** [NewPlaylist]; [now] is the reading of [time.Now()]. *)
Definition NewPlaylist (now : Z) (id : PlaylistID) (name : string)
    (playlistType : PlaylistType) (readOnly : bool)
  : option Playlist * option error :=
  if PlaylistID_IsEmpty id then
    (None, Some (EDomain (NewDomainError ErrInvalidPlaylistID
                            "playlist ID cannot be empty")))
  else if String.eqb name "" then
    (None, Some (EDomain (NewDomainError ErrInvalidPlaylist
                            "playlist name cannot be empty")))
  else
    (Some {| Playlist_ID := id; Name := name; Playlist_Type := playlistType;
             ReadOnly := readOnly; Tracks := []; CreatedAt := now;
             ModifiedAt := now |}, None).

(** [Playlist.ContainsTrack]. *)
Fixpoint containsTrack (tracks : list TrackID) (trackID : TrackID) : bool :=
  match tracks with
  | [] => false
  | existing :: rest =>
      if TrackID_Equals existing trackID then true else containsTrack rest trackID
  end.
Definition ContainsTrack (p : Playlist) (trackID : TrackID) : bool :=
  containsTrack (Tracks p) trackID.

Definition setTracks (p : Playlist) (tracks : list TrackID) (now : Z) : Playlist :=
  {| Playlist_ID := Playlist_ID p; Name := Name p;
     Playlist_Type := Playlist_Type p; ReadOnly := ReadOnly p;
     Tracks := tracks; CreatedAt := CreatedAt p; ModifiedAt := now |}.

(** [Playlist.AddTrack]: the playlist after the call, and the error. *)
Definition AddTrack (now : Z) (p : Playlist) (trackID : TrackID)
  : Playlist * option error :=
  if ReadOnly p then
    (p, Some (EDomain (NewDomainError ErrPlaylistReadOnly
                         "cannot modify read-only playlist")))
  else if TrackID_IsEmpty trackID then
    (p, Some (EDomain (NewDomainError ErrInvalidTrackID
                         "cannot add empty track ID to playlist")))
  else if containsTrack (Tracks p) trackID then
    (p, Some (EDomain (NewDomainError ErrTrackAlreadyInPlaylist
                         "track is already in playlist")))
  else (setTracks p (Tracks p ++ [trackID]) now, None).

(** The loop of [RemoveTrack]: the slice without the first track equal to
    [trackID], or [None] when there is none. *)
Fixpoint removeFirst (tracks : list TrackID) (trackID : TrackID)
  : option (list TrackID) :=
  match tracks with
  | [] => None
  | existing :: rest =>
      if TrackID_Equals existing trackID then Some rest
      else match removeFirst rest trackID with
           | Some rest' => Some (existing :: rest')
           | None => None
           end
  end.

(** [Playlist.RemoveTrack]. *)
Definition RemoveTrack (now : Z) (p : Playlist) (trackID : TrackID)
  : Playlist * option error :=
  if ReadOnly p then
    (p, Some (EDomain (NewDomainError ErrPlaylistReadOnly
                         "cannot modify read-only playlist")))
  else
    match removeFirst (Tracks p) trackID with
    | Some tracks => (setTracks p tracks now, None)
    | None =>
        (p, Some (EDomain (NewDomainError ErrTrackNotFound
                             "track not found in playlist")))
    end.

(** [Playlist.TrackCount], [Playlist.IsEmpty]. *)
Definition TrackCount (p : Playlist) : Z := Z.of_nat (length (Tracks p)).
Definition Playlist_IsEmpty (p : Playlist) : bool := (length (Tracks p) =? 0)%nat.

(** The methods of [Player]; each takes the reading of [time.Now()] it
    stores in [LastUpdated]. *)
Definition Player_SetVolume (now : Z) (p : Player) (volume : Volume)
  : Player * option error :=
  if negb (Volume_IsValid volume) then
    (p, Some (EDomain (NewDomainError ErrInvalidVolume
                         "volume must be between 0 and 100")))
  else
    ({| State := State p; CurrentTrack := CurrentTrack p; Position := Position p;
        Player_Volume := volume; Shuffle := Shuffle p; Repeat := Repeat p;
        LastUpdated := now |}, None).

Definition Player_SetPosition (now : Z) (p : Player) (position : Duration)
  : Player * option error :=
  if negb (Duration_IsValid position) then
    (p, Some (EDomain (NewDomainError ErrInvalidPosition "position must be valid")))
  else
    ({| State := State p; CurrentTrack := CurrentTrack p; Position := position;
        Player_Volume := Player_Volume p; Shuffle := Shuffle p; Repeat := Repeat p;
        LastUpdated := now |}, None).

Definition Player_Play (now : Z) (p : Player) (trackID : option TrackID) : Player :=
  {| State := PlayerStatePlaying; CurrentTrack := trackID; Position := Position p;
     Player_Volume := Player_Volume p; Shuffle := Shuffle p; Repeat := Repeat p;
     LastUpdated := now |}.

Definition Player_Pause (now : Z) (p : Player) : Player :=
  match State p with
  | PlayerStatePlaying =>
      {| State := PlayerStatePaused; CurrentTrack := CurrentTrack p;
         Position := Position p; Player_Volume := Player_Volume p;
         Shuffle := Shuffle p; Repeat := Repeat p; LastUpdated := now |}
  | _ => p
  end.

Definition Player_Stop (now : Z) (p : Player) : Player :=
  {| State := PlayerStateStopped; CurrentTrack := None; Position := NewDuration 0;
     Player_Volume := Player_Volume p; Shuffle := Shuffle p; Repeat := Repeat p;
     LastUpdated := now |}.

Definition Player_Resume (now : Z) (p : Player) : Player :=
  match State p with
  | PlayerStatePaused =>
      {| State := PlayerStatePlaying; CurrentTrack := CurrentTrack p;
         Position := Position p; Player_Volume := Player_Volume p;
         Shuffle := Shuffle p; Repeat := Repeat p; LastUpdated := now |}
  | _ => p
  end.

Definition Player_SetShuffle (now : Z) (p : Player) (enabled : bool) : Player :=
  {| State := State p; CurrentTrack := CurrentTrack p; Position := Position p;
     Player_Volume := Player_Volume p; Shuffle := enabled; Repeat := Repeat p;
     LastUpdated := now |}.

Definition Player_SetRepeat (now : Z) (p : Player) (mode : RepeatMode) : Player :=
  {| State := State p; CurrentTrack := CurrentTrack p; Position := Position p;
     Player_Volume := Player_Volume p; Shuffle := Shuffle p; Repeat := mode;
     LastUpdated := now |}.

(** [Player.IsPlaying], [IsPaused], [IsStopped], [HasCurrentTrack]. *)
Definition IsPlaying (p : Player) : bool :=
  match State p with PlayerStatePlaying => true | _ => false end.
Definition IsPaused (p : Player) : bool :=
  match State p with PlayerStatePaused => true | _ => false end.
Definition IsStopped (p : Player) : bool :=
  match State p with PlayerStateStopped => true | _ => false end.
Definition HasCurrentTrack (p : Player) : bool :=
  match CurrentTrack p with
  | Some t => negb (TrackID_IsEmpty t)
  | None => false
  end.

(** One call on a [Player], for sequences of calls. *)
Inductive PlayerOp : Set :=
| OpSetVolume (volume : Volume)
| OpSetPosition (position : Duration)
| OpPlay (trackID : option TrackID)
| OpPause
| OpStop
| OpResume
| OpSetShuffle (enabled : bool)
| OpSetRepeat (mode : RepeatMode).

Definition applyOp (now : Z) (p : Player) (op : PlayerOp) : Player :=
  match op with
  | OpSetVolume v => fst (Player_SetVolume now p v)
  | OpSetPosition d => fst (Player_SetPosition now p d)
  | OpPlay t => Player_Play now p t
  | OpPause => Player_Pause now p
  | OpStop => Player_Stop now p
  | OpResume => Player_Resume now p
  | OpSetShuffle b => Player_SetShuffle now p b
  | OpSetRepeat m => Player_SetRepeat now p m
  end.

(** One call that changes a [Playlist]. *)
Inductive PlaylistOp : Set :=
| OpAddTrack (trackID : TrackID)
| OpRemoveTrack (trackID : TrackID).

Definition applyPlaylistOp (now : Z) (p : Playlist) (op : PlaylistOp) : Playlist :=
  match op with
  | OpAddTrack t => fst (AddTrack now p t)
  | OpRemoveTrack t => fst (RemoveTrack now p t)
  end.

End Music.

(* ===================================================================== *)
(** * [infrastructure/applescript]: executor and decoders *)
(* ===================================================================== *)

Module AppleScript.
Import GoStr Music.

(** ** executor.go *)

(** Durations of package [time] are nanosecond counts. *)
Definition Millisecond : Z := 1000000.
Definition Second : Z := 1000000000.

Record ExecutorConfig : Set :=
  mkExecutorConfig {
    ExecPath : string;
    DefaultTimeout : Z;
    MaxRetries : Z;
    RetryDelay : Z
  }.

(** [DefaultExecutorConfig]. *)
Definition DefaultExecutorConfig : ExecutorConfig :=
  {| ExecPath := "maestro-exec";
     DefaultTimeout := 10 * Second;
     MaxRetries := 3;
     RetryDelay := 500 * Millisecond |}.

Record ExecuteResult : Type :=
  mkExecuteResult {
    Output : string;
    Error : option error;
    Duration : Z;
    RetryCount : Z
  }.

Definition setError (r : ExecuteResult) (e : option error) : ExecuteResult :=
  {| Output := Output r; Error := e; Duration := Duration r;
     RetryCount := RetryCount r |}.
Definition setDuration (r : ExecuteResult) (d : Z) : ExecuteResult :=
  {| Output := Output r; Error := Error r; Duration := d;
     RetryCount := RetryCount r |}.
Definition setRetryCount (r : ExecuteResult) (n : Z) : ExecuteResult :=
  {| Output := Output r; Error := Error r; Duration := Duration r;
     RetryCount := n |}.

(** *** The world outside the executor

    What [cmd.Wait] returned: nil, an [exec.ExitError] carrying the exit
    code, or another error. *)
Inductive WaitStatus : Set :=
| WaitOK
| WaitExit (code : Z)
| WaitErr (msg : string).

(** Everything [executeOnce] observes of one run of the external runner:
    the errors of [StdinPipe], [Start] and of writing the script, the
    result of [Wait], the two captured streams, and the state of the
    per-attempt context [execCtx] once [Wait] has returned. *)
Record ProcRun : Set :=
  mkProcRun {
    stdinPipeErr : option string;
    startErr : option string;
    writeErr : option string;
    waitStatus : WaitStatus;
    stdout : string;
    stderr : string;
    execCtxErr : option CtxErr
  }.

(** The environment of a call, as three oracles read in order: the
    monotonic clock, the caller's context (what [ctx.Err()] returns, or
    for the [select] of the retry wait which branch fired: [Some] is
    [ctx.Done()], [None] the timer), and the runner (the [k]-th run, for
    the executable, the script written to it and the timeout).  The last
    two fields are the file store behind [LoadScript]. *)
Record World : Type :=
  mkWorld {
    clock : nat -> Z;
    ctxObs : nat -> option CtxErr;
    runner : nat -> string -> string -> Z -> ProcRun;
    scriptPath : option (string -> string);
    readFile : string -> string + string
  }.

(** How far each oracle has been read. *)
Record St : Set :=
  mkSt {
    clockReads : nat;
    ctxReads : nat;
    attempts : nat
  }.

Definition st0 : St := {| clockReads := 0; ctxReads := 0; attempts := 0 |}.

(** The state monad the executor runs in. *)
Definition M (A : Type) : Type := St -> A * St.

Definition ret {A} (a : A) : M A := fun st => (a, st).
Definition bind {A B} (m : M A) (k : A -> M B) : M B :=
  fun st => let '(a, st') := m st in k a st'.

Notation "'let*' x ':=' m 'in' k" :=
  (bind m (fun x => k)) (at level 10, x name, m at level 200, k at level 200).

Section Executor.
Variable w : World.
Variable config : ExecutorConfig.

(** [time.Now()]. *)
Definition Now : M Z :=
  fun st =>
    (clock w (clockReads st),
     {| clockReads := S (clockReads st); ctxReads := ctxReads st;
        attempts := attempts st |}).

(** [time.Since(t)]. *)
Definition Since (t : Z) : M Z :=
  let* now := Now in ret (now - t).

(** [ctx.Err()]; also the outcome of waiting on [ctx.Done()] against
    the retry timer. *)
Definition ctxErr : M (option CtxErr) :=
  fun st =>
    (ctxObs w (ctxReads st),
     {| clockReads := clockReads st; ctxReads := S (ctxReads st);
        attempts := attempts st |}).

(** One run of the external runner. *)
Definition run (script : string) (timeout : Z) : M ProcRun :=
  fun st =>
    (runner w (attempts st) (ExecPath config) script timeout,
     {| clockReads := clockReads st; ctxReads := ctxReads st;
        attempts := S (attempts st) |}).

Definition waitError (s : WaitStatus) : option error :=
  match s with
  | WaitOK => None
  | WaitExit code => Some (EExit code)
  | WaitErr msg => Some (EOS msg)
  end.

(** A result that sets only [Error] and [Duration]. *)
Definition failed (e : DomainError) (d : Z) : ExecuteResult :=
  {| Output := ""; Error := Some (EDomain e); Duration := d;
     RetryCount := 0 |}.

(** [Executor.executeOnce]. *)
Definition executeOnce (script : string) (timeout : Z) : M ExecuteResult :=
  let* startTime := Now in
  let* p := run script timeout in
  match stdinPipeErr p with
  | Some err =>
      let* d := Since startTime in
      ret (failed (NewDomainErrorWithCause ErrOperationFailed
                     "failed to create stdin pipe" (Some (EOS err))) d)
  | None =>
  match startErr p with
  | Some err =>
      let* d := Since startTime in
      ret (failed (NewDomainErrorWithCause ErrOperationFailed
                     "failed to start maestro-exec" (Some (EOS err))) d)
  | None =>
  match writeErr p with
  | Some err =>
      let* d := Since startTime in
      ret (failed (NewDomainErrorWithCause ErrOperationFailed
                     "failed to write script to stdin" (Some (EOS err))) d)
  | None =>
      let* d := Since startTime in
      let result :=
        {| Output := TrimSpace (stdout p); Error := None; Duration := d;
           RetryCount := 0 |} in
      match waitError (waitStatus p) with
      | None => ret result
      | Some err =>
          let stderrOutput := TrimSpace (stderr p) in
          match execCtxErr p with
          | Some DeadlineExceeded =>
              ret (setError result
                     (Some (EDomain (WrapOperationTimeout "AppleScript execution"
                                       (NewDurationFromTime timeout) (Some err)))))
          | _ =>
              let* c := ctxErr in
              match c with
              | Some ce =>
                  ret (setError result
                         (Some (EDomain (NewDomainErrorWithCause ErrTimeout
                                           "context cancelled" (Some (EContext ce))))))
              | None =>
                  match err with
                  | EExit exitCode =>
                      if exitCode =? 1 then
                        ret (setError result
                               (Some (EDomain (NewDomainErrorWithCause ErrOperationFailed
                                  ("AppleScript execution failed: " +:+ stderrOutput)
                                  (Some err)))))
                      else if exitCode =? 2 then
                        ret (setError result
                               (Some (EDomain (WrapOperationTimeout "AppleScript execution"
                                                 (NewDurationFromTime timeout) (Some err)))))
                      else
                        ret (setError result
                               (Some (EDomain (NewDomainErrorWithCause ErrOperationFailed
                                  ("AppleScript execution failed with exit code "
                                     +:+ Itoa exitCode +:+ ": " +:+ stderrOutput)
                                  (Some err)))))
                  | _ =>
                      ret (setError result
                             (Some (EDomain (NewDomainErrorWithCause ErrOperationFailed
                                ("failed to execute AppleScript: " +:+ stderrOutput)
                                (Some err)))))
                  end
              end
          end
      end
  end end end.

(** The loop of [ExecuteWithTimeout], from the iteration with counter
    [attempt] on; [fuel] is the number of iterations left, that is
    [MaxRetries + 1 - attempt].  With no fuel the loop condition
    [attempt <= MaxRetries] has failed and the code after the loop runs. *)
Fixpoint retryLoop (fuel : nat) (attempt : Z) (lastErr : option error)
    (startTime : Z) (script : string) (timeout : Z) : M ExecuteResult :=
  match fuel with
  | O =>
      let* d := Since startTime in
      ret {| Output := "";
             Error := Some (EDomain (NewDomainErrorWithCause ErrOperationFailed
                        ("AppleScript execution failed after "
                           +:+ Itoa (wrap (MaxRetries config + 1)) +:+ " attempts")
                        lastErr));
             Duration := d;
             RetryCount := MaxRetries config |}
  | S fuel' =>
      let* cancelled := (if 0 <? attempt then ctxErr else ret None) in
      match cancelled with
      | Some ce =>
          let* d := Since startTime in
          ret {| Output := "";
                 Error := Some (EDomain (NewDomainErrorWithCause ErrTimeout
                            "context cancelled during retry" (Some (EContext ce))));
                 Duration := d;
                 RetryCount := attempt |}
      | None =>
          let* result := executeOnce script timeout in
          let result := setRetryCount result attempt in
          match Error result with
          | None =>
              let* d := Since startTime in
              ret (setDuration result d)
          | Some lastErr =>
              if IsPermanent lastErr then
                let* d := Since startTime in
                ret (setDuration result d)
              else
                let* c := ctxErr in
                match c with
                | Some ce =>
                    let result :=
                      setError result
                        (Some (EDomain (NewDomainErrorWithCause ErrTimeout
                                          "context cancelled" (Some (EContext ce))))) in
                    let* d := Since startTime in
                    ret (setDuration result d)
                | None =>
                    retryLoop fuel' (attempt + 1) (Some lastErr)
                      startTime script timeout
                end
          end
      end
  end.

(** [Executor.ExecuteWithTimeout].  The loop makes [MaxRetries + 1]
    iterations at most (none for a negative [MaxRetries]); [MaxRetries]
    is below the largest [int], so that the counter does not wrap. *)
Definition ExecuteWithTimeout (script : string) (timeout : Z)
  : M ExecuteResult :=
  let script := TrimSpace script in
  if String.eqb script "" then
    ret {| Output := "";
           Error := Some (EDomain (NewDomainError ErrInvalidOperation
                                     "AppleScript cannot be empty"));
           Duration := 0;
           RetryCount := 0 |}
  else
    let* startTime := Now in
    retryLoop (Z.to_nat (MaxRetries config + 1)) 0 None startTime script timeout.

(** [Executor.Execute]. *)
Definition Execute (script : string) : M ExecuteResult :=
  ExecuteWithTimeout script (DefaultTimeout config).

(** [Executor.LoadScript].  [scriptPath w] is [None] when
    [runtime.Caller] fails; otherwise it maps a template name to the
    path of its file under the scripts directory. *)
Definition LoadScript (scriptName : string) : string * option error :=
  match scriptPath w with
  | None =>
      ("", Some (EDomain (NewDomainError ErrOperationFailed
                            "unable to determine current file location")))
  | Some pathOf =>
      let path := pathOf scriptName in
      match readFile w path with
      | inl err =>
          ("", Some (EDomain (NewDomainErrorWithCause ErrOperationFailed
                                ("failed to read script file " +:+ path)
                                (Some (EOS err)))))
      | inr content => (content, None)
      end
  end.

(** The verb [%v] on a parameter value. *)
Definition formatValue (v : GoValue) : string :=
  match v with
  | VInt i => Itoa i
  | VStr s => s
  | VBool true => "true"
  | VBool false => "false"
  end.

(** [Executor.ExecuteTemplate].  [params] lists the entries of the
    parameter map in the order the [range] loop visits them. *)
Definition ExecuteTemplate (templateName : string)
    (params : list (string * GoValue)) : M ExecuteResult :=
  match LoadScript templateName with
  | (_, Some err) =>
      ret {| Output := "";
             Error := Some (EDomain (NewDomainErrorWithCause ErrOperationFailed
                                       "failed to load script template" (Some err)));
             Duration := 0;
             RetryCount := 0 |}
  | (script, None) =>
      let script :=
        fold_left
          (fun script kv =>
             let placeholder := "{{" +:+ fst kv +:+ "}}" in
             let replacement := formatValue (snd kv) in
             ReplaceAll script placeholder replacement)
          params script in
      Execute script
  end.

End Executor.

(** ** player_repository.go: the decoders *)

Section Decoder.
(** Two routines of Go's standard library are parameters of the
    decoders: [unicodeLower] is [strings.Map(unicode.ToLower, s)] (see
    [GoStr.ToLower]), and [parseFloatInt s] is
    [strconv.ParseFloat(s, 64)] followed by the conversion of the
    float to [int]; [None] is a parse error. *)
Variable unicodeLower : string -> string.
Variable parseFloatInt : string -> option Z.

(** [parts[i]] for an index within the slice. *)
Definition part (parts : list string) (i : nat) : string := nth i parts "".

Definition decodeError (message : string) : option error :=
  Some (EDomain (NewDomainError ErrOperationFailed message)).

(** [PlayerRepository.parsePlayerState]; [now] is the clock reading
    [NewPlayer] takes. *)
Definition parsePlayerState (now : Z) (output : string)
  : option Player * option error :=
  let parts := Split (TrimSpace output) "|" in
  if negb (length parts =? 6)%nat then
    (None, decodeError "invalid player state format")
  else
    let state :=
      let s := ToLower unicodeLower (part parts 0) in
      if String.eqb s "stopped" then PlayerStateStopped
      else if String.eqb s "playing" then PlayerStatePlaying
      else if String.eqb s "paused" then PlayerStatePaused
      else PlayerStateStopped in
    match Atoi (part parts 1) with
    | None => (None, decodeError "invalid volume format")
    | Some volumeLevel =>
        let volume := NewVolume volumeLevel in
        let position :=
          if String.eqb (part parts 2) "missing value"
             || String.eqb (part parts 2) ""
          then inr (NewDuration 0)
          else
            match parseFloatInt (part parts 2) with
            | None => inl (decodeError "invalid position format")
            | Some positionSeconds => inr (NewDuration positionSeconds)
            end in
        match position with
        | inl err => (None, err)
        | inr position =>
            let shuffle := String.eqb (ToLower unicodeLower (part parts 3)) "true" in
            let repeat :=
              let s := ToLower unicodeLower (part parts 4) in
              if String.eqb s "off" then RepeatModeOff
              else if String.eqb s "all" then RepeatModeAll
              else if String.eqb s "one" then RepeatModeOne
              else RepeatModeOff in
            let currentTrack :=
              if negb (String.eqb (part parts 5) "")
              then Some (NewTrackID (part parts 5))
              else None in
            let player := NewPlayer now in
            (Some {| State := state;
                     CurrentTrack := currentTrack;
                     Position := position;
                     Player_Volume := volume;
                     Shuffle := shuffle;
                     Repeat := repeat;
                     LastUpdated := LastUpdated player |}, None)
        end
    end.

(** [PlayerRepository.parseTrack]. *)
Definition parseTrack (output : string) : option Track * option error :=
  let parts := Split (TrimSpace output) "|" in
  if negb (length parts =? 5)%nat then
    (None, decodeError "invalid track format")
  else
    let trackID := NewTrackID (part parts 0) in
    let title := part parts 1 in
    let artist := part parts 2 in
    let album := part parts 3 in
    match parseFloatInt (part parts 4) with
    | None => (None, decodeError "invalid track duration format")
    | Some durationSeconds =>
        let duration := NewDuration durationSeconds in
        NewTrack trackID title artist album duration
    end.

End Decoder.

(** A run that ends well: the pipe, the start and the write succeeded and
    [Wait] returned nil. *)
Definition runOK (p : ProcRun) : bool :=
  match stdinPipeErr p, startErr p, writeErr p, waitStatus p with
  | None, None, None, WaitOK => true
  | _, _, _, _ => false
  end.

(** The run behind the [k]-th attempt of a call with [script]. *)
Definition attemptRun (w : World) (config : ExecutorConfig)
    (script : string) (timeout : Z) (k : nat) : ProcRun :=
  runner w k (ExecPath config) (TrimSpace script) timeout.

(** The caller's context is never seen cancelled. *)
Definition neverCancelled (w : World) : Prop :=
  forall k, ctxObs w k = None.

(** ** Sample worlds

    A run that ends well with [out] on standard output, and a run that
    exits with [code] and [err] on standard error. *)
Definition okRun (out : string) : ProcRun :=
  {| stdinPipeErr := None; startErr := None; writeErr := None;
     waitStatus := WaitOK; stdout := out; stderr := "";
     execCtxErr := None |}.

Definition exitRun (code : Z) (err : string) : ProcRun :=
  {| stdinPipeErr := None; startErr := None; writeErr := None;
     waitStatus := WaitExit code; stdout := ""; stderr := err;
     execCtxErr := None |}.

(** A clock that advances by a millisecond between readings. *)
Definition tick (k : nat) : Z := (Z.of_nat k + 1) * Millisecond.

(** A world with that clock, a context that is never cancelled, an empty
    scripts directory and the given runs. *)
Definition worldOf (runs : nat -> ProcRun) : World :=
  {| clock := tick;
     ctxObs := fun _ => None;
     runner := fun k _ _ _ => runs k;
     scriptPath := Some (fun name => "scripts/" +:+ name +:+ ".scpt");
     readFile := fun path => inl ("open " +:+ path +:+ ": no such file or directory") |}.

(** The first [failures] runs exit with status 1, the later ones end well. *)
Definition flakyWorld (failures : nat) : World :=
  worldOf (fun k => if (k <? failures)%nat
                    then exitRun 1 "Music got an error"
                    else okRun "ok").

(** Every run exits with status [code]. *)
Definition brokenWorld (code : Z) : World :=
  worldOf (fun _ => exitRun code "Music got an error").

(** Sample instances of the two library routines the decoders take, for
    lines of plain bytes and whole seconds: nothing to lower outside
    ASCII, and a position or duration read as a decimal integer. *)
Definition sampleLower (s : string) : string := s.
Definition sampleParseFloatInt (s : string) : option Z := Atoi s.


(** ** executor.go: the health check *)

(** The double quote, for the script texts below. *)
Definition dq : string := String (ascii_of_nat 34) EmptyString.

Section ExecutorHealth.
Variable w : World.
Variable config : ExecutorConfig.

(** [Executor.HealthCheck]. *)
Definition Executor_HealthCheck : M (option error) :=
  let* result := Execute w config ("return " +:+ dq +:+ "health" +:+ dq) in
  match Error result with
  | Some e =>
      ret (Some (EDomain (NewDomainErrorWithCause ErrOperationFailed
                            "executor health check failed" (Some e))))
  | None =>
      if negb (String.eqb (Output result) "health") then
        ret (Some (EDomain (NewDomainError ErrOperationFailed
                              "executor health check returned unexpected output")))
      else ret None
  end.

End ExecutorHealth.

(** ** player_repository.go: the operations

    The script texts, as the raw string literals of the source have them
    (a line break after the opening quote, tabs for indentation), with
    the values [fmt.Sprintf] puts in. *)

Definition playScript (trackID : TrackID) : string :=
  "
		tell application " +:+ dq +:+ "Music" +:+ dq +:+ "
			try
				set theTrack to track id " +:+ (value trackID) +:+ "
				play theTrack
			on error errMsg
				error " +:+ dq +:+ "Failed to play track: " +:+ dq +:+ " & errMsg
			end try
		end tell
	".

Definition pauseScript : string :=
  "
		tell application " +:+ dq +:+ "Music" +:+ dq +:+ "
			pause
		end tell
	".

Definition stopScript : string :=
  "
		tell application " +:+ dq +:+ "Music" +:+ dq +:+ "
			stop
		end tell
	".

Definition resumeScript : string :=
  "
		tell application " +:+ dq +:+ "Music" +:+ dq +:+ "
			play
		end tell
	".

Definition nextScript : string :=
  "
		tell application " +:+ dq +:+ "Music" +:+ dq +:+ "
			next track
		end tell
	".

Definition previousScript : string :=
  "
		tell application " +:+ dq +:+ "Music" +:+ dq +:+ "
			previous track
		end tell
	".

Definition seekScript (position : Music.Duration) : string :=
  "
		tell application " +:+ dq +:+ "Music" +:+ dq +:+ "
			try
				set player position to " +:+ (Itoa (Seconds position)) +:+ "
			on error errMsg
				error " +:+ dq +:+ "Failed to seek: " +:+ dq +:+ " & errMsg
			end try
		end tell
	".

Definition setVolumeScript (volume : Volume) : string :=
  "
		tell application " +:+ dq +:+ "Music" +:+ dq +:+ "
			set sound volume to " +:+ (Itoa (Level volume)) +:+ "
		end tell
	".

Definition setShuffleScript (enabled : bool) : string :=
  "
		tell application " +:+ dq +:+ "Music" +:+ dq +:+ "
			set shuffle enabled to " +:+ (if enabled then "true" else "false") +:+ "
		end tell
	".

Definition setRepeatScript (repeatSetting : string) : string :=
  "
		tell application " +:+ dq +:+ "Music" +:+ dq +:+ "
			set song repeat to " +:+ (repeatSetting) +:+ "
		end tell
	".

Definition getCurrentStateScript : string :=
  "
		tell application " +:+ dq +:+ "Music" +:+ dq +:+ "
			try
				set playerState to player state as string
				set playerVolume to sound volume
				set playerPosition to player position
				set shuffleState to shuffle enabled
				set repeatState to song repeat as string
				
				set currentTrackID to " +:+ dq +:+ dq +:+ "
				if player state is not stopped then
					try
						set currentTrackID to (database ID of current track) as string
					end try
				end if
				
				return playerState & " +:+ dq +:+ "|" +:+ dq +:+ " & playerVolume & " +:+ dq +:+ "|" +:+ dq +:+ " & playerPosition & " +:+ dq +:+ "|" +:+ dq +:+ " & shuffleState & " +:+ dq +:+ "|" +:+ dq +:+ " & repeatState & " +:+ dq +:+ "|" +:+ dq +:+ " & currentTrackID
			on error errMsg
				error " +:+ dq +:+ "Failed to get player state: " +:+ dq +:+ " & errMsg
			end try
		end tell
	".

Definition getCurrentTrackScript : string :=
  "
		tell application " +:+ dq +:+ "Music" +:+ dq +:+ "
			try
				if player state is stopped then
					return " +:+ dq +:+ dq +:+ "
				end if
				
				set theTrack to current track
				set trackID to (database ID of theTrack) as string
				set trackName to name of theTrack
				set trackArtist to artist of theTrack
				set trackAlbum to album of theTrack
				set trackDuration to duration of theTrack
				
				return trackID & " +:+ dq +:+ "|" +:+ dq +:+ " & trackName & " +:+ dq +:+ "|" +:+ dq +:+ " & trackArtist & " +:+ dq +:+ "|" +:+ dq +:+ " & trackAlbum & " +:+ dq +:+ "|" +:+ dq +:+ " & trackDuration
			on error errMsg
				error " +:+ dq +:+ "Failed to get current track: " +:+ dq +:+ " & errMsg
			end try
		end tell
	".

Definition healthCheckScript : string :=
  "
		tell application " +:+ dq +:+ "Music" +:+ dq +:+ "
			try
				get name
				return " +:+ dq +:+ "ok" +:+ dq +:+ "
			on error errMsg
				error " +:+ dq +:+ "Music app not accessible: " +:+ dq +:+ " & errMsg
			end try
		end tell
	".

(** The value of a [RepeatMode] constant ([iota]): the type is an [int],
    and [SetRepeat] can be handed any. *)
Definition RepeatMode_value (rm : RepeatMode) : Z :=
  match rm with
  | RepeatModeOff => 0
  | RepeatModeAll => 1
  | RepeatModeOne => 2
  end.

(** [RepeatMode.IsValid] on the underlying [int]. *)
Definition RepeatMode_IsValid (mode : Z) : bool := (0 <=? mode) && (mode <=? 2).

Section Repository.
Variable w : World.
Variable config : ExecutorConfig.
Variable unicodeLower : string -> string.
Variable parseFloatInt : string -> option Z.

(** What every operation does with a script: run it, and wrap a failure
    in an operation-failed error with [message]. *)
Definition executeOrFail (script message : string) : M (option error) :=
  let* result := Execute w config script in
  match Error result with
  | Some e =>
      ret (Some (EDomain (NewDomainErrorWithCause ErrOperationFailed message (Some e))))
  | None => ret None
  end.

(** [PlayerRepository.Play]. *)
Definition Play (trackID : TrackID) : M (option error) :=
  if TrackID_IsEmpty trackID then
    ret (Some (EDomain (NewDomainError ErrInvalidTrackID "track ID cannot be empty")))
  else
    executeOrFail (playScript trackID) ("failed to play track " +:+ value trackID).

(** [PlayerRepository.Pause], [Stop], [Resume], [Next], [Previous]. *)
Definition Pause : M (option error) :=
  executeOrFail pauseScript "failed to pause playback".
Definition Stop : M (option error) :=
  executeOrFail stopScript "failed to stop playback".
Definition Resume : M (option error) :=
  executeOrFail resumeScript "failed to resume playback".
Definition Next : M (option error) :=
  executeOrFail nextScript "failed to skip to next track".
Definition Previous : M (option error) :=
  executeOrFail previousScript "failed to skip to previous track".

(** [PlayerRepository.Seek]. *)
Definition Seek (position : Music.Duration) : M (option error) :=
  if negb (Duration_IsValid position) then
    ret (Some (EDomain (WrapInvalidPosition position None)))
  else
    executeOrFail (seekScript position)
      ("failed to seek to position " +:+ Duration_String position).

(** [PlayerRepository.SetVolume]. *)
Definition SetVolume (volume : Volume) : M (option error) :=
  if negb (Volume_IsValid volume) then
    ret (Some (EDomain (WrapInvalidVolume (Level volume) None)))
  else
    executeOrFail (setVolumeScript volume)
      ("failed to set volume to " +:+ Volume_String volume).

(** [PlayerRepository.SetShuffle]. *)
Definition SetShuffle (enabled : bool) : M (option error) :=
  executeOrFail (setShuffleScript enabled)
    ("failed to set shuffle mode to " +:+ (if enabled then "true" else "false")).

(** [RepeatMode.String] on the underlying [int]. *)
Definition RepeatMode_text (mode : Z) : string :=
  if mode =? 0 then "off"
  else if mode =? 1 then "all"
  else if mode =? 2 then "one"
  else "unknown".

(** [PlayerRepository.SetRepeat]. *)
Definition SetRepeat (mode : Z) : M (option error) :=
  if negb (RepeatMode_IsValid mode) then
    ret (Some (EDomain (NewDomainError ErrInvalidRepeatMode "invalid repeat mode")))
  else
    let repeatSetting :=
      if mode =? 0 then Some "off"
      else if mode =? 1 then Some "all"
      else if mode =? 2 then Some "one"
      else None in
    match repeatSetting with
    | None =>
        ret (Some (EDomain (NewDomainError ErrInvalidRepeatMode
                              "unsupported repeat mode")))
    | Some repeatSetting =>
        executeOrFail (setRepeatScript repeatSetting)
          ("failed to set repeat mode to " +:+ RepeatMode_text mode)
    end.

(** [PlayerRepository.GetCurrentState].  [parsePlayerState] reads the
    clock, in [NewPlayer], only once every field has decoded. *)
Definition GetCurrentState : M (option Player * option error) :=
  let* result := Execute w config getCurrentStateScript in
  match Error result with
  | Some e =>
      ret (None, Some (EDomain (NewDomainErrorWithCause ErrOperationFailed
                                  "failed to get current player state" (Some e))))
  | None =>
      match parsePlayerState unicodeLower parseFloatInt 0 (Output result) with
      | (None, err) => ret (None, err)
      | (Some _, _) =>
          let* now := Now w in
          ret (parsePlayerState unicodeLower parseFloatInt now (Output result))
      end
  end.

(** [PlayerRepository.GetCurrentTrack]. *)
Definition GetCurrentTrack : M (option Track * option error) :=
  let* result := Execute w config getCurrentTrackScript in
  match Error result with
  | Some e =>
      ret (None, Some (EDomain (NewDomainErrorWithCause ErrOperationFailed
                                  "failed to get current track" (Some e))))
  | None =>
      if String.eqb (TrimSpace (Output result)) "" then ret (None, None)
      else ret (parseTrack parseFloatInt (Output result))
  end.

(** [PlayerRepository.HealthCheck]. *)
Definition HealthCheck : M (option error) :=
  let* result := Execute w config healthCheckScript in
  match Error result with
  | Some e =>
      ret (Some (EDomain (NewDomainErrorWithCause ErrPlayerNotAvailable
                            "Music.app health check failed" (Some e))))
  | None =>
      if negb (String.eqb (Output result) "ok") then
        ret (Some (EDomain (NewDomainError ErrPlayerNotAvailable
                              "Music.app returned unexpected response")))
      else ret None
  end.

End Repository.

(** ** The repository's operations as one type *)

(** The operations of the repository that return only an error. *)
Inductive RepoOp : Set :=
| RPlay (trackID : TrackID)
| RPause | RStop | RResume | RNext | RPrevious
| RSeek (position : Music.Duration)
| RSetVolume (volume : Volume)
| RSetShuffle (enabled : bool)
| RSetRepeat (mode : Z).

Definition runOp (w : World) (config : ExecutorConfig) (op : RepoOp)
  : M (option error) :=
  match op with
  | RPlay t => Play w config t
  | RPause => Pause w config
  | RStop => Stop w config
  | RResume => Resume w config
  | RNext => Next w config
  | RPrevious => Previous w config
  | RSeek d => Seek w config d
  | RSetVolume v => SetVolume w config v
  | RSetShuffle b => SetShuffle w config b
  | RSetRepeat m => SetRepeat w config m
  end.

(** The argument passes the check the operation makes before it runs
    anything. *)
Definition opValid (op : RepoOp) : bool :=
  match op with
  | RPlay t => negb (TrackID_IsEmpty t)
  | RSeek d => Duration_IsValid d
  | RSetVolume v => Volume_IsValid v
  | RSetRepeat m => RepeatMode_IsValid m
  | _ => true
  end.

(** The script the operation hands to the executor. *)
Definition opScript (op : RepoOp) : string :=
  match op with
  | RPlay t => playScript t
  | RPause => pauseScript
  | RStop => stopScript
  | RResume => resumeScript
  | RNext => nextScript
  | RPrevious => previousScript
  | RSeek d => seekScript d
  | RSetVolume v => setVolumeScript v
  | RSetShuffle b => setShuffleScript b
  | RSetRepeat m => setRepeatScript (RepeatMode_text m)
  end.

(** ** Further sample worlds *)

(** A run killed when the attempt's deadline passed. *)
Definition timedOutRun : ProcRun :=
  {| stdinPipeErr := None; startErr := None; writeErr := None;
     waitStatus := WaitExit (-1); stdout := "partial"; stderr := "";
     execCtxErr := Some DeadlineExceeded |}.

(** A run that [Start] refused because its context was already done:
    [Start] returns the context's error and no process runs. *)
Definition refusedRun : ProcRun :=
  {| stdinPipeErr := None; startErr := Some "context canceled"; writeErr := None;
     waitStatus := WaitErr "exec: not started"; stdout := ""; stderr := "";
     execCtxErr := Some Canceled |}.

(** A world whose context is cancelled from the start: every look at the
    context finds it cancelled and [Start] refuses every run. *)
Definition cancelledWorld : World :=
  {| clock := tick;
     ctxObs := fun _ => Some Canceled;
     runner := fun _ _ _ _ => refusedRun;
     scriptPath := Some (fun name => "scripts/" +:+ name +:+ ".scpt");
     readFile := fun path => inl ("open " +:+ path +:+ ": no such file or directory") |}.

(** A world with one template, "stop", in its scripts directory. *)
Definition templateWorld : World :=
  {| clock := tick;
     ctxObs := fun _ => None;
     runner := fun _ _ _ _ => okRun "";
     scriptPath := Some (fun name => "scripts/" +:+ name +:+ ".scpt");
     readFile := fun path =>
       if String.eqb path "scripts/stop.scpt" then inr "stop {{what}}"
       else inl ("open " +:+ path +:+ ": no such file or directory") |}.

End AppleScript.

(* ===================================================================== *)
(** * Properties of the executor *)
(* ===================================================================== *)

Import GoStr Music AppleScript.

Section ExecutorFacts.
Variable w : World.
Variable config : ExecutorConfig.

Ltac run_monad :=
  unfold Since, Now, ctxErr, run, bind, ret, failed, setError in *; simpl in *.

Lemma executeOnce_ok script timeout st :
  runOK (runner w (attempts st) (ExecPath config) script timeout) = true ->
  executeOnce w config script timeout st =
    ({| Output := TrimSpace (stdout (runner w (attempts st) (ExecPath config) script timeout));
        Error := None;
        Duration := clock w (S (clockReads st)) - clock w (clockReads st);
        RetryCount := 0 |},
     {| clockReads := S (S (clockReads st)); ctxReads := ctxReads st;
        attempts := S (attempts st) |}).
Proof.
  intros Hok. unfold runOK in Hok. unfold executeOnce. run_monad.
  destruct (runner w (attempts st) (ExecPath config) script timeout) as [pe se we ws so se' ec].
  simpl in *.
  destruct pe; [discriminate|]. destruct se; [discriminate|].
  destruct we; [discriminate|]. destruct ws; try discriminate.
  reflexivity.
Qed.

Lemma executeOnce_fail script timeout st :
  runOK (runner w (attempts st) (ExecPath config) script timeout) = false ->
  exists d st',
    executeOnce w config script timeout st =
      ({| Output := Output (fst (executeOnce w config script timeout st));
          Error := Some (EDomain d);
          Duration := clock w (S (clockReads st)) - clock w (clockReads st);
          RetryCount := 0 |}, st')
    /\ (Code d = ErrOperationFailed \/ Code d = ErrTimeout)
    /\ attempts st' = S (attempts st)
    /\ clockReads st' = S (S (clockReads st))
    /\ (ctxReads st' = ctxReads st \/ ctxReads st' = S (ctxReads st)).
Proof.
  intros Hok. unfold runOK in Hok. unfold executeOnce. run_monad.
  destruct (runner w (attempts st) (ExecPath config) script timeout) as [pe se we ws so se' ec].
  simpl in *.
  destruct pe; [eexists _, _; simpl; eauto 10|].
  destruct se; [eexists _, _; simpl; eauto 10|].
  destruct we; [eexists _, _; simpl; eauto 10|].
  destruct ws as [|code|msg]; [discriminate| |]; simpl.
  - destruct ec as [[|]|]; simpl.
    + destruct (ctxObs w (ctxReads st)); simpl.
      * eexists _, _; simpl; eauto 10.
      * destruct (code =? 1); [eexists _, _; simpl; eauto 10|].
        destruct (code =? 2); eexists _, _; simpl; eauto 10.
    + eexists _, _; simpl; eauto 10.
    + destruct (ctxObs w (ctxReads st)); simpl.
      * eexists _, _; simpl; eauto 10.
      * destruct (code =? 1); [eexists _, _; simpl; eauto 10|].
        destruct (code =? 2); eexists _, _; simpl; eauto 10.
  - destruct ec as [[|]|]; simpl.
    + destruct (ctxObs w (ctxReads st)); simpl; eexists _, _; simpl; eauto 10.
    + eexists _, _; simpl; eauto 10.
    + destruct (ctxObs w (ctxReads st)); simpl; eexists _, _; simpl; eauto 10.
Qed.

Lemma executor_codes_not_permanent d :
  Code d = ErrOperationFailed \/ Code d = ErrTimeout ->
  IsPermanent (EDomain d) = false /\ IsRetryable (EDomain d) = true.
Proof.
  destruct d as [c m ca cx]; simpl; intros [-> | ->]; split; reflexivity.
Qed.

Lemma ctxErr_never st :
  neverCancelled w ->
  ctxErr w st =
    (None, {| clockReads := clockReads st; ctxReads := S (ctxReads st);
              attempts := attempts st |}).
Proof. intros H. unfold ctxErr. rewrite H. reflexivity. Qed.

(** The wait before an attempt, when the context is never cancelled:
    no cancellation is seen, and only the context oracle is advanced. *)
Lemma retry_wait_never (attempt : Z) st :
  neverCancelled w ->
  exists st1,
    (if 0 <? attempt then ctxErr w else ret None) st = (None, st1)
    /\ attempts st1 = attempts st /\ clockReads st1 = clockReads st.
Proof.
  intros H. destruct (0 <? attempt).
  - rewrite ctxErr_never by assumption. eexists; split; [reflexivity|]. simpl; auto.
  - eexists; split; [reflexivity|]. auto.
Qed.

Lemma retryLoop_succeeds script timeout startTime :
  neverCancelled w ->
  forall j fuel attempt lastErr st,
    (j < fuel)%nat ->
    (forall i, (i < j)%nat ->
       runOK (runner w (attempts st + i) (ExecPath config) script timeout) = false) ->
    runOK (runner w (attempts st + j) (ExecPath config) script timeout) = true ->
    exists r st',
      retryLoop w config fuel attempt lastErr startTime script timeout st = (r, st')
      /\ Error r = None
      /\ Output r = TrimSpace (stdout (runner w (attempts st + j) (ExecPath config) script timeout))
      /\ RetryCount r = attempt + Z.of_nat j
      /\ attempts st' = (attempts st + S j)%nat.
Proof.
  intros Hnc. induction j as [|j IH]; intros fuel attempt lastErr st Hfuel Hfail Hok.
  - destruct fuel as [|fuel]; [lia|]. simpl retryLoop. unfold bind at 1.
    destruct (retry_wait_never attempt st Hnc) as (st1 & -> & Ha & Hc).
    unfold bind at 1. rewrite Nat.add_0_r in Hok. rewrite <- Ha in Hok.
    rewrite (executeOnce_ok _ _ _ Hok). simpl.
    unfold bind, Since, Now, ret; simpl.
    eexists _, _. split; [reflexivity|]. simpl. rewrite Ha.
    repeat split; try reflexivity; try lia. now rewrite Nat.add_0_r.
  - destruct fuel as [|fuel]; [lia|]. simpl retryLoop. unfold bind at 1.
    destruct (retry_wait_never attempt st Hnc) as (st1 & -> & Ha & Hc).
    unfold bind at 1.
    assert (Hf0 : runOK (runner w (attempts st1) (ExecPath config) script timeout) = false).
    { rewrite Ha. rewrite <- (Nat.add_0_r (attempts st)). apply Hfail. lia. }
    destruct (executeOnce_fail _ _ _ Hf0) as (d & st2 & -> & Hcode & Ha2 & Hc2 & _).
    simpl. destruct (executor_codes_not_permanent d Hcode) as [-> _].
    unfold bind at 1. rewrite ctxErr_never by assumption.
    destruct (IH fuel (attempt + 1) (Some (EDomain d))
                {| clockReads := clockReads st2; ctxReads := S (ctxReads st2);
                   attempts := attempts st2 |}) as (r & st' & Hrun & He & Ho & Hr & Hat).
    + lia.
    + intros i Hi. simpl. rewrite Ha2, Ha.
      replace (S (attempts st) + i)%nat with (attempts st + S i)%nat by lia.
      apply Hfail. lia.
    + simpl. rewrite Ha2, Ha.
      replace (S (attempts st) + j)%nat with (attempts st + S j)%nat by lia. exact Hok.
    + exists r, st'. split; [exact Hrun|]. simpl in *. rewrite Ha2, Ha in *.
      replace (S (attempts st) + j)%nat with (attempts st + S j)%nat in * by lia.
      repeat split; auto; lia.
Qed.

Definition exhaustedMessage : string :=
  "AppleScript execution failed after "
    +:+ Itoa (wrap (MaxRetries config + 1)) +:+ " attempts".

Lemma retryLoop_exhausted script timeout startTime :
  neverCancelled w ->
  forall fuel attempt lastErr st,
    (forall i, (i < fuel)%nat ->
       runOK (runner w (attempts st + i) (ExecPath config) script timeout) = false) ->
    exists r st' cause,
      retryLoop w config fuel attempt lastErr startTime script timeout st = (r, st')
      /\ attempts st' = (attempts st + fuel)%nat
      /\ RetryCount r = MaxRetries config
      /\ Error r = Some (EDomain (NewDomainErrorWithCause ErrOperationFailed
                                    exhaustedMessage cause))
      /\ match fuel with
         | O => cause = lastErr
         | S k =>
             exists stl e,
               attempts stl = (attempts st + k)%nat
               /\ Error (fst (executeOnce w config script timeout stl)) = Some e
               /\ cause = Some e
         end.
Proof.
  intros Hnc. induction fuel as [|fuel IH]; intros attempt lastErr st Hfail.
  - simpl. unfold bind, Since, Now, ret, bind; simpl.
    eexists _, _, _. split; [reflexivity|]. simpl. repeat split; auto; lia.
  - simpl retryLoop. unfold bind at 1.
    destruct (retry_wait_never attempt st Hnc) as (st1 & -> & Ha & Hc).
    unfold bind at 1.
    assert (Hf0 : runOK (runner w (attempts st1) (ExecPath config) script timeout) = false).
    { rewrite Ha. rewrite <- (Nat.add_0_r (attempts st)). apply Hfail. lia. }
    destruct (executeOnce_fail _ _ _ Hf0) as (d & st2 & Hex & Hcode & Ha2 & Hc2 & _).
    rewrite Hex.
    simpl. destruct (executor_codes_not_permanent d Hcode) as [-> _].
    unfold bind at 1. rewrite ctxErr_never by assumption.
    destruct (IH (attempt + 1) (Some (EDomain d))
                {| clockReads := clockReads st2; ctxReads := S (ctxReads st2);
                   attempts := attempts st2 |}) as (r & st' & cause & Hrun & Hat & Hr & He & Hcause).
    { intros i Hi. simpl. rewrite Ha2, Ha.
      replace (S (attempts st) + i)%nat with (attempts st + S i)%nat by lia.
      apply Hfail. lia. }
    exists r, st', cause. split; [exact Hrun|]. simpl in Hat.
    rewrite Ha2, Ha in Hat.
    split; [lia|]. split; [exact Hr|]. split; [exact He|].
    destruct fuel as [|k].
    + exists st1, (EDomain d). rewrite Hex. simpl. split; [lia|]. split; [reflexivity|].
      exact Hcause.
    + destruct Hcause as (stl & e & Hal & Hel & Hc'). exists stl, e.
      simpl in Hal. rewrite Ha2, Ha in Hal. split; [lia|]. split; assumption.
Qed.

(** The wait before an attempt touches neither the clock nor the runner. *)
Lemma retry_wait_frame (attempt : Z) st :
  exists c st1,
    (if 0 <? attempt then ctxErr w else ret None) st = (c, st1)
    /\ attempts st1 = attempts st /\ clockReads st1 = clockReads st.
Proof.
  destruct (0 <? attempt); eexists _, _; (split; [reflexivity|]); simpl; auto.
Qed.

(** What every result of the loop looks like, whatever the world does. *)
Definition terminalShape (script : string) (timeout startTime : Z)
    (st : St) (r : ExecuteResult) (st' : St) : Prop :=
  (clockReads st < clockReads st')%nat
  /\ Duration r = clock w (pred (clockReads st')) - startTime
  /\ match Error r with
     | None =>
         (attempts st < attempts st')%nat
         /\ runOK (runner w (pred (attempts st')) (ExecPath config) script timeout) = true
         /\ Output r =
              TrimSpace (stdout (runner w (pred (attempts st')) (ExecPath config) script timeout))
     | Some e =>
         exists d, e = EDomain d
                   /\ (Code d = ErrOperationFailed \/ Code d = ErrTimeout)
     end.

Lemma retryLoop_shape script timeout startTime :
  forall fuel attempt lastErr st,
    let '(r, st') :=
      retryLoop w config fuel attempt lastErr startTime script timeout st in
    terminalShape script timeout startTime st r st'.
Proof.
  induction fuel as [|fuel IH]; intros attempt lastErr st.
  - simpl. unfold bind, Since, Now, ret, bind, terminalShape; simpl.
    split; [lia|]. split; [reflexivity|]. eexists; split; [reflexivity|]. simpl; auto.
  - simpl retryLoop. unfold bind at 1.
    destruct (retry_wait_frame attempt st) as (c & st1 & -> & Ha & Hc).
    destruct c as [ce|].
    { unfold bind, Since, Now, ret, terminalShape; simpl.
      split; [lia|]. split; [reflexivity|]. eexists; split; [reflexivity|]. simpl; auto. }
    unfold bind at 1.
    destruct (runOK (runner w (attempts st1) (ExecPath config) script timeout)) eqn:Hrun.
    + rewrite (executeOnce_ok _ _ _ Hrun). simpl.
      unfold bind, Since, Now, ret, terminalShape; simpl.
      split; [lia|]. split; [reflexivity|]. split; [lia|]. split; [exact Hrun|reflexivity].
    + destruct (executeOnce_fail _ _ _ Hrun) as (d & st2 & Hex & Hcode & Ha2 & Hc2 & _).
      rewrite Hex. simpl. destruct (executor_codes_not_permanent d Hcode) as [-> _].
      unfold bind at 1. unfold ctxErr at 1.
      destruct (ctxObs w (ctxReads st2)) as [ce|].
      * unfold bind, Since, Now, ret, terminalShape; simpl.
        split; [lia|]. split; [reflexivity|]. eexists; split; [reflexivity|]. simpl; auto.
      * specialize (IH (attempt + 1) (Some (EDomain d))
                       {| clockReads := clockReads st2; ctxReads := S (ctxReads st2);
                          attempts := attempts st2 |}).
        destruct (retryLoop w config fuel (attempt + 1) (Some (EDomain d)) startTime
                    script timeout _) as [r st'].
        destruct IH as (H1 & H2 & H3). simpl in H1.
        split; [lia|]. split; [exact H2|].
        destruct (Error r); [exact H3|].
        destruct H3 as (H3 & H4). simpl in H3. split; [lia|exact H4].
Qed.
End ExecutorFacts.

Section ExecutorClaims.
Variable w : World.
Variable config : ExecutorConfig.

(** Whatever [executeOnce] returns as an error is retryable and not
    permanent: its codes are operation-failed and timeout only. *)
Lemma failed_attempt_is_retryable script timeout st e :
  Error (fst (executeOnce w config script timeout st)) = Some e ->
  IsRetryable e = true /\ IsPermanent e = false.
Proof.
  intros He.
  destruct (runOK (runner w (attempts st) (ExecPath config) script timeout)) eqn:Hrun.
  - rewrite (executeOnce_ok _ _ _ _ _ Hrun) in He. discriminate.
  - destruct (executeOnce_fail _ _ _ _ _ Hrun) as (d & st2 & Hex & Hcode & _).
    rewrite Hex in He. simpl in He. injection He as <-.
    destruct (executor_codes_not_permanent d Hcode). auto.
Qed.

(** C1 (as the code has it).  For every [n] with [1 <= n <= MaxRetries + 1]:
    when the context is never cancelled, the first [n - 1] attempts fail
    (every failure of [executeOnce] is a retryable error, see
    [failed_attempt_is_retryable]) and attempt [n] succeeds, then
    [ExecuteWithTimeout] returns a result without error that carries the
    trimmed output of attempt [n]; exactly [n] attempts have been made,
    none after the successful one; and the reported [RetryCount] is
    [n - 1], the number of retries, not [n]. *)
Theorem retry_success_reports_retries script timeout (n : nat) :
  String.eqb (TrimSpace script) "" = false ->
  (1 <= n)%nat ->
  Z.of_nat n <= MaxRetries config + 1 ->
  neverCancelled w ->
  (forall k, (k < n - 1)%nat ->
     runOK (attemptRun w config script timeout k) = false) ->
  runOK (attemptRun w config script timeout (n - 1)) = true ->
  exists r st',
    ExecuteWithTimeout w config script timeout st0 = (r, st')
    /\ Error r = None
    /\ Output r = TrimSpace (stdout (attemptRun w config script timeout (n - 1)))
    /\ RetryCount r = Z.of_nat n - 1
    /\ attempts st' = n.
Proof.
  intros Hne Hn Hmax Hnc Hfail Hok.
  unfold ExecuteWithTimeout. rewrite Hne. unfold bind at 1, Now at 1.
  destruct (retryLoop_succeeds w config (TrimSpace script) timeout
              (clock w (clockReads st0)) Hnc (n - 1)
              (Z.to_nat (MaxRetries config + 1)) 0 None
              {| clockReads := S (clockReads st0); ctxReads := ctxReads st0;
                 attempts := attempts st0 |})
    as (r & st' & Hrun & He & Ho & Hr & Ha).
  - lia.
  - intros i Hi. apply Hfail. exact Hi.
  - exact Hok.
  - exists r, st'. split; [exact Hrun|]. simpl in *.
    repeat split; auto; lia.
Qed.

(** C2.  With [MaxRetries = 3], a context that is never cancelled and a
    runner whose every run fails (a retryable error each time),
    [ExecuteWithTimeout] makes exactly four attempts and returns an
    operation-failed error whose cause is the error of the fourth attempt
    and whose message gives the number of attempts made, 4. *)
Theorem retries_exhausted_after_four_attempts script timeout :
  MaxRetries config = 3 ->
  String.eqb (TrimSpace script) "" = false ->
  neverCancelled w ->
  (forall k, (k < 4)%nat -> runOK (attemptRun w config script timeout k) = false) ->
  exists r st' d,
    ExecuteWithTimeout w config script timeout st0 = (r, st')
    /\ attempts st' = 4%nat
    /\ Error r = Some (EDomain d)
    /\ Code d = ErrOperationFailed
    /\ Message d = "AppleScript execution failed after 4 attempts"
    /\ Contains (Message d) (Itoa (Z.of_nat (attempts st'))) = true
    /\ RetryCount r = 3
    /\ exists stl e,
         attempts stl = 3%nat
         /\ Error (fst (executeOnce w config (TrimSpace script) timeout stl)) = Some e
         /\ IsRetryable e = true
         /\ Cause d = Some e.
Proof.
  intros Hmax Hne Hnc Hfail.
  unfold ExecuteWithTimeout. rewrite Hne. unfold bind at 1, Now at 1.
  destruct (retryLoop_exhausted w config (TrimSpace script) timeout
              (clock w (clockReads st0)) Hnc
              (Z.to_nat (MaxRetries config + 1)) 0 None
              {| clockReads := S (clockReads st0); ctxReads := ctxReads st0;
                 attempts := attempts st0 |})
    as (r & st' & cause & Hrun & Ha & Hr & He & Hcause).
  - rewrite Hmax. change (Z.to_nat (3 + 1)) with 4%nat.
    intros i Hi. apply Hfail. exact Hi.
  - rewrite Hmax in *. simpl in Ha, Hcause.
    change (Z.to_nat (3 + 1)) with 4%nat in *.
    destruct Hcause as (stl & e & Hal & Hel & ->).
    exists r, st', (NewDomainErrorWithCause ErrOperationFailed
                      (exhaustedMessage config) (Some e)).
    split; [exact Hrun|]. split; [exact Ha|]. split; [exact He|].
    unfold exhaustedMessage. rewrite Hmax. rewrite Ha.
    split; [reflexivity|]. split; [reflexivity|]. split; [reflexivity|].
    split; [lia|]. exists stl, e. split; [exact Hal|]. split; [exact Hel|].
    split; [|reflexivity].
    apply (failed_attempt_is_retryable _ _ _ _ Hel).
Qed.

End ExecutorClaims.

(** ** One attempt: the error of a process that exits with a status *)

Section SingleAttempt.
Variable w : World.
Variable config : ExecutorConfig.

Lemma prefix_app (s t : string) : String.prefix s (s +:+ t) = true.
Proof.
  induction s as [|c s IH]; simpl.
  - destruct t; reflexivity.
  - destruct (ascii_dec c c); [exact IH | congruence].
Qed.

Lemma Contains_unfold (s t : string) :
  Contains s t =
    if String.prefix t s then true
    else match s with
         | EmptyString => false
         | String _ r => Contains r t
         end.
Proof. destruct s; reflexivity. Qed.

(** [strings.Contains] finds a text placed between two others. *)
Lemma Contains_middle (a b c : string) : Contains (a +:+ b +:+ c) b = true.
Proof.
  induction a as [|x a IH].
  - change (EmptyString +:+ b +:+ c) with (b +:+ c).
    rewrite Contains_unfold, prefix_app. reflexivity.
  - rewrite Contains_unfold.
    destruct (String.prefix b (String x a +:+ b +:+ c)); [reflexivity|].
    exact IH.
Qed.

(** C4 (as the code has it).  When the pipe, the start and the write
    succeed, [Wait] returns an exit status, the attempt's deadline has not
    passed and the caller's context is not cancelled, the error
    [executeOnce] produces follows the exit code: code 2 gives a timeout
    error; code 1 gives an operation-failed error whose message is the
    fixed text "AppleScript execution failed: " followed by the trimmed
    standard-error text; any other code gives an operation-failed error
    whose message contains the exit code and the trimmed standard-error
    text, and whose context map is empty: the code is recorded in the
    message, not in the context map. *)
Theorem exit_code_decides_error script timeout st (code : Z) :
  let p := runner w (attempts st) (ExecPath config) script timeout in
  stdinPipeErr p = None ->
  startErr p = None ->
  writeErr p = None ->
  waitStatus p = WaitExit code ->
  execCtxErr p <> Some DeadlineExceeded ->
  ctxObs w (ctxReads st) = None ->
  exists d,
    Error (fst (executeOnce w config script timeout st)) = Some (EDomain d)
    /\ Cause d = Some (EExit code)
    /\ (code = 2 -> Code d = ErrTimeout)
    /\ (code = 1 ->
        Code d = ErrOperationFailed
        /\ Message d = "AppleScript execution failed: " +:+ TrimSpace (stderr p))
    /\ (code <> 1 -> code <> 2 ->
        Code d = ErrOperationFailed
        /\ Message d = "AppleScript execution failed with exit code "
                         +:+ Itoa code +:+ ": " +:+ TrimSpace (stderr p)
        /\ Contains (Message d) (Itoa code) = true
        /\ Context d = ∅).
Proof.
  intros p Hpipe Hstart Hwrite Hwait Hdl Hctx.
  unfold executeOnce, bind, Now, Since, run, ret, ctxErr, bind; simpl.
  fold p. rewrite Hpipe, Hstart, Hwrite, Hwait. simpl.
  destruct (execCtxErr p) as [[|]|] eqn:Hec; try congruence; simpl;
    rewrite Hctx; simpl.
  all: destruct (code =? 1) eqn:H1; [apply Z.eqb_eq in H1|apply Z.eqb_neq in H1];
    [|destruct (code =? 2) eqn:H2; [apply Z.eqb_eq in H2|apply Z.eqb_neq in H2]];
    simpl; eexists; (split; [reflexivity|]); simpl;
    (split; [reflexivity|]);
    (split; [intros; try lia; try reflexivity|]);
    (split; [intros; try lia; split; try reflexivity; subst; reflexivity|]);
    intros; try lia; (split; [reflexivity|]); (split; [reflexivity|]);
    (split; [|reflexivity]);
    apply (Contains_middle "AppleScript execution failed with exit code "
             (Itoa code) (": " +:+ TrimSpace (stderr p))).
Qed.

End SingleAttempt.

(** ** Terminal results *)

Section TerminalResults.
Variable w : World.
Variable config : ExecutorConfig.

(** The result carries the elapsed time: the clock was read during the
    call and [Duration] is the last reading minus the first. *)
Definition timed (st : St) (r : ExecuteResult) (st' : St) : Prop :=
  (clockReads st < clockReads st')%nat
  /\ Duration r = clock w (pred (clockReads st')) - clock w (clockReads st).

(** The request was turned down before any attempt: nothing was read or
    run, and the result holds an error and zero values otherwise. *)
Definition rejected (st : St) (r : ExecuteResult) (st' : St) : Prop :=
  st' = st
  /\ Duration r = 0
  /\ RetryCount r = 0
  /\ Output r = ""
  /\ exists d, Error r = Some (EDomain d).

(** Which of output and error speaks for a result: without error the
    output is the trimmed standard output of the last run, which ended
    well; otherwise the error is a classified domain error. *)
Definition authoritative (script : string) (timeout : Z)
    (r : ExecuteResult) (st' : St) : Prop :=
  match Error r with
  | None =>
      (0 < attempts st')%nat
      /\ runOK (runner w (pred (attempts st')) (ExecPath config)
                  (TrimSpace script) timeout) = true
      /\ Output r =
           TrimSpace (stdout (runner w (pred (attempts st')) (ExecPath config)
                                (TrimSpace script) timeout))
  | Some e => exists d, e = EDomain d
  end.

Lemma ExecuteWithTimeout_terminal script timeout st :
  let '(r, st') := ExecuteWithTimeout w config script timeout st in
  authoritative script timeout r st'
  /\ if String.eqb (TrimSpace script) "" then rejected st r st'
     else timed st r st'.
Proof.
  unfold ExecuteWithTimeout.
  destruct (String.eqb (TrimSpace script) "") eqn:Hs.
  - unfold ret, authoritative, rejected; simpl.
    split; [eexists; reflexivity|]. repeat split; eauto.
  - unfold bind at 1, Now at 1.
    pose proof (retryLoop_shape w config (TrimSpace script) timeout
                  (clock w (clockReads st))
                  (Z.to_nat (MaxRetries config + 1)) 0 None
                  {| clockReads := S (clockReads st); ctxReads := ctxReads st;
                     attempts := attempts st |}) as H.
    destruct (retryLoop _ _ _ _ _ _ _ _ _) as [r st'].
    destruct H as (H1 & H2 & H3). simpl in H1.
    unfold authoritative, timed. split.
    + destruct (Error r) as [e|].
      * destruct H3 as (d & -> & _). eexists; reflexivity.
      * destruct H3 as (H3 & H4 & H5). simpl in H3. repeat split; auto; lia.
    + split; [lia | exact H2].
Qed.

(** The script [ExecuteTemplate] makes of a template's text: for each
    parameter in turn, every occurrence of its placeholder replaced by
    its value. *)
Definition filledTemplate (content : string) (params : list (string * GoValue))
  : string :=
  fold_left
    (fun script kv =>
       ReplaceAll script ("{{" +:+ fst kv +:+ "}}") (formatValue (snd kv)))
    params content.

(** C7 (as the code has it).  Every result of [ExecuteWithTimeout],
    [Execute] and [ExecuteTemplate] has either no error, and then its
    output is the trimmed standard output of a last attempt that ended
    well, or a classified domain error.  Its [Duration] is the time from
    the start of the sequence to its end whenever the request passed
    validation; a request turned down before any attempt (a script that
    is empty after trimming, a template that cannot be loaded) returns an
    error with [Duration] zero, without reading the clock.  For
    [ExecuteTemplate] the script is the text of the template with the
    parameters filled in. *)
Theorem terminal_result_shape :
  (forall script timeout st,
      let '(r, st') := ExecuteWithTimeout w config script timeout st in
      authoritative script timeout r st'
      /\ if String.eqb (TrimSpace script) "" then rejected st r st'
         else timed st r st')
  /\ (forall script st,
      let '(r, st') := Execute w config script st in
      authoritative script (DefaultTimeout config) r st'
      /\ if String.eqb (TrimSpace script) "" then rejected st r st'
         else timed st r st')
  /\ (forall templateName params st,
      let '(r, st') := ExecuteTemplate w config templateName params st in
      match LoadScript w templateName with
      | (_, Some _) => rejected st r st'
      | (content, None) =>
          let script := filledTemplate content params in
          authoritative script (DefaultTimeout config) r st'
          /\ if String.eqb (TrimSpace script) "" then rejected st r st'
             else timed st r st'
      end).
Proof.
  split; [exact ExecuteWithTimeout_terminal|].
  split; [intros; apply ExecuteWithTimeout_terminal|].
  intros templateName params st. unfold ExecuteTemplate.
  destruct (LoadScript w templateName) as [content [err|]].
  - unfold ret, rejected; simpl. repeat split; eauto.
  - unfold Execute, filledTemplate.
    apply (ExecuteWithTimeout_terminal
             (fold_left
                (fun script kv =>
                   ReplaceAll script ("{{" +:+ fst kv +:+ "}}")
                     (formatValue (snd kv))) params content)
             (DefaultTimeout config) st).
Qed.

End TerminalResults.

(** ** The executor on sample worlds *)

Lemma retry_success_reports_retries_witness :
  exists r st',
    ExecuteWithTimeout (flakyWorld 2) DefaultExecutorConfig "return 1" Second st0 = (r, st')
    /\ Error r = None
    /\ Output r = TrimSpace (stdout (attemptRun (flakyWorld 2) DefaultExecutorConfig
                                       "return 1" Second (3 - 1)))
    /\ RetryCount r = Z.of_nat 3 - 1
    /\ attempts st' = 3%nat.
Proof.
  apply (retry_success_reports_retries (flakyWorld 2) DefaultExecutorConfig
           "return 1" Second 3).
  - reflexivity.
  - lia.
  - simpl; lia.
  - intros k; reflexivity.
  - intros k Hk. destruct k as [|[|k]]; [reflexivity | reflexivity | simpl in Hk; lia].
  - reflexivity.
Defined.

(** Against C1 as stated: the first attempt fails, the second succeeds,
    two attempts are made, and the result reports 1, not 2. *)
Lemma retry_count_is_not_attempt_count :
  let w := flakyWorld 1 in
  let res := ExecuteWithTimeout w DefaultExecutorConfig "return 1" Second st0 in
  runOK (attemptRun w DefaultExecutorConfig "return 1" Second 0) = false
  /\ runOK (attemptRun w DefaultExecutorConfig "return 1" Second 1) = true
  /\ 2 <= MaxRetries DefaultExecutorConfig + 1
  /\ Error (fst res) = None
  /\ attempts (snd res) = 2%nat
  /\ RetryCount (fst res) = 1
  /\ RetryCount (fst res) <> 2.
Proof.
  vm_compute. repeat split; try reflexivity; discriminate.
Qed.

Lemma retries_exhausted_after_four_attempts_witness :
  exists r st' d,
    ExecuteWithTimeout (brokenWorld 1) DefaultExecutorConfig "return 1" Second st0 = (r, st')
    /\ attempts st' = 4%nat
    /\ Error r = Some (EDomain d)
    /\ Code d = ErrOperationFailed
    /\ Message d = "AppleScript execution failed after 4 attempts"
    /\ Contains (Message d) (Itoa (Z.of_nat (attempts st'))) = true
    /\ RetryCount r = 3
    /\ exists stl e,
         attempts stl = 3%nat
         /\ Error (fst (executeOnce (brokenWorld 1) DefaultExecutorConfig
                          (TrimSpace "return 1") Second stl)) = Some e
         /\ IsRetryable e = true
         /\ Cause d = Some e.
Proof.
  apply (retries_exhausted_after_four_attempts (brokenWorld 1) DefaultExecutorConfig
           "return 1" Second).
  - reflexivity.
  - reflexivity.
  - intros k; reflexivity.
  - intros k _; reflexivity.
Defined.

Lemma exit_code_decides_error_witness :
  exists d,
    Error (fst (executeOnce (brokenWorld 3) DefaultExecutorConfig "return 1" Second st0))
      = Some (EDomain d)
    /\ Cause d = Some (EExit 3)
    /\ (3 = 2 -> Code d = ErrTimeout)
    /\ (3 = 1 ->
        Code d = ErrOperationFailed
        /\ Message d = "AppleScript execution failed: "
                         +:+ TrimSpace (stderr (exitRun 3 "Music got an error")))
    /\ (3 <> 1 -> 3 <> 2 ->
        Code d = ErrOperationFailed
        /\ Message d = "AppleScript execution failed with exit code "
                         +:+ Itoa 3 +:+ ": "
                         +:+ TrimSpace (stderr (exitRun 3 "Music got an error"))
        /\ Contains (Message d) (Itoa 3) = true
        /\ Context d = ∅).
Proof.
  apply (exit_code_decides_error (brokenWorld 3) DefaultExecutorConfig
           "return 1" Second st0 3).
  - reflexivity.
  - reflexivity.
  - reflexivity.
  - reflexivity.
  - simpl; discriminate.
  - reflexivity.
Defined.

(** Against C4 as stated: a run that exits with status 3 gives an
    operation-failed error whose context map has no entry at all, so the
    exit code is not recorded in it. *)
Lemma exit_code_not_in_context :
  exists d,
    Error (fst (executeOnce (brokenWorld 3) DefaultExecutorConfig "return 1" Second st0))
      = Some (EDomain d)
    /\ Code d = ErrOperationFailed
    /\ Message d = "AppleScript execution failed with exit code 3: Music got an error"
    /\ ~ exists key v, GetContext d key = Some v.
Proof.
  exists (NewDomainErrorWithCause ErrOperationFailed
            "AppleScript execution failed with exit code 3: Music got an error"
            (Some (EExit 3))).
  split; [vm_compute; reflexivity|].
  split; [reflexivity|]. split; [reflexivity|].
  intros (key & v & H). unfold GetContext, NewDomainErrorWithCause, Context in H.
  rewrite lookup_empty in H. discriminate.
Qed.

(** Against C7 as stated: a script that is blank after trimming is turned
    down with [Duration] zero although the clock never stands still; the
    clock is not read at all. *)
Lemma rejected_request_has_no_duration :
  let w := flakyWorld 0 in
  let res := ExecuteWithTimeout w DefaultExecutorConfig "   " Second st0 in
  (forall k, clock w k < clock w (S k))
  /\ Duration (fst res) = 0
  /\ snd res = st0
  /\ ~ timed w st0 (fst res) (snd res).
Proof.
  split.
  - intros k. unfold flakyWorld, worldOf, tick, Millisecond; simpl. lia.
  - split; [reflexivity|]. split; [reflexivity|].
    intros [H _]. vm_compute in H. lia.
Qed.

(* ===================================================================== *)
(** * Properties of the error taxonomy and the value objects *)
(* ===================================================================== *)

Section Taxonomy.

(** The package-level queries agree: an error that is retryable is not
    permanent. *)
Lemma retryable_excludes_permanent (err : error) :
  IsRetryable err = true -> IsPermanent err = false.
Proof.
  destruct err as [c|e|code|msg|d]; simpl; try discriminate.
  - destruct c; simpl; intros H; try discriminate; reflexivity.
  - destruct d as [c m ca cx]. unfold IsRetryable, IsPermanent; simpl.
    destruct c; simpl; intros H; try discriminate; reflexivity.
Qed.

(** C3 (as the code has it).  For every domain error, retryable and
    permanent exclude each other, and they do not cover every code: the
    two not-found codes are neither.  Retryable are exactly timeout,
    player-not-available, library-not-available and operation-failed.
    Permanent are exactly permission-denied, playlist-read-only and five
    of the invalid-input codes: invalid track ID, invalid playlist ID,
    invalid volume, invalid position and invalid search query.  The
    other invalid-input codes (invalid track, invalid playlist, invalid
    player state, invalid repeat mode, invalid queue position, invalid
    operation) are neither. *)
Theorem classification_of_domain_errors (e : DomainError) :
  (DomainError_IsRetryable e && DomainError_IsPermanent e = false)
  /\ (DomainError_IsRetryable e = true <->
      In (Code e) [ErrTimeout; ErrPlayerNotAvailable; ErrLibraryNotAvailable;
                   ErrOperationFailed])
  /\ (DomainError_IsPermanent e = true <->
      In (Code e) [ErrPermissionDenied; ErrPlaylistReadOnly; ErrInvalidTrackID;
                   ErrInvalidPlaylistID; ErrInvalidVolume; ErrInvalidPosition;
                   ErrInvalidSearchQuery])
  /\ (In (Code e) [ErrTrackNotFound; ErrPlaylistNotFound] ->
      DomainError_IsRetryable e = false /\ DomainError_IsPermanent e = false)
  /\ (In (Code e) [ErrInvalidTrack; ErrInvalidPlaylist; ErrInvalidPlayerState;
                   ErrInvalidRepeatMode; ErrInvalidQueuePosition;
                   ErrInvalidOperation] ->
      DomainError_IsRetryable e = false /\ DomainError_IsPermanent e = false).
Proof.
  destruct e as [c m ca cx].
  unfold DomainError_IsRetryable, DomainError_IsPermanent; simpl.
  destruct c; simpl;
    (split; [reflexivity|]);
    (split; [split; [try discriminate; intros _; tauto
                    | intros H; try reflexivity;
                      repeat (destruct H as [H|H]; try discriminate H); tauto]|]);
    (split; [split; [try discriminate; intros _; tauto
                    | intros H; try reflexivity;
                      repeat (destruct H as [H|H]; try discriminate H); tauto]|]);
    (split; intros H; try (split; reflexivity);
       repeat (destruct H as [H|H]; try discriminate H); tauto).
Qed.

End Taxonomy.

Lemma classification_of_domain_errors_witness :
  DomainError_IsRetryable (NewDomainError ErrTrackNotFound "track not found") = false
  /\ DomainError_IsPermanent (NewDomainError ErrTrackNotFound "track not found") = false.
Proof.
  apply (proj1 (proj2 (proj2 (proj2
           (classification_of_domain_errors
              (NewDomainError ErrTrackNotFound "track not found")))))).
  simpl. left. reflexivity.
Defined.

(** Against C3 as stated: two invalid-input errors the code itself builds,
    the invalid repeat mode of [SetRepeat] and the empty script of
    [ExecuteWithTimeout], are not classified permanent. *)
Lemma invalid_input_not_always_permanent :
  DomainError_IsPermanent (NewDomainError ErrInvalidRepeatMode "invalid repeat mode") = false
  /\ DomainError_IsPermanent
       (NewDomainError ErrInvalidOperation "AppleScript cannot be empty") = false
  /\ IsPermanent (EDomain (NewDomainError ErrInvalidRepeatMode "invalid repeat mode")) = false.
Proof. repeat split. Qed.

Section Values.

Lemma wrap_range (z : Z) : minInt <= wrap z <= maxInt.
Proof.
  unfold wrap, minInt, maxInt.
  pose proof (Z.mod_pos_bound (z + 2 ^ 63) (2 ^ 64) ltac:(lia)). lia.
Qed.

Lemma wrap_id (z : Z) : minInt <= z <= maxInt -> wrap z = z.
Proof.
  unfold wrap, minInt, maxInt. intros H.
  rewrite Z.mod_small by lia. lia.
Qed.

Lemma NewDuration_nonneg (secs : Z) : 0 <= Seconds (NewDuration secs).
Proof.
  unfold NewDuration, Seconds; simpl.
  destruct (secs <? 0) eqn:H; [lia | apply Z.ltb_ge in H; exact H].
Qed.

(** C10.  Every [Duration] the package hands out is non-negative:
    [NewDuration] turns a negative number of seconds into 0 (it does not
    reject it), [Subtract] stops at 0, and so [Seconds] is at least 0 for
    the result of every constructor and operation. *)
Theorem duration_never_negative :
  (forall d, Produced d -> 0 <= Seconds d)
  /\ (forall secs, secs < 0 -> NewDuration secs = {| seconds := 0 |})
  /\ (forall secs, 0 <= secs -> NewDuration secs = {| seconds := secs |})
  /\ (forall d other,
        0 <= Seconds d <= maxInt -> 0 <= Seconds other <= maxInt ->
        Seconds (Subtract d other) = Z.max 0 (Seconds d - Seconds other)).
Proof.
  split; [|split; [|split]].
  - intros d H. induction H.
    + unfold Seconds; simpl; lia.
    + apply NewDuration_nonneg.
    + apply NewDuration_nonneg.
    + apply NewDuration_nonneg.
    + apply NewDuration_nonneg.
  - intros secs H. unfold NewDuration.
    destruct (secs <? 0) eqn:E; [reflexivity | apply Z.ltb_ge in E; lia].
  - intros secs H. unfold NewDuration.
    destruct (secs <? 0) eqn:E; [apply Z.ltb_lt in E; lia | reflexivity].
  - intros d other Hd Ho. unfold Subtract, Seconds in *.
    rewrite wrap_id by (unfold minInt, maxInt in *; lia).
    unfold NewDuration; simpl.
    destruct (seconds d - seconds other <? 0) eqn:E; simpl.
    + apply Z.ltb_lt in E. lia.
    + apply Z.ltb_ge in E. destruct (seconds d - seconds other <? 0) eqn:E2;
        [apply Z.ltb_lt in E2|]; lia.
Qed.

End Values.

Lemma duration_never_negative_witness :
  0 <= Seconds (Subtract (NewDuration 5) (Add (NewDuration (-3)) (NewDurationFromTime (9 * 1000000000)))).
Proof.
  apply (proj1 duration_never_negative).
  apply Produced_Subtract.
  - apply Produced_NewDuration. reflexivity.
  - apply Produced_Add.
    + apply Produced_NewDuration. reflexivity.
    + apply Produced_NewDurationFromTime. reflexivity.
Defined.

(* ===================================================================== *)
(** * Properties of the decoders *)
(* ===================================================================== *)

Section Decimal.

Lemma digit_byte (u : Z) : 0 <= u < 10 -> byte_of (digit u) = 48 + u.
Proof.
  intros H.
  assert (E : u = 0 \/ u = 1 \/ u = 2 \/ u = 3 \/ u = 4 \/ u = 5 \/ u = 6
              \/ u = 7 \/ u = 8 \/ u = 9) by lia.
  repeat (destruct E as [-> | E]; [reflexivity|]). subst; reflexivity.
Qed.

Lemma digit_isDigit (u : Z) : 0 <= u < 10 -> isDigit (digit u) = true.
Proof.
  intros H. unfold isDigit. rewrite digit_byte by assumption.
  apply andb_true_intro; split; apply Z.leb_le; lia.
Qed.

Lemma digitsValue_digit (u : Z) (acc : string) (n : Z) :
  0 <= u < 10 ->
  digitsValue (String (digit u) acc) n = digitsValue acc (n * 10 + u).
Proof.
  intros H. simpl. rewrite digit_isDigit, digit_byte by assumption.
  f_equal. lia.
Qed.

Lemma formatBits_step (fuel : nat) (u : Z) (acc : string) :
  formatBits (S fuel) u acc =
    if u <? 10 then String (digit u) acc
    else formatBits fuel (u / 10) (String (digit (u mod 10)) acc).
Proof. reflexivity. Qed.

(** The digits [formatBits] writes in front of [acc] read back as [u]. *)
Lemma formatBits_value (fuel : nat) :
  forall u acc,
    0 <= u < 10 ^ Z.of_nat (S fuel) ->
    exists k,
      0 < k
      /\ forall n, digitsValue (formatBits (S fuel) u acc) n
                   = digitsValue acc (n * 10 ^ k + u).
Proof.
  induction fuel as [|fuel IH]; intros u acc Hu; rewrite formatBits_step.
  - change (10 ^ Z.of_nat 1) with 10 in Hu.
    destruct (u <? 10) eqn:E; [|apply Z.ltb_ge in E; lia].
    exists 1. split; [lia|]. intros n.
    rewrite digitsValue_digit by lia. f_equal.
  - destruct (u <? 10) eqn:E.
    + apply Z.ltb_lt in E. exists 1. split; [lia|]. intros n.
      rewrite digitsValue_digit by lia. f_equal.
    + apply Z.ltb_ge in E.
      destruct (IH (u / 10) (String (digit (u mod 10)) acc)) as (k & Hk & Hv).
      { split; [apply Z.div_pos; lia|].
        apply Z.div_lt_upper_bound; [lia|].
        rewrite (Nat2Z.inj_succ (S fuel)), Z.pow_succ_r in Hu by lia. lia. }
      exists (k + 1). split; [lia|]. intros n. rewrite Hv.
      rewrite digitsValue_digit by (apply Z.mod_pos_bound; lia).
      f_equal. rewrite Z.pow_add_r by lia.
      pose proof (Z.div_mod u 10 ltac:(lia)). lia.
Qed.

(** What [formatBits] writes starts with a digit. *)
Lemma formatBits_head (fuel : nat) :
  forall u acc,
    0 <= u ->
    (exists c r, formatBits (S fuel) u acc = String c r /\ isDigit c = true).
Proof.
  induction fuel as [|fuel IH]; intros u acc Hu.
  - simpl. destruct (u <? 10) eqn:E.
    + apply Z.ltb_lt in E. eexists _, _. split; [reflexivity|].
      apply digit_isDigit; lia.
    + eexists _, _. split; [reflexivity|].
      apply digit_isDigit. apply Z.mod_pos_bound; lia.
  - change (formatBits (S (S fuel)) u acc)
      with (if u <? 10 then String (digit u) acc
            else formatBits (S fuel) (u / 10) (String (digit (u mod 10)) acc)).
    destruct (u <? 10) eqn:E.
    + apply Z.ltb_lt in E. eexists _, _. split; [reflexivity|].
      apply digit_isDigit; lia.
    + apply IH. apply Z.div_pos; lia.
Qed.

Lemma Atoi_digits (c : ascii) (r : string) :
  isDigit c = true ->
  Atoi (String c r) =
    match digitsValue (String c r) 0 with
    | None => None
    | Some n => if inInt n then Some n else None
    end.
Proof.
  intros H.
  destruct c as [[|] [|] [|] [|] [|] [|] [|] [|]]; try discriminate H; reflexivity.
Qed.

(** [strconv.Atoi] reads back what [strconv.Itoa] writes, for every
    64-bit integer. *)
Lemma Atoi_Itoa (v : Z) : inInt v = true -> Atoi (Itoa v) = Some v.
Proof.
  intros Hin. assert (Hin' := Hin).
  unfold inInt, minInt, maxInt in Hin'.
  apply andb_prop in Hin' as [H1 H2].
  apply Z.leb_le in H1. apply Z.leb_le in H2.
  unfold Itoa. destruct (v <? 0) eqn:E.
  - apply Z.ltb_lt in E.
    destruct (formatBits_value 19 (- v) EmptyString) as (k & Hk & Hv).
    { change (10 ^ Z.of_nat 20) with 100000000000000000000. lia. }
    destruct (formatBits_head 19 (- v) EmptyString) as (c & r & Hs & Hc); [lia|].
    unfold Atoi. rewrite Hs. rewrite <- Hs. rewrite Hv. simpl digitsValue.
    replace (0 * 10 ^ k + - v) with (- v) by lia.
    replace (- - v) with v by lia. rewrite Hin. reflexivity.
  - apply Z.ltb_ge in E.
    destruct (formatBits_value 19 v EmptyString) as (k & Hk & Hv).
    { change (10 ^ Z.of_nat 20) with 100000000000000000000. lia. }
    destruct (formatBits_head 19 v EmptyString) as (c & r & Hs & Hc); [lia|].
    rewrite Hs. rewrite (Atoi_digits c r Hc). rewrite <- Hs. rewrite Hv.
    simpl digitsValue. replace (0 * 10 ^ k + v) with v by lia.
    rewrite Hin. reflexivity.
Qed.

End Decimal.

Section DecoderClaims.
Variable unicodeLower : string -> string.
Variable parseFloatInt : string -> option Z.

Local Abbreviation parsePlayerState := (parsePlayerState unicodeLower parseFloatInt).
Local Abbreviation parseTrack := (parseTrack parseFloatInt).
Local Abbreviation ToLower := (ToLower unicodeLower).

(** The position field decodes: it is the "missing value" marker, or
    empty, or a number. *)
Definition validPosition (p : string) : Prop :=
  p = "missing value" \/ p = "" \/ parseFloatInt p <> None.

(** On a string of ASCII bytes [strings.ToLower] lowers each byte. *)
Lemma mapBytes_lower_id (s : string) :
  hasUpper s = false -> mapBytes lowerByte s = s.
Proof.
  unfold hasUpper. induction s as [|c s IH]; simpl; [reflexivity|].
  intros H. apply orb_false_elim in H as [Hc Hs].
  unfold lowerByte. rewrite Hc. f_equal. apply IH. exact Hs.
Qed.

Lemma ToLower_ascii (s : string) :
  isASCII s = true -> ToLower s = mapBytes lowerByte s.
Proof.
  intros H. unfold GoStr.ToLower. rewrite H.
  destruct (hasUpper s) eqn:E; simpl; [reflexivity|].
  symmetry. apply mapBytes_lower_id. exact E.
Qed.

(** The player a six-field line with good numbers decodes to. *)
Lemma parsePlayerState_six now output p0 p1 p2 p3 p4 p5 v :
  Split (TrimSpace output) "|" = [p0; p1; p2; p3; p4; p5] ->
  Atoi p1 = Some v ->
  validPosition p2 ->
  exists position,
    parsePlayerState now output =
      (Some {| State :=
                 if String.eqb (ToLower p0) "stopped" then PlayerStateStopped
                 else if String.eqb (ToLower p0) "playing" then PlayerStatePlaying
                 else if String.eqb (ToLower p0) "paused" then PlayerStatePaused
                 else PlayerStateStopped;
               CurrentTrack :=
                 if negb (String.eqb p5 "") then Some (NewTrackID p5) else None;
               Position := position;
               Player_Volume := NewVolume v;
               Shuffle := String.eqb (ToLower p3) "true";
               Repeat :=
                 if String.eqb (ToLower p4) "off" then RepeatModeOff
                 else if String.eqb (ToLower p4) "all" then RepeatModeAll
                 else if String.eqb (ToLower p4) "one" then RepeatModeOne
                 else RepeatModeOff;
               LastUpdated := now |}, None).
Proof.
  intros Hs Hv Hp. unfold AppleScript.parsePlayerState. rewrite Hs.
  cbn [length Nat.eqb negb part nth]. rewrite Hv.
  destruct Hp as [-> | [-> | Hp]].
  - eexists; reflexivity.
  - eexists; reflexivity.
  - destruct (String.eqb p2 "missing value" || String.eqb p2 "");
      [eexists; reflexivity|].
    destruct (parseFloatInt p2); [eexists; reflexivity | congruence].
Qed.

(** C5 (as the code has it).  When the trimmed text does not split into
    exactly six fields, [parsePlayerState] returns no player and an
    operation-failed error with the fixed message "invalid player state
    format"; when it does not split into exactly five, [parseTrack]
    returns no track and an operation-failed error with the fixed
    message "invalid track format".  The messages do not name the
    expected or the actual number of fields.  Neither decoder ever
    returns a value together with an error, or neither. *)
Theorem field_count_mismatch_is_rejected now output :
  (length (Split (TrimSpace output) "|") <> 6%nat ->
     parsePlayerState now output =
       (None, Some (EDomain (NewDomainError ErrOperationFailed
                               "invalid player state format"))))
  /\ (length (Split (TrimSpace output) "|") <> 5%nat ->
     parseTrack output =
       (None, Some (EDomain (NewDomainError ErrOperationFailed
                               "invalid track format"))))
  /\ (match parsePlayerState now output with
      | (Some _, None) | (None, Some _) => True
      | _ => False
      end)
  /\ (match parseTrack output with
      | (Some _, None) | (None, Some _) => True
      | _ => False
      end).
Proof.
  split; [|split; [|split]].
  - intros H. unfold AppleScript.parsePlayerState.
    destruct (length (Split (TrimSpace output) "|") =? 6)%nat eqn:E;
      [apply Nat.eqb_eq in E; contradiction | reflexivity].
  - intros H. unfold AppleScript.parseTrack.
    destruct (length (Split (TrimSpace output) "|") =? 5)%nat eqn:E;
      [apply Nat.eqb_eq in E; contradiction | reflexivity].
  - unfold AppleScript.parsePlayerState.
    destruct (negb _); [exact I|].
    destruct (Atoi _); [|exact I].
    destruct (_ || _); [exact I|].
    destruct (parseFloatInt _); exact I.
  - unfold AppleScript.parseTrack.
    destruct (negb _); [exact I|].
    destruct (parseFloatInt _); [|exact I].
    unfold NewTrack.
    repeat match goal with
           | |- context [if ?b then _ else _] => destruct b
           end; exact I.
Qed.

(** C6 (as the code has it).  For a six-field line whose volume and
    position decode, decoding succeeds whatever the state and repeat
    fields hold.  The state field, lowered by [strings.ToLower], gives
    stopped for "stopped", playing for "playing", paused for "paused",
    and stopped for every other text, "buffering" included: no line
    decodes to the buffering state.  The repeat field gives off for
    "off", all for "all", one for "one", and off for every other text.
    On a field of ASCII bytes the lowering is that of each letter, so the
    match ignores case. *)
Theorem state_and_repeat_fall_back now output p0 p1 p2 p3 p4 p5 v :
  Split (TrimSpace output) "|" = [p0; p1; p2; p3; p4; p5] ->
  Atoi p1 = Some v ->
  validPosition p2 ->
  exists player,
    parsePlayerState now output = (Some player, None)
    /\ (ToLower p0 = "stopped" -> State player = PlayerStateStopped)
    /\ (ToLower p0 = "playing" -> State player = PlayerStatePlaying)
    /\ (ToLower p0 = "paused" -> State player = PlayerStatePaused)
    /\ (ToLower p0 <> "playing" -> ToLower p0 <> "paused" ->
        State player = PlayerStateStopped)
    /\ State player <> PlayerStateBuffering
    /\ (ToLower p4 = "off" -> Repeat player = RepeatModeOff)
    /\ (ToLower p4 = "all" -> Repeat player = RepeatModeAll)
    /\ (ToLower p4 = "one" -> Repeat player = RepeatModeOne)
    /\ (ToLower p4 <> "all" -> ToLower p4 <> "one" ->
        Repeat player = RepeatModeOff)
    /\ (isASCII p0 = true -> ToLower p0 = mapBytes lowerByte p0)
    /\ (isASCII p4 = true -> ToLower p4 = mapBytes lowerByte p4).
Proof.
  intros Hs Hv Hp.
  destruct (parsePlayerState_six now output p0 p1 p2 p3 p4 p5 v Hs Hv Hp)
    as (position & ->).
  eexists. split; [reflexivity|]. cbn [State Repeat].
  repeat split; try apply ToLower_ascii.
  - intros ->. reflexivity.
  - intros ->. reflexivity.
  - intros ->. reflexivity.
  - intros H1 H2.
    destruct (String.eqb_spec (ToLower p0) "stopped"); [reflexivity|].
    destruct (String.eqb_spec (ToLower p0) "playing"); [contradiction|].
    destruct (String.eqb_spec (ToLower p0) "paused"); [contradiction|reflexivity].
  - destruct (String.eqb (ToLower p0) "stopped"); [discriminate|].
    destruct (String.eqb (ToLower p0) "playing"); [discriminate|].
    destruct (String.eqb (ToLower p0) "paused"); discriminate.
  - intros ->. reflexivity.
  - intros ->. reflexivity.
  - intros ->. reflexivity.
  - intros H1 H2.
    destruct (String.eqb_spec (ToLower p4) "off"); [reflexivity|].
    destruct (String.eqb_spec (ToLower p4) "all"); [contradiction|].
    destruct (String.eqb_spec (ToLower p4) "one"); [contradiction|reflexivity].
Qed.

(** The words of the claim, "the field case-insensitively equals true":
    four bytes, a t, an r, a u and an e, each in either case. *)
Definition eitherCase (lower upper c : ascii) : bool :=
  Ascii.eqb c lower || Ascii.eqb c upper.

Definition equalsTrueIgnoringCase (s : string) : bool :=
  match s with
  | String a (String b (String c (String d EmptyString))) =>
      eitherCase "t" "T" a && eitherCase "r" "R" b
      && eitherCase "u" "U" c && eitherCase "e" "E" d
  | _ => false
  end.

(** Lowering a byte gives one of the letters of "true" exactly for that
    letter in either case. *)
Lemma lowerByte_true_letters (c : ascii) :
  Ascii.eqb (lowerByte c) "t" = eitherCase "t" "T" c
  /\ Ascii.eqb (lowerByte c) "r" = eitherCase "r" "R" c
  /\ Ascii.eqb (lowerByte c) "u" = eitherCase "u" "U" c
  /\ Ascii.eqb (lowerByte c) "e" = eitherCase "e" "E" c.
Proof.
  destruct c as [[] [] [] [] [] [] [] []]; vm_compute; repeat split.
Qed.

Lemma lowered_is_true (s : string) :
  String.eqb (mapBytes lowerByte s) "true" = equalsTrueIgnoringCase s.
Proof.
  destruct s as [|a [|b [|c [|d [|e s]]]]]; try reflexivity.
  - simpl. destruct (Ascii.eqb (lowerByte a) "t"); reflexivity.
  - simpl. destruct (Ascii.eqb (lowerByte a) "t"); [|reflexivity].
    destruct (Ascii.eqb (lowerByte b) "r"); reflexivity.
  - simpl. destruct (Ascii.eqb (lowerByte a) "t"); [|reflexivity].
    destruct (Ascii.eqb (lowerByte b) "r"); [|reflexivity].
    destruct (Ascii.eqb (lowerByte c) "u"); reflexivity.
  - cbn [mapBytes String.eqb equalsTrueIgnoringCase].
    destruct (lowerByte_true_letters a) as (-> & _).
    destruct (lowerByte_true_letters b) as (_ & -> & _).
    destruct (lowerByte_true_letters c) as (_ & _ & -> & _).
    destruct (lowerByte_true_letters d) as (_ & _ & _ & ->).
    destruct (eitherCase "t" "T" a), (eitherCase "r" "R" b),
      (eitherCase "u" "U" c), (eitherCase "e" "E" d); reflexivity.
  - cbn [mapBytes String.eqb equalsTrueIgnoringCase].
    destruct (Ascii.eqb (lowerByte a) "t"); [|reflexivity].
    destruct (Ascii.eqb (lowerByte b) "r"); [|reflexivity].
    destruct (Ascii.eqb (lowerByte c) "u"); [|reflexivity].
    destruct (Ascii.eqb (lowerByte d) "e"); reflexivity.
Qed.

(** C9.  Decoding the shuffle field never fails: for a six-field line
    whose volume and position decode, decoding succeeds whatever the
    shuffle field holds.  For a field of ASCII bytes the flag is true
    exactly when the field is "true" written in any mix of upper and
    lower case ("true", "TRUE", "True", ...), and false for every other
    text.  For a field with bytes outside ASCII the flag is true exactly
    when [strings.ToLower] of the field is "true". *)
Theorem shuffle_never_fails now output p0 p1 p2 p3 p4 p5 v :
  Split (TrimSpace output) "|" = [p0; p1; p2; p3; p4; p5] ->
  Atoi p1 = Some v ->
  validPosition p2 ->
  exists player,
    parsePlayerState now output = (Some player, None)
    /\ (isASCII p3 = true -> Shuffle player = equalsTrueIgnoringCase p3)
    /\ (Shuffle player = true <-> ToLower p3 = "true")
    /\ (Shuffle player = false <-> ToLower p3 <> "true").
Proof.
  intros Hs Hv Hp.
  destruct (parsePlayerState_six now output p0 p1 p2 p3 p4 p5 v Hs Hv Hp)
    as (position & ->).
  eexists. split; [reflexivity|]. cbn [Shuffle].
  split; [|split; [apply String.eqb_eq | apply String.eqb_neq]].
  intros Ha. rewrite (ToLower_ascii p3 Ha). apply lowered_is_true.
Qed.

(** C8.  [NewVolume] turns every level below 0 into 0 and every level
    above 100 into 100, and keeps a level from 0 to 100.  For such a
    level, its text on the wire, the decimal digits of [Level] as
    [SetVolume] writes them with [%d], reads back through
    [strconv.Atoi] and [NewVolume] as the same level, also as the second
    field of a player-state line. *)
Theorem volume_clamps_and_round_trips (lvl : Z) :
  (lvl < 0 -> Level (NewVolume lvl) = 0)
  /\ (100 < lvl -> Level (NewVolume lvl) = 100)
  /\ (0 <= lvl <= 100 ->
      Level (NewVolume lvl) = lvl
      /\ (exists n, Atoi (Itoa (Level (NewVolume lvl))) = Some n
                    /\ Level (NewVolume n) = lvl)
      /\ forall now output p0 p2 p3 p4 p5,
           Split (TrimSpace output) "|"
             = [p0; Itoa (Level (NewVolume lvl)); p2; p3; p4; p5] ->
           validPosition p2 ->
           exists player,
             parsePlayerState now output = (Some player, None)
             /\ Level (Player_Volume player) = lvl).
Proof.
  assert (Hlow : lvl < 0 -> Level (NewVolume lvl) = 0).
  { intros H. unfold NewVolume, Level; simpl.
    destruct (lvl <? 0) eqn:E; [reflexivity | apply Z.ltb_ge in E; lia]. }
  assert (Hhigh : 100 < lvl -> Level (NewVolume lvl) = 100).
  { intros H. unfold NewVolume, Level; simpl.
    destruct (lvl <? 0) eqn:E; [apply Z.ltb_lt in E; lia|].
    destruct (100 <? lvl) eqn:E2; [reflexivity | apply Z.ltb_ge in E2; lia]. }
  assert (Hmid : 0 <= lvl <= 100 -> Level (NewVolume lvl) = lvl).
  { intros H. unfold NewVolume, Level; simpl.
    destruct (lvl <? 0) eqn:E; [apply Z.ltb_lt in E; lia|].
    destruct (100 <? lvl) eqn:E2; [apply Z.ltb_lt in E2; lia | reflexivity]. }
  split; [exact Hlow|]. split; [exact Hhigh|].
  intros H. split; [exact (Hmid H)|].
  assert (Hrt : Atoi (Itoa (Level (NewVolume lvl))) = Some lvl).
  { rewrite (Hmid H). apply Atoi_Itoa. unfold inInt, minInt, maxInt.
    apply andb_true_intro; split; apply Z.leb_le; lia. }
  split; [exists lvl; split; [exact Hrt | exact (Hmid H)]|].
  intros now output p0 p2 p3 p4 p5 Hs Hp.
  destruct (parsePlayerState_six now output p0 _ p2 p3 p4 p5 lvl Hs Hrt Hp)
    as (position & ->).
  eexists. split; [reflexivity|]. cbn [Player_Volume]. exact (Hmid H).
Qed.

End DecoderClaims.

(** ** The decoders on sample lines *)

Lemma field_count_mismatch_is_rejected_witness :
  parsePlayerState sampleLower sampleParseFloatInt 0 "playing|75|120|true|off" =
    (None, Some (EDomain (NewDomainError ErrOperationFailed
                            "invalid player state format"))).
Proof.
  apply (proj1 (field_count_mismatch_is_rejected sampleLower sampleParseFloatInt
                  0 "playing|75|120|true|off")).
  vm_compute. discriminate.
Defined.

(** Against C5 as stated: a line of five fields where six are expected is
    rejected with a message that contains neither count, the same message
    a line of seven fields gets. *)
Lemma mismatch_message_names_no_count :
  exists d,
    snd (parsePlayerState sampleLower sampleParseFloatInt 0 "playing|75|120|true|off")
      = Some (EDomain d)
    /\ length (Split (TrimSpace "playing|75|120|true|off") "|") = 5%nat
    /\ Code d = ErrOperationFailed
    /\ Message d = "invalid player state format"
    /\ Contains (Message d) (Itoa 6) = false
    /\ Contains (Message d) (Itoa 5) = false
    /\ snd (parsePlayerState sampleLower sampleParseFloatInt 0
              "playing|75|120|true|off|42|extra") = Some (EDomain d).
Proof.
  exists (NewDomainError ErrOperationFailed "invalid player state format").
  repeat split; vm_compute; reflexivity.
Qed.

Lemma state_and_repeat_fall_back_witness :
  exists player,
    parsePlayerState sampleLower sampleParseFloatInt 0 "Playing|75|120|true|ONE|42"
      = (Some player, None)
    /\ State player = PlayerStatePlaying
    /\ Repeat player = RepeatModeOne.
Proof.
  destruct (state_and_repeat_fall_back sampleLower sampleParseFloatInt 0
              "Playing|75|120|true|ONE|42" "Playing" "75" "120" "true" "ONE" "42" 75)
    as (player & Hp & _ & Hplaying & _ & _ & _ & _ & _ & Hone & _ & _ & _).
  - reflexivity.
  - reflexivity.
  - right; right. vm_compute. discriminate.
  - exists player. split; [exact Hp|]. split; [apply Hplaying | apply Hone]; reflexivity.
Defined.

(** Against C6 as stated: the field "buffering" names a value of the
    enumeration, and the line decodes, but to the stopped state. *)
Lemma buffering_decodes_to_stopped :
  exists player,
    parsePlayerState sampleLower sampleParseFloatInt 0
      "buffering|50|missing value|false|off|" = (Some player, None)
    /\ ToLower sampleLower "buffering" = PlayerState_String PlayerStateBuffering
    /\ State player = PlayerStateStopped
    /\ State player <> PlayerStateBuffering.
Proof.
  eexists. split; [vm_compute; reflexivity|].
  split; [reflexivity|]. split; [reflexivity|discriminate].
Qed.

Lemma shuffle_never_fails_witness :
  (exists player,
     parsePlayerState sampleLower sampleParseFloatInt 0 "paused|20|3|TRUE|all|"
       = (Some player, None)
     /\ Shuffle player = true)
  /\ (exists player,
        parsePlayerState sampleLower sampleParseFloatInt 0 "paused|20|3|maybe|all|"
          = (Some player, None)
        /\ Shuffle player = false).
Proof.
  split.
  - destruct (shuffle_never_fails sampleLower sampleParseFloatInt 0
                "paused|20|3|TRUE|all|" "paused" "20" "3" "TRUE" "all" "" 20)
      as (player & Hp & Hascii & _).
    + reflexivity.
    + reflexivity.
    + right; right. vm_compute. discriminate.
    + exists player. split; [exact Hp|]. rewrite Hascii; reflexivity.
  - destruct (shuffle_never_fails sampleLower sampleParseFloatInt 0
                "paused|20|3|maybe|all|" "paused" "20" "3" "maybe" "all" "" 20)
      as (player & Hp & Hascii & _).
    + reflexivity.
    + reflexivity.
    + right; right. vm_compute. discriminate.
    + exists player. split; [exact Hp|]. rewrite Hascii; reflexivity.
Defined.

Lemma volume_clamps_and_round_trips_witness :
  Level (NewVolume (-7)) = 0
  /\ Level (NewVolume 250) = 100
  /\ exists player,
       parsePlayerState sampleLower sampleParseFloatInt 0 "playing|75|120|true|off|42"
         = (Some player, None)
       /\ Level (Player_Volume player) = 75.
Proof.
  split; [|split].
  - apply (proj1 (volume_clamps_and_round_trips sampleLower sampleParseFloatInt (-7))). lia.
  - apply (proj1 (proj2 (volume_clamps_and_round_trips sampleLower sampleParseFloatInt 250))).
    lia.
  - destruct (proj2 (proj2 (volume_clamps_and_round_trips sampleLower sampleParseFloatInt 75)))
      as (_ & _ & H); [lia|].
    apply (H 0 "playing|75|120|true|off|42" "playing" "120" "true" "off" "42").
    + reflexivity.
    + right; right. vm_compute. discriminate.
Defined.

(** The display form of a volume, [Volume.String], ends with a percent
    sign; it is not the form on the wire and [strconv.Atoi] rejects it. *)
Remark volume_display_form_is_not_wire_form :
  Volume_String (NewVolume 75) = "75%"
  /\ Atoi (Volume_String (NewVolume 75)) = None.
Proof. split; reflexivity. Qed.

(* ===================================================================== *)
(** * Further properties: trimming *)
(* ===================================================================== *)

Section Trimming.

(** The text starts with a white-space rune. *)
Definition leadSpace (s : string) : bool :=
  match s with
  | EmptyString => false
  | String c1 r1 =>
      asciiSpace c1
      || match r1 with
         | EmptyString => false
         | String c2 r2 =>
             space2 c1 c2
             || match r2 with
                | EmptyString => false
                | String c3 _ => space3 c1 c2 c3
                end
         end
  end.

(** The same for the reversed text: the text ends with one. *)
Definition leadSpaceRev (s : string) : bool :=
  match s with
  | EmptyString => false
  | String c1 r1 =>
      asciiSpace c1
      || match r1 with
         | EmptyString => false
         | String c2 r2 =>
             space2 c2 c1
             || match r2 with
                | EmptyString => false
                | String c3 _ => space3 c3 c2 c1
                end
         end
  end.

Lemma app_cons (c : ascii) (a b : string) :
  String c a +:+ b = String c (a +:+ b).
Proof. reflexivity. Qed.

Lemma app_nil (b : string) : "" +:+ b = b.
Proof. reflexivity. Qed.

Lemma trimLeft_no_lead (s : string) : leadSpace s = false -> trimLeft s = s.
Proof.
  destruct s as [|c1 [|c2 [|c3 r3]]]; simpl; intros H; try reflexivity.
  - rewrite orb_false_r in H. rewrite H. reflexivity.
  - apply orb_false_elim in H as [H1 H2]. rewrite orb_false_r in H2.
    rewrite H1, H2. reflexivity.
  - apply orb_false_elim in H as [H1 H2]. apply orb_false_elim in H2 as [H2 H3].
    rewrite H1, H2, H3. reflexivity.
Qed.

Lemma trimLeftRev_no_lead (s : string) :
  leadSpaceRev s = false -> trimLeftRev s = s.
Proof.
  destruct s as [|c1 [|c2 [|c3 r3]]]; simpl; intros H; try reflexivity.
  - rewrite orb_false_r in H. rewrite H. reflexivity.
  - apply orb_false_elim in H as [H1 H2]. rewrite orb_false_r in H2.
    rewrite H1, H2. reflexivity.
  - apply orb_false_elim in H as [H1 H2]. apply orb_false_elim in H2 as [H2 H3].
    rewrite H1, H2, H3. reflexivity.
Qed.

(** What [trimLeft] returns is a suffix of its argument that starts with
    no white-space rune. *)
Lemma trimLeft_spec (n : nat) :
  forall s, (String.length s <= n)%nat ->
    leadSpace (trimLeft s) = false /\ exists u, s = u +:+ trimLeft s.
Proof.
  induction n as [|n IH]; intros s Hn.
  - destruct s; [|simpl in Hn; lia]. split; [reflexivity | exists ""; reflexivity].
  - destruct s as [|c1 r1]; [split; [reflexivity | exists ""; reflexivity]|].
    simpl in Hn. simpl trimLeft.
    destruct (asciiSpace c1) eqn:E1.
    { destruct (IH r1 ltac:(lia)) as (H & u & Hu). split; [exact H|].
      exists (String c1 u). rewrite app_cons. f_equal. exact Hu. }
    destruct r1 as [|c2 r2].
    { split; [simpl; rewrite E1; reflexivity | exists ""; reflexivity]. }
    simpl in Hn. destruct (space2 c1 c2) eqn:E2.
    { destruct (IH r2 ltac:(lia)) as (H & u & Hu). split; [exact H|].
      exists (String c1 (String c2 u)). rewrite !app_cons. do 2 f_equal. exact Hu. }
    destruct r2 as [|c3 r3].
    { split; [simpl; rewrite E1, E2; reflexivity | exists ""; reflexivity]. }
    simpl in Hn. destruct (space3 c1 c2 c3) eqn:E3.
    { destruct (IH r3 ltac:(lia)) as (H & u & Hu). split; [exact H|].
      exists (String c1 (String c2 (String c3 u))). rewrite !app_cons. do 3 f_equal. exact Hu. }
    split; [simpl; rewrite E1, E2, E3; reflexivity | exists ""; reflexivity].
Qed.

Lemma trimLeftRev_spec (n : nat) :
  forall s, (String.length s <= n)%nat ->
    leadSpaceRev (trimLeftRev s) = false /\ exists u, s = u +:+ trimLeftRev s.
Proof.
  induction n as [|n IH]; intros s Hn.
  - destruct s; [|simpl in Hn; lia]. split; [reflexivity | exists ""; reflexivity].
  - destruct s as [|c1 r1]; [split; [reflexivity | exists ""; reflexivity]|].
    simpl in Hn. simpl trimLeftRev.
    destruct (asciiSpace c1) eqn:E1.
    { destruct (IH r1 ltac:(lia)) as (H & u & Hu). split; [exact H|].
      exists (String c1 u). rewrite app_cons. f_equal. exact Hu. }
    destruct r1 as [|c2 r2].
    { split; [simpl; rewrite E1; reflexivity | exists ""; reflexivity]. }
    simpl in Hn. destruct (space2 c2 c1) eqn:E2.
    { destruct (IH r2 ltac:(lia)) as (H & u & Hu). split; [exact H|].
      exists (String c1 (String c2 u)). rewrite !app_cons. do 2 f_equal. exact Hu. }
    destruct r2 as [|c3 r3].
    { split; [simpl; rewrite E1, E2; reflexivity | exists ""; reflexivity]. }
    simpl in Hn. destruct (space3 c3 c2 c1) eqn:E3.
    { destruct (IH r3 ltac:(lia)) as (H & u & Hu). split; [exact H|].
      exists (String c1 (String c2 (String c3 u))). rewrite !app_cons. do 3 f_equal. exact Hu. }
    split; [simpl; rewrite E1, E2, E3; reflexivity | exists ""; reflexivity].
Qed.

(** A prefix that starts with a white-space rune makes the whole text
    start with it. *)
Lemma leadSpace_app (p u : string) :
  leadSpace p = true -> leadSpace (p +:+ u) = true.
Proof.
  destruct p as [|c1 [|c2 [|c3 r3]]]; rewrite ?app_cons, ?app_nil;
    simpl; try discriminate.
  - rewrite orb_false_r. intros ->. reflexivity.
  - rewrite orb_false_r. intros H. apply orb_prop in H as [-> | ->];
      [reflexivity|]. destruct u; simpl; now rewrite ?orb_true_r.
  - auto.
Qed.

Lemma rev_append_app (s acc : string) :
  GoStr.rev_append s acc = GoStr.rev s +:+ acc.
Proof.
  unfold GoStr.rev. revert acc.
  induction s as [|c s IH]; intros acc; simpl; [reflexivity|].
  rewrite IH. rewrite (IH (String c "")).
  clear IH. induction (rev_append s "") as [|x y IHy];
    rewrite ?app_cons, ?app_nil; [reflexivity|].
  f_equal. exact IHy.
Qed.

Lemma app_assoc' (a b c : string) : (a +:+ b) +:+ c = a +:+ (b +:+ c).
Proof.
  induction a as [|x a IH]; rewrite ?app_cons, ?app_nil;
    [reflexivity | f_equal; exact IH].
Qed.

Lemma app_empty_r (a : string) : a +:+ "" = a.
Proof.
  induction a as [|x a IH]; rewrite ?app_cons, ?app_nil;
    [reflexivity | f_equal; exact IH].
Qed.

Lemma rev_app (a b : string) : GoStr.rev (a +:+ b) = GoStr.rev b +:+ GoStr.rev a.
Proof.
  induction a as [|x a IH]; rewrite ?app_cons, ?app_nil.
  - rewrite app_empty_r. reflexivity.
  - unfold GoStr.rev in *. simpl. rewrite (rev_append_app (a +:+ b)).
    rewrite (rev_append_app a). fold (GoStr.rev (a +:+ b)). fold (GoStr.rev a).
    unfold GoStr.rev. rewrite IH. apply app_assoc'.
Qed.

Lemma rev_involutive (s : string) : GoStr.rev (GoStr.rev s) = s.
Proof.
  induction s as [|c s IH]; [reflexivity|].
  unfold GoStr.rev at 2. simpl. rewrite rev_append_app, rev_app, IH. reflexivity.
Qed.

Lemma String_length_rev (s : string) : String.length (GoStr.rev s) = String.length s.
Proof.
  assert (H : forall a b, String.length (a +:+ b) = (String.length a + String.length b)%nat).
  { induction a as [|x a IH]; intros b; rewrite ?app_cons, ?app_nil; simpl;
      [reflexivity | now rewrite IH]. }
  induction s as [|c s IH]; [reflexivity|].
  unfold GoStr.rev. simpl. rewrite rev_append_app, H, IH. simpl. lia.
Qed.

(** [TrimSpace] leaves nothing to trim on either side. *)
Lemma TrimSpace_no_lead (s : string) : leadSpace (TrimSpace s) = false.
Proof.
  unfold TrimSpace, trimRight.
  destruct (trimLeft_spec (String.length s) s (Nat.le_refl _)) as (Hl & _).
  set (t := trimLeft s) in *.
  destruct (trimLeftRev_spec (String.length (GoStr.rev t)) (GoStr.rev t) (Nat.le_refl _))
    as (_ & u & Hu).
  assert (Ht : t = GoStr.rev (trimLeftRev (GoStr.rev t)) +:+ GoStr.rev u).
  { rewrite <- rev_app, <- Hu, rev_involutive. reflexivity. }
  destruct (leadSpace (GoStr.rev (trimLeftRev (GoStr.rev t)))) eqn:E; [|reflexivity].
  apply (leadSpace_app _ (GoStr.rev u)) in E. rewrite <- Ht in E. congruence.
Qed.

Lemma TrimSpace_no_trail (s : string) :
  leadSpaceRev (GoStr.rev (TrimSpace s)) = false.
Proof.
  unfold TrimSpace, trimRight. rewrite rev_involutive.
  apply (trimLeftRev_spec _ _ (Nat.le_refl _)).
Qed.

Lemma TrimSpace_fixed (s : string) :
  leadSpace s = false -> leadSpaceRev (GoStr.rev s) = false -> TrimSpace s = s.
Proof.
  intros H1 H2. unfold TrimSpace, trimRight.
  rewrite (trimLeft_no_lead s H1), (trimLeftRev_no_lead _ H2).
  apply rev_involutive.
Qed.

Lemma TrimSpace_idempotent (s : string) : TrimSpace (TrimSpace s) = TrimSpace s.
Proof.
  apply TrimSpace_fixed; [apply TrimSpace_no_lead | apply TrimSpace_no_trail].
Qed.

End Trimming.

(* ===================================================================== *)
(** * Further properties: errors *)
(* ===================================================================== *)

Section MoreErrors.

(** X1.  [WithContext] then [GetContext]: the key reads back the value just
    written, every other key reads as before, and code, message, cause and
    both classifications of the error are untouched.  A fresh error has an
    empty context. *)
Theorem context_write_then_read (e : DomainError) (key : string) (v : GoValue) :
  GetContext (WithContext e key v) key = Some v
  /\ (forall key', key' <> key ->
        GetContext (WithContext e key v) key' = GetContext e key')
  /\ (forall v', WithContext (WithContext e key v) key v' = WithContext e key v')
  /\ Code (WithContext e key v) = Code e
  /\ Message (WithContext e key v) = Message e
  /\ Cause (WithContext e key v) = Cause e
  /\ DomainError_IsRetryable (WithContext e key v) = DomainError_IsRetryable e
  /\ DomainError_IsPermanent (WithContext e key v) = DomainError_IsPermanent e
  /\ (forall code message cause k,
        GetContext (NewDomainError code message) k = None
        /\ GetContext (NewDomainErrorWithCause code message cause) k = None).
Proof.
  destruct e as [c m ca cx]. unfold GetContext, WithContext; simpl.
  split; [apply lookup_insert_eq|].
  split; [intros key' H; apply lookup_insert_ne; congruence|].
  split; [intros v'; f_equal; apply insert_insert_eq|].
  repeat split; apply lookup_empty.
Qed.

Definition generalCode (c : ErrCode) : bool :=
  match c with
  | ErrOperationFailed | ErrTimeout | ErrPermissionDenied | ErrInvalidOperation => true
  | _ => false
  end.

(** X2.  The five group queries split the codes: an error of one of the four
    general codes belongs to no group, every other error to exactly one. *)
Theorem groups_partition_the_codes (e : DomainError) :
  (Nat.b2n (IsTrackError e) + Nat.b2n (IsPlaylistError e)
   + Nat.b2n (IsPlayerError e) + Nat.b2n (IsQueueError e)
   + Nat.b2n (IsLibraryError e))%nat
  = if generalCode (Code e) then 0%nat else 1%nat.
Proof. destruct e as [c m ca cx]. destruct c; reflexivity. Qed.

(** X3.  The package-level [IsRetryable] and [IsPermanent] on any error value:
    never both.  Context errors, exit errors and other system errors are
    neither.  A bare base error is judged by a shorter list than a domain
    error with the same code: bare, only timeout and the two not-available
    errors are retryable and only permission-denied, invalid track ID and
    invalid playlist ID are permanent; so the bare operation-failed error
    is not retryable and the bare invalid-volume error is not permanent,
    though both are once they are the code of a domain error. *)
Theorem package_level_classification (err : error) :
  (IsRetryable err && IsPermanent err = false)
  /\ (forall ce, IsRetryable (EContext ce) = false /\ IsPermanent (EContext ce) = false)
  /\ (forall code, IsRetryable (EExit code) = false /\ IsPermanent (EExit code) = false)
  /\ (forall msg, IsRetryable (EOS msg) = false /\ IsPermanent (EOS msg) = false)
  /\ (forall c, IsRetryable (EBase c) = true <->
                In c [ErrTimeout; ErrPlayerNotAvailable; ErrLibraryNotAvailable])
  /\ (forall c, IsPermanent (EBase c) = true <->
                In c [ErrPermissionDenied; ErrInvalidTrackID; ErrInvalidPlaylistID])
  /\ (forall d, IsRetryable (EDomain d) = DomainError_IsRetryable d
                /\ IsPermanent (EDomain d) = DomainError_IsPermanent d).
Proof.
  split.
  { destruct (IsRetryable err) eqn:E; [|reflexivity].
    simpl. apply retryable_excludes_permanent. exact E. }
  repeat split; try reflexivity.
  - destruct c; simpl; intros H; try discriminate H; tauto.
  - intros H. repeat (destruct H as [<- | H]; [reflexivity|]). destruct H.
  - destruct c; simpl; intros H; try discriminate H; tauto.
  - intros H. repeat (destruct H as [<- | H]; [reflexivity|]). destruct H.
Qed.

(** X4.  The wrapping helpers: each records the offending value in the context
    under its own key, keeps the cause, and has the classification of its
    code: the not-found errors are neither retryable nor permanent, the
    invalid-volume and invalid-position errors are permanent, the timeout
    error is retryable. *)
Theorem wrappers_record_their_value :
  (forall trackID cause,
      let e := WrapTrackNotFound trackID cause in
      GetContext e "track_id" = Some (VStr (value trackID))
      /\ Cause e = cause /\ IsTrackNotFound (EDomain e) = true
      /\ DomainError_IsRetryable e = false /\ DomainError_IsPermanent e = false)
  /\ (forall playlistID cause,
      let e := WrapPlaylistNotFound playlistID cause in
      GetContext e "playlist_id" = Some (VStr (playlistValue playlistID))
      /\ Cause e = cause /\ IsPlaylistNotFound (EDomain e) = true
      /\ DomainError_IsRetryable e = false /\ DomainError_IsPermanent e = false)
  /\ (forall volume cause,
      let e := WrapInvalidVolume volume cause in
      GetContext e "volume" = Some (VInt volume)
      /\ Cause e = cause /\ IsInvalidVolume (EDomain e) = true
      /\ DomainError_IsRetryable e = false /\ DomainError_IsPermanent e = true)
  /\ (forall position cause,
      let e := WrapInvalidPosition position cause in
      GetContext e "position_seconds" = Some (VInt (Seconds position))
      /\ Cause e = cause
      /\ DomainError_IsRetryable e = false /\ DomainError_IsPermanent e = true)
  /\ (forall operation timeout cause,
      let e := WrapOperationTimeout operation timeout cause in
      GetContext e "operation" = Some (VStr operation)
      /\ GetContext e "timeout_seconds" = Some (VInt (Seconds timeout))
      /\ Cause e = cause /\ IsTimeout (EDomain e) = true
      /\ DomainError_IsRetryable e = true /\ DomainError_IsPermanent e = false).
Proof.
  unfold GetContext, WrapTrackNotFound, WrapPlaylistNotFound, WrapInvalidVolume,
    WrapInvalidPosition, WrapOperationTimeout, WithContext, NewDomainErrorWithCause;
    simpl.
  repeat split; try apply lookup_insert_eq.
Qed.

End MoreErrors.

(* ===================================================================== *)
(** * Further properties: value objects *)
(* ===================================================================== *)

Section MoreValues.

Lemma NewVolume_valid (lvl : Z) : Volume_IsValid (NewVolume lvl) = true.
Proof.
  unfold Volume_IsValid, NewVolume; simpl.
  destruct (lvl <? 0) eqn:E1; [reflexivity|].
  destruct (100 <? lvl) eqn:E2; [reflexivity|].
  apply Z.ltb_ge in E1. apply Z.ltb_ge in E2.
  apply andb_true_intro; split; apply Z.leb_le; lia.
Qed.

Lemma NewVolume_level (lvl : Z) :
  Level (NewVolume lvl) = Z.max 0 (Z.min 100 lvl).
Proof.
  unfold Level, NewVolume; simpl.
  destruct (lvl <? 0) eqn:E1; [apply Z.ltb_lt in E1; lia|].
  destruct (100 <? lvl) eqn:E2; [apply Z.ltb_lt in E2; lia|].
  apply Z.ltb_ge in E1. apply Z.ltb_ge in E2. lia.
Qed.

(** X5.  Every [Volume] that [NewVolume], [Increase] or [Decrease] returns is
    valid, whatever they are given.  On a valid volume and an amount that
    does not overflow, [Increase] stops at 100 and [Decrease] at 0, and
    [NewVolume] gives back a valid volume unchanged. *)
Theorem volume_stays_in_range :
  (forall lvl, Volume_IsValid (NewVolume lvl) = true)
  /\ (forall v amount, Volume_IsValid (Increase v amount) = true
                       /\ Volume_IsValid (Decrease v amount) = true)
  /\ (forall v, Volume_IsValid v = true -> NewVolume (Level v) = v)
  /\ (forall v amount,
        Volume_IsValid v = true -> minInt + 101 <= amount <= maxInt - 100 ->
        Level (Increase v amount) = Z.max 0 (Z.min 100 (Level v + amount))
        /\ Level (Decrease v amount) = Z.max 0 (Z.min 100 (Level v - amount))).
Proof.
  split; [exact NewVolume_valid|].
  split; [intros v amount; split; apply NewVolume_valid|].
  split.
  - intros [l] H. unfold Volume_IsValid in H; simpl in H.
    apply andb_prop in H as [H1 H2]. apply Z.leb_le in H1. apply Z.leb_le in H2.
    unfold NewVolume, Level; simpl.
    destruct (l <? 0) eqn:E1; [apply Z.ltb_lt in E1; lia|].
    destruct (100 <? l) eqn:E2; [apply Z.ltb_lt in E2; lia|reflexivity].
  - intros [l] amount H Ha. unfold Volume_IsValid in H; simpl in H.
    apply andb_prop in H as [H1 H2]. apply Z.leb_le in H1. apply Z.leb_le in H2.
    unfold Increase, Decrease. rewrite !NewVolume_level.
    unfold Level; simpl. unfold minInt, maxInt in Ha.
    rewrite (wrap_id (l + amount)) by (unfold minInt, maxInt; lia).
    rewrite (wrap_id (l - amount)) by (unfold minInt, maxInt; lia).
    split; reflexivity.
Qed.

(** X6.  [Add] on durations is commutative.  For two valid durations, [Add] is
    the sum when the sum is an [int], and zero when the sum overflows (the
    wrapped sum is negative and [NewDuration] clamps it); [Subtract] undoes
    an [Add] that did not overflow. *)
Theorem duration_add_and_overflow (d other : Music.Duration) :
  Add d other = Add other d
  /\ (0 <= Seconds d <= maxInt -> 0 <= Seconds other <= maxInt ->
      (Seconds d + Seconds other <= maxInt ->
         Seconds (Add d other) = Seconds d + Seconds other
         /\ Subtract (Add d other) other = d)
      /\ (maxInt < Seconds d + Seconds other -> Seconds (Add d other) = 0)).
Proof.
  destruct d as [a], other as [b]. unfold Add, Subtract, Seconds; simpl.
  split; [rewrite (Z.add_comm a b); reflexivity|].
  unfold maxInt. intros Ha Hb. split.
  - intros Hs. rewrite wrap_id by (unfold minInt, maxInt; lia).
    unfold NewDuration.
    destruct (a + b <? 0) eqn:E; [apply Z.ltb_lt in E; lia|]. simpl.
    split; [reflexivity|].
    replace (a + b - b) with a by lia.
    rewrite wrap_id by (unfold minInt, maxInt; lia).
    destruct (a <? 0) eqn:E2; [apply Z.ltb_lt in E2; lia|]. rewrite E2. reflexivity.
  - intros Hs. unfold wrap.
    replace ((a + b + 2 ^ 63) mod 2 ^ 64) with (a + b + 2 ^ 63 - 2 ^ 64).
    + unfold NewDuration.
      destruct (a + b + 2 ^ 63 - 2 ^ 64 - 2 ^ 63 <? 0) eqn:E;
        [reflexivity | apply Z.ltb_ge in E; lia].
    + apply Z.mod_unique with (q := 1); lia.
Qed.

(** X7.  A [TrackID] holds its text trimmed: making an identifier from the text
    of an identifier changes nothing, two texts give equal identifiers
    exactly when they are equal after trimming, and an identifier is empty
    exactly when the text was blank. *)
Theorem track_id_is_trimmed (a b : string) :
  NewTrackID (value (NewTrackID a)) = NewTrackID a
  /\ (TrackID_Equals (NewTrackID a) (NewTrackID b) = true
      <-> TrimSpace a = TrimSpace b)
  /\ (TrackID_IsEmpty (NewTrackID a) = true <-> TrimSpace a = "")
  /\ leadSpace (value (NewTrackID a)) = false
  /\ leadSpaceRev (GoStr.rev (value (NewTrackID a))) = false.
Proof.
  unfold NewTrackID, TrackID_Equals, TrackID_IsEmpty; simpl.
  split; [f_equal; apply TrimSpace_idempotent|].
  split; [apply String.eqb_eq|]. split; [apply String.eqb_eq|].
  split; [apply TrimSpace_no_lead | apply TrimSpace_no_trail].
Qed.

End MoreValues.

Lemma context_write_then_read_witness :
  GetContext (WithContext (WrapInvalidVolume 150 None) "operation" (VStr "set"))
    "volume" = Some (VInt 150).
Proof.
  rewrite (proj1 (proj2 (context_write_then_read (WrapInvalidVolume 150 None)
                           "operation" (VStr "set"))) "volume");
    [|discriminate].
  reflexivity.
Defined.

Lemma volume_stays_in_range_witness :
  Level (Increase (NewVolume 90) 25) = 100 /\ Level (Decrease (NewVolume 10) 25) = 0.
Proof.
  destruct (proj2 (proj2 (proj2 volume_stays_in_range)) (NewVolume 90) 25) as [H _];
    [reflexivity | unfold minInt, maxInt; lia |].
  destruct (proj2 (proj2 (proj2 volume_stays_in_range)) (NewVolume 10) 25) as [_ H'];
    [reflexivity | unfold minInt, maxInt; lia |].
  split; [rewrite H | rewrite H']; reflexivity.
Defined.

Lemma duration_add_and_overflow_witness :
  Seconds (Add (NewDuration 60) (NewDuration 120)) = 180
  /\ Seconds (Add (NewDuration maxInt) (NewDuration 1)) = 0.
Proof.
  split.
  - destruct (proj2 (duration_add_and_overflow (NewDuration 60) (NewDuration 120)))
      as [H _]; [vm_compute; split; discriminate | vm_compute; split; discriminate |].
    apply H. vm_compute. discriminate.
  - destruct (proj2 (duration_add_and_overflow (NewDuration maxInt) (NewDuration 1)))
      as [_ H]; [vm_compute; split; discriminate | vm_compute; split; discriminate |].
    apply H. vm_compute. reflexivity.
Defined.

(* ===================================================================== *)
(** * Further properties: entities *)
(* ===================================================================== *)

Section MoreEntities.

(** X8.  [NewTrack] returns a track exactly when the identifier is not empty,
    title and artist are not empty and the duration is valid; the track
    then holds the five values as given (the album may be empty).
    Otherwise it returns no track and an error: invalid-track-ID when the
    identifier is empty, whatever else is wrong, and invalid-track in the
    other cases. *)
Theorem new_track_validates id title artist album duration :
  let ok := negb (TrackID_IsEmpty id) && negb (String.eqb title "")
            && negb (String.eqb artist "") && Duration_IsValid duration in
  match NewTrack id title artist album duration with
  | (Some t, None) =>
      ok = true
      /\ t = {| ID := id; Title := title; Artist := artist; Album := album;
                Track_Duration := duration |}
  | (None, Some (EDomain d)) =>
      ok = false
      /\ Code d = (if TrackID_IsEmpty id then ErrInvalidTrackID else ErrInvalidTrack)
      /\ Cause d = None
  | _ => False
  end.
Proof.
  unfold NewTrack.
  destruct (TrackID_IsEmpty id); simpl; [auto|].
  destruct (String.eqb title ""); simpl; [auto|].
  destruct (String.eqb artist ""); simpl; [auto|].
  destruct (Duration_IsValid duration); simpl; auto.
Qed.

(** The tracks of a playlist are in order when no identifier occurs twice
    and none is empty. *)
Definition tracksInOrder (tracks : list TrackID) : Prop :=
  List.NoDup tracks /\ Forall (fun t => TrackID_IsEmpty t = false) tracks.

Lemma TrackID_Equals_eq (a b : TrackID) : TrackID_Equals a b = true <-> a = b.
Proof.
  destruct a as [x], b as [y]. unfold TrackID_Equals; simpl.
  rewrite String.eqb_eq. split; [intros ->; reflexivity | congruence].
Qed.

Lemma containsTrack_In (tracks : list TrackID) (t : TrackID) :
  containsTrack tracks t = true <-> In t tracks.
Proof.
  induction tracks as [|x l IH]; simpl; [split; [discriminate | tauto]|].
  destruct (TrackID_Equals x t) eqn:E.
  - apply TrackID_Equals_eq in E. tauto.
  - rewrite IH. split; [tauto|]. intros [-> | H]; [|exact H].
    assert (TrackID_Equals t t = true) by (apply TrackID_Equals_eq; reflexivity).
    congruence.
Qed.

Lemma removeFirst_spec (tracks : list TrackID) (t : TrackID) :
  match removeFirst tracks t with
  | None => ~ In t tracks
  | Some rest =>
      In t tracks
      /\ length tracks = S (length rest)
      /\ (forall x, In x rest -> In x tracks)
      /\ (List.NoDup tracks ->
          List.NoDup rest /\ ~ In t rest
          /\ rest = List.filter (fun x => negb (TrackID_Equals x t)) tracks)
  end.
Proof.
  induction tracks as [|x l IH]; simpl; [tauto|].
  destruct (TrackID_Equals x t) eqn:E.
  - apply TrackID_Equals_eq in E. subst x.
    split; [tauto|]. split; [reflexivity|]. split; [tauto|].
    intros Hnd. apply List.NoDup_cons_iff in Hnd as [Hni Hnd].
    split; [exact Hnd|]. split; [exact Hni|].
    clear -Hni. induction l as [|y l IH]; simpl; [reflexivity|].
    destruct (TrackID_Equals y t) eqn:E.
    + apply TrackID_Equals_eq in E. subst. simpl in Hni. tauto.
    + simpl. f_equal. apply IH. simpl in Hni. tauto.
  - destruct (removeFirst l t) as [rest|].
    + destruct IH as (Hin & Hlen & Hsub & Hnd). split; [tauto|].
      split; [simpl; lia|]. split; [intros y [-> | Hy]; [tauto | right; auto]|].
      intros H. apply List.NoDup_cons_iff in H as [Hni H].
      destruct (Hnd H) as (Hr & Hnt & Hf). split.
      * apply List.NoDup_cons; [intros Hx; apply Hni, Hsub, Hx | exact Hr].
      * split.
        -- intros [-> | Hy]; [|tauto].
           assert (TrackID_Equals t t = true) by (apply TrackID_Equals_eq; reflexivity).
           congruence.
        -- simpl. f_equal. exact Hf.
    + intros [-> | H]; [|tauto].
      assert (TrackID_Equals t t = true) by (apply TrackID_Equals_eq; reflexivity).
      congruence.
Qed.

Lemma removeFirst_app_last (l : list TrackID) (t : TrackID) :
  ~ In t l -> removeFirst (l ++ [t])%list t = Some l.
Proof.
  induction l as [|x l IH]; simpl; intros Hni.
  - assert (TrackID_Equals t t = true) as -> by (apply TrackID_Equals_eq; reflexivity).
    reflexivity.
  - destruct (TrackID_Equals x t) eqn:E.
    + apply TrackID_Equals_eq in E. subst. tauto.
    + rewrite IH by tauto. reflexivity.
Qed.

Definition runPlaylistOps (p : Playlist) (ops : list (Z * PlaylistOp)) : Playlist :=
  fold_left (fun p op => applyPlaylistOp (fst op) p (snd op)) ops p.

(** X9.  Whatever sequence of [AddTrack] and [RemoveTrack] calls is made on a
    playlist whose tracks are in order, they stay in order: no identifier
    twice, none empty.  The calls never touch the identifier, the name,
    the type, the read-only flag or the creation time.  A new playlist
    has no tracks, so this holds for every playlist made by [NewPlaylist]. *)
Theorem playlist_tracks_stay_in_order (p : Playlist) (ops : list (Z * PlaylistOp)) :
  tracksInOrder (Tracks p) ->
  let p' := runPlaylistOps p ops in
  tracksInOrder (Tracks p')
  /\ Playlist_ID p' = Playlist_ID p /\ Name p' = Name p
  /\ Playlist_Type p' = Playlist_Type p /\ ReadOnly p' = ReadOnly p
  /\ CreatedAt p' = CreatedAt p.
Proof.
  revert p. induction ops as [|[now op] ops IH]; intros p Hp; simpl.
  - repeat split; try reflexivity; apply Hp.
  - assert (Hstep : tracksInOrder (Tracks (applyPlaylistOp now p op))
                    /\ Playlist_ID (applyPlaylistOp now p op) = Playlist_ID p
                    /\ Name (applyPlaylistOp now p op) = Name p
                    /\ Playlist_Type (applyPlaylistOp now p op) = Playlist_Type p
                    /\ ReadOnly (applyPlaylistOp now p op) = ReadOnly p
                    /\ CreatedAt (applyPlaylistOp now p op) = CreatedAt p).
    { destruct Hp as [Hnd Hne]. destruct op as [t|t]; simpl.
      - unfold AddTrack. destruct (ReadOnly p) eqn:Ero;
          [simpl; repeat split; try assumption; reflexivity|].
        destruct (TrackID_IsEmpty t) eqn:Et;
          [simpl; repeat split; try assumption; reflexivity|].
        destruct (containsTrack (Tracks p) t) eqn:Ec;
          [simpl; repeat split; try assumption; reflexivity|].
        simpl. repeat split; try reflexivity; try assumption.
        + apply List.NoDup_app; [exact Hnd | |].
          * apply List.NoDup_cons; [intros [] | apply List.NoDup_nil].
          * intros x Hx [-> | []]. apply containsTrack_In in Hx. congruence.
        + apply Forall_app. split; [exact Hne|].
          constructor; [exact Et | constructor].
      - unfold RemoveTrack. destruct (ReadOnly p) eqn:Ero;
          [simpl; repeat split; try assumption; reflexivity|].
        pose proof (removeFirst_spec (Tracks p) t) as Hr.
        destruct (removeFirst (Tracks p) t) as [rest|];
          [|simpl; repeat split; try assumption; reflexivity].
        destruct Hr as (_ & _ & Hsub & Hr). destruct (Hr Hnd) as (Hnd' & _).
        simpl. repeat split; try reflexivity; try assumption.
        rewrite List.Forall_forall in *. intros x Hx. apply Hne, Hsub, Hx. }
    destruct Hstep as (H0 & H1 & H2 & H3 & H4 & H5).
    destruct (IH _ H0) as (G0 & G1 & G2 & G3 & G4 & G5).
    unfold runPlaylistOps in *. simpl.
    repeat split; try apply G0; congruence.
Qed.

(** X10.  A read-only playlist never changes: [AddTrack] and [RemoveTrack] both
    refuse with a playlist-read-only error, which is permanent, and leave
    the playlist as it was, whatever the track. *)
Theorem read_only_playlist_never_changes (now : Z) (p : Playlist) (t : TrackID) :
  ReadOnly p = true ->
  (exists d, AddTrack now p t = (p, Some (EDomain d))
             /\ Code d = ErrPlaylistReadOnly /\ DomainError_IsPermanent d = true)
  /\ (exists d, RemoveTrack now p t = (p, Some (EDomain d))
                /\ Code d = ErrPlaylistReadOnly /\ DomainError_IsPermanent d = true)
  /\ forall ops, runPlaylistOps p ops = p.
Proof.
  intros Hro. unfold AddTrack, RemoveTrack. rewrite Hro.
  split; [eexists; repeat split|]. split; [eexists; repeat split|].
  intros ops. induction ops as [|[n op] ops IH]; [reflexivity|].
  unfold runPlaylistOps in *. simpl.
  destruct op as [x|x]; simpl; unfold AddTrack, RemoveTrack; rewrite Hro; exact IH.
Qed.

(** X11.  Adding to a playlist that can be changed: a track that is not empty
    and not yet there is appended at the end, is then contained, and the
    count grows by one; removing it again gives back the tracks as they
    were.  A track already there is refused with track-already-in-playlist
    and an empty identifier with invalid-track-ID, the playlist unchanged. *)
Theorem add_track_appends_once (now now' : Z) (p : Playlist) (t : TrackID) :
  ReadOnly p = false ->
  (TrackID_IsEmpty t = false -> ContainsTrack p t = false ->
     exists p',
       AddTrack now p t = (p', None)
       /\ Tracks p' = (Tracks p ++ [t])%list
       /\ ContainsTrack p' t = true
       /\ TrackCount p' = TrackCount p + 1
       /\ ModifiedAt p' = now
       /\ exists p'', RemoveTrack now' p' t = (p'', None)
                      /\ Tracks p'' = Tracks p)
  /\ (TrackID_IsEmpty t = false -> ContainsTrack p t = true ->
      exists d, AddTrack now p t = (p, Some (EDomain d))
                /\ Code d = ErrTrackAlreadyInPlaylist)
  /\ (TrackID_IsEmpty t = true ->
      exists d, AddTrack now p t = (p, Some (EDomain d))
                /\ Code d = ErrInvalidTrackID).
Proof.
  intros Hro. unfold AddTrack, ContainsTrack. rewrite Hro.
  split; [|split].
  - intros He Hc. rewrite He, Hc. eexists. split; [reflexivity|]. simpl.
    split; [reflexivity|].
    split; [apply containsTrack_In, in_or_app; right; left; reflexivity|].
    split; [unfold TrackCount; simpl; rewrite length_app; simpl; lia|].
    split; [reflexivity|].
    unfold RemoveTrack; simpl. rewrite Hro.
    assert (Hrm : removeFirst (Tracks p ++ [t])%list t = Some (Tracks p)).
    { apply removeFirst_app_last. intros H. apply containsTrack_In in H. congruence. }
    rewrite Hrm. eexists. split; reflexivity.
  - intros He Hc. rewrite He, Hc. eexists. split; reflexivity.
  - intros He. rewrite He. eexists. split; reflexivity.
Qed.

(** X12.  Removing from a playlist that can be changed and whose tracks are in
    order: a track that is there is taken out, is then no longer
    contained, the count drops by one and the other tracks keep their
    order; a track that is not there is refused with track-not-found, the
    playlist unchanged. *)
Theorem remove_track_takes_it_out (now : Z) (p : Playlist) (t : TrackID) :
  ReadOnly p = false ->
  tracksInOrder (Tracks p) ->
  if ContainsTrack p t then
    exists p',
      RemoveTrack now p t = (p', None)
      /\ ContainsTrack p' t = false
      /\ TrackCount p' = TrackCount p - 1
      /\ Tracks p' = List.filter (fun x => negb (TrackID_Equals x t)) (Tracks p)
      /\ ModifiedAt p' = now
  else
    exists d, RemoveTrack now p t = (p, Some (EDomain d))
              /\ Code d = ErrTrackNotFound
              /\ DomainError_IsRetryable d = false
              /\ DomainError_IsPermanent d = false.
Proof.
  intros Hro [Hnd _]. unfold RemoveTrack, ContainsTrack. rewrite Hro.
  pose proof (removeFirst_spec (Tracks p) t) as Hr.
  destruct (containsTrack (Tracks p) t) eqn:Ec.
  - apply containsTrack_In in Ec.
    destruct (removeFirst (Tracks p) t) as [rest|]; [|contradiction].
    destruct Hr as (_ & Hlen & _ & Hr). destruct (Hr Hnd) as (_ & Hni & Hf).
    eexists. split; [reflexivity|]. simpl.
    split. { destruct (containsTrack rest t) eqn:E; [|reflexivity].
             apply containsTrack_In in E. contradiction. }
    split; [unfold TrackCount; simpl; lia|]. split; [exact Hf | reflexivity].
  - destruct (removeFirst (Tracks p) t) as [rest|].
    + destruct Hr as (Hin & _). apply containsTrack_In in Hin. congruence.
    + eexists. repeat split.
Qed.

Definition runPlayerOps (p : Player) (ops : list (Z * PlayerOp)) : Player :=
  fold_left (fun p op => applyOp (fst op) p (snd op)) ops p.

(** What the methods of [Player] keep true. *)
Definition playerInOrder (p : Player) : Prop :=
  Volume_IsValid (Player_Volume p) = true
  /\ Duration_IsValid (Position p) = true
  /\ State p <> PlayerStateBuffering
  /\ (State p = PlayerStateStopped -> CurrentTrack p = None).

(** X13.  A new player is in order, and every sequence of calls to its methods
    keeps it so: the volume stays between 0 and 100 and the position
    non-negative (the setters refuse other values), the state is never
    buffering, and a stopped player has no current track. *)
Theorem player_stays_in_order (now : Z) (ops : list (Z * PlayerOp)) :
  playerInOrder (NewPlayer now)
  /\ playerInOrder (runPlayerOps (NewPlayer now) ops).
Proof.
  assert (H0 : playerInOrder (NewPlayer now)).
  { unfold playerInOrder, NewPlayer; simpl. repeat split; discriminate. }
  split; [exact H0|].
  generalize (NewPlayer now) H0. clear H0.
  induction ops as [|[n op] ops IH]; intros p Hp; [exact Hp|].
  unfold runPlayerOps in *. simpl. apply IH.
  destruct Hp as (Hv & Hd & Hb & Hs).
  destruct op; simpl.
  - unfold Player_SetVolume. destruct (Volume_IsValid volume) eqn:E; simpl;
      repeat split; assumption.
  - unfold Player_SetPosition. destruct (Duration_IsValid position) eqn:E; simpl;
      repeat split; assumption.
  - repeat split; simpl; try assumption; discriminate.
  - unfold Player_Pause. destruct (State p) eqn:E; simpl;
      repeat split; simpl; try assumption; try discriminate; rewrite ?E; auto.
  - repeat split; simpl; try assumption; try discriminate; reflexivity.
  - unfold Player_Resume. destruct (State p) eqn:E; simpl;
      repeat split; simpl; try assumption; try discriminate; rewrite ?E; auto.
  - repeat split; assumption.
  - repeat split; assumption.
Qed.

(** X14.  [Pause] acts only on a playing player and [Resume] only on a paused
    one; elsewhere they change nothing, not even the update time.  On a
    playing player, [Pause] then [Resume] gives the player back, playing
    the same track at the same position.  [SetVolume] refuses a volume out
    of range with an invalid-volume error and changes nothing. *)
Theorem pause_and_resume (now now' : Z) (p : Player) :
  (State p = PlayerStatePlaying ->
     IsPaused (Player_Pause now p) = true
     /\ Player_Resume now' (Player_Pause now p)
        = {| State := PlayerStatePlaying; CurrentTrack := CurrentTrack p;
             Position := Position p; Player_Volume := Player_Volume p;
             Shuffle := Shuffle p; Repeat := Repeat p; LastUpdated := now' |})
  /\ (State p <> PlayerStatePlaying -> Player_Pause now p = p)
  /\ (State p <> PlayerStatePaused -> Player_Resume now p = p)
  /\ (forall v, Volume_IsValid v = false ->
        exists d, Player_SetVolume now p v = (p, Some (EDomain d))
                  /\ Code d = ErrInvalidVolume)
  /\ (HasCurrentTrack (Player_Stop now p) = false
      /\ IsStopped (Player_Stop now p) = true
      /\ IsZero (Position (Player_Stop now p)) = true).
Proof.
  split; [|split; [|split; [|split]]].
  - intros H. unfold Player_Pause, Player_Resume, IsPaused. rewrite H. simpl.
    split; reflexivity.
  - intros H. unfold Player_Pause. destruct (State p); try reflexivity. contradiction.
  - intros H. unfold Player_Resume. destruct (State p); try reflexivity. contradiction.
  - intros v Hv. unfold Player_SetVolume. rewrite Hv. simpl. eexists. split; reflexivity.
  - repeat split.
Qed.

End MoreEntities.

Lemma playlist_tracks_stay_in_order_witness :
  tracksInOrder
    (Tracks (runPlaylistOps
               {| Playlist_ID := NewPlaylistID "p1"; Name := "Mix";
                  Playlist_Type := PlaylistTypeUser; ReadOnly := false;
                  Tracks := []; CreatedAt := 1; ModifiedAt := 1 |}
               [(2, OpAddTrack (NewTrackID "a")); (3, OpAddTrack (NewTrackID " a "));
                (4, OpAddTrack (NewTrackID "b")); (5, OpRemoveTrack (NewTrackID "a"))])).
Proof.
  apply (playlist_tracks_stay_in_order
           {| Playlist_ID := NewPlaylistID "p1"; Name := "Mix";
              Playlist_Type := PlaylistTypeUser; ReadOnly := false;
              Tracks := []; CreatedAt := 1; ModifiedAt := 1 |}).
  split; [apply List.NoDup_nil | constructor].
Defined.

Lemma read_only_playlist_never_changes_witness :
  runPlaylistOps
    {| Playlist_ID := NewPlaylistID "lib"; Name := "Library";
       Playlist_Type := PlaylistTypeLibrary; ReadOnly := true;
       Tracks := [NewTrackID "a"]; CreatedAt := 1; ModifiedAt := 1 |}
    [(2, OpAddTrack (NewTrackID "b")); (3, OpRemoveTrack (NewTrackID "a"))]
  = {| Playlist_ID := NewPlaylistID "lib"; Name := "Library";
       Playlist_Type := PlaylistTypeLibrary; ReadOnly := true;
       Tracks := [NewTrackID "a"]; CreatedAt := 1; ModifiedAt := 1 |}.
Proof.
  apply (proj2 (proj2 (read_only_playlist_never_changes 0
           {| Playlist_ID := NewPlaylistID "lib"; Name := "Library";
              Playlist_Type := PlaylistTypeLibrary; ReadOnly := true;
              Tracks := [NewTrackID "a"]; CreatedAt := 1; ModifiedAt := 1 |}
           (NewTrackID "b") eq_refl))).
Defined.

Lemma add_track_appends_once_witness :
  exists p',
    AddTrack 2 {| Playlist_ID := NewPlaylistID "p1"; Name := "Mix";
                  Playlist_Type := PlaylistTypeUser; ReadOnly := false;
                  Tracks := [NewTrackID "a"]; CreatedAt := 1; ModifiedAt := 1 |}
      (NewTrackID "b") = (p', None)
    /\ Tracks p' = [NewTrackID "a"; NewTrackID "b"].
Proof.
  destruct (proj1 (add_track_appends_once 2 3
              {| Playlist_ID := NewPlaylistID "p1"; Name := "Mix";
                 Playlist_Type := PlaylistTypeUser; ReadOnly := false;
                 Tracks := [NewTrackID "a"]; CreatedAt := 1; ModifiedAt := 1 |}
              (NewTrackID "b") eq_refl) eq_refl eq_refl)
    as (p' & H1 & H2 & _).
  exists p'. split; [exact H1 | exact H2].
Defined.

Lemma remove_track_takes_it_out_witness :
  exists p',
    RemoveTrack 2 {| Playlist_ID := NewPlaylistID "p1"; Name := "Mix";
                     Playlist_Type := PlaylistTypeUser; ReadOnly := false;
                     Tracks := [NewTrackID "a"; NewTrackID "b"];
                     CreatedAt := 1; ModifiedAt := 1 |}
      (NewTrackID "a") = (p', None)
    /\ ContainsTrack p' (NewTrackID "a") = false.
Proof.
  pose proof (remove_track_takes_it_out 2
                {| Playlist_ID := NewPlaylistID "p1"; Name := "Mix";
                   Playlist_Type := PlaylistTypeUser; ReadOnly := false;
                   Tracks := [NewTrackID "a"; NewTrackID "b"];
                   CreatedAt := 1; ModifiedAt := 1 |}
                (NewTrackID "a") eq_refl) as H.
  destruct H as (p' & H1 & H2 & _).
  - split.
    + apply List.NoDup_cons; [intros [H | []]; discriminate H|].
      apply List.NoDup_cons; [intros [] | apply List.NoDup_nil].
    + repeat constructor.
  - exists p'. split; [exact H1 | exact H2].
Defined.

Lemma pause_and_resume_witness :
  IsPaused (Player_Pause 2 (Player_Play 1 (NewPlayer 0) (Some (NewTrackID "42")))) = true.
Proof.
  apply (proj1 (pause_and_resume 2 3
                  (Player_Play 1 (NewPlayer 0) (Some (NewTrackID "42"))))).
  reflexivity.
Defined.

(* ===================================================================== *)
(** * Further properties: the executor *)
(* ===================================================================== *)

Section MoreExecutor.
Variable w : World.
Variable config : ExecutorConfig.

(** X15.  Every error of a single attempt has code operation-failed or timeout:
    it is retryable and never permanent, so the retry loop never stops on
    a permanent error. *)
Theorem attempt_errors_are_never_permanent script timeout st e :
  Error (fst (executeOnce w config script timeout st)) = Some e ->
  exists d, e = EDomain d
            /\ (Code d = ErrOperationFailed \/ Code d = ErrTimeout)
            /\ IsRetryable e = true /\ IsPermanent e = false.
Proof.
  intros He.
  destruct (runOK (runner w (attempts st) (ExecPath config) script timeout)) eqn:Hrun.
  - rewrite (executeOnce_ok _ _ _ _ _ Hrun) in He. discriminate.
  - destruct (executeOnce_fail _ _ _ _ _ Hrun) as (d & st2 & Hex & Hcode & _).
    rewrite Hex in He. simpl in He. injection He as <-.
    exists d. split; [reflexivity|]. split; [exact Hcode|].
    destruct (executor_codes_not_permanent d Hcode). auto.
Qed.

(** X16.  The order in which a failed run is classified.  When [Wait] returns
    an error and the attempt's own deadline has passed, the error is the
    operation timeout, with the operation name and the timeout in seconds
    in its context, whatever the exit code and without looking at the
    caller's context.  Otherwise, when the caller's context is cancelled,
    the error is a timeout error wrapping the cancellation, whatever the
    exit code.  In both cases the output captured so far is kept. *)
Theorem deadline_then_cancellation_then_exit_code script timeout st :
  let p := runner w (attempts st) (ExecPath config) script timeout in
  stdinPipeErr p = None -> startErr p = None -> writeErr p = None ->
  waitStatus p <> WaitOK ->
  let r := fst (executeOnce w config script timeout st) in
  let st' := snd (executeOnce w config script timeout st) in
  Output r = TrimSpace (stdout p)
  /\ (execCtxErr p = Some DeadlineExceeded ->
      Error r = Some (EDomain (WrapOperationTimeout "AppleScript execution"
                                 (NewDurationFromTime timeout)
                                 (waitError (waitStatus p))))
      /\ ctxReads st' = ctxReads st)
  /\ (execCtxErr p <> Some DeadlineExceeded ->
      forall ce, ctxObs w (ctxReads st) = Some ce ->
      Error r = Some (EDomain (NewDomainErrorWithCause ErrTimeout
                                 "context cancelled" (Some (EContext ce))))).
Proof.
  intros p Hpipe Hstart Hwrite Hwait r st'. subst r st'.
  unfold executeOnce, bind, Now, Since, run, ret, ctxErr, bind; simpl.
  fold p. rewrite Hpipe, Hstart, Hwrite.
  destruct (waitStatus p) as [|code|msg] eqn:Ew; [contradiction| |]; simpl;
    destruct (execCtxErr p) as [[|]|] eqn:Hec; simpl;
    repeat split; try congruence; try reflexivity;
    try (intros _ ce Hce; rewrite Hce; reflexivity);
    try (destruct (ctxObs w (ctxReads st)); simpl;
         repeat match goal with |- context [if ?b then _ else _] => destruct b end;
         reflexivity).
Qed.

(** The loop never makes more attempts than it has iterations left, and
    the count it reports is the number of attempts made less one, or, when
    it is cancelled while waiting to retry, the number of attempts made. *)
Lemma retryLoop_counts script timeout startTime :
  forall fuel attempt lastErr st,
    0 <= attempt ->
    attempt + Z.of_nat fuel = MaxRetries config + 1 ->
    let '(r, st') :=
      retryLoop w config fuel attempt lastErr startTime script timeout st in
    (attempts st <= attempts st' <= attempts st + fuel)%nat
    /\ attempt + Z.of_nat (attempts st' - attempts st) - 1 <= RetryCount r
    /\ RetryCount r <= attempt + Z.of_nat (attempts st' - attempts st)
    /\ RetryCount r <= MaxRetries config
    /\ ((0 < fuel)%nat -> attempt <= RetryCount r).
Proof.
  induction fuel as [|fuel IH]; intros attempt lastErr st Ha Hf.
  - simpl. unfold bind, Since, Now, ret; simpl.
    rewrite Nat.sub_diag. simpl in *. lia.
  - simpl retryLoop. unfold bind at 1.
    destruct (retry_wait_frame w attempt st) as (c & st1 & -> & Ha1 & Hc1).
    destruct c as [ce|].
    { unfold bind, Since, Now, ret; simpl. rewrite Ha1, Nat.sub_diag. simpl. lia. }
    unfold bind at 1.
    destruct (runOK (runner w (attempts st1) (ExecPath config) script timeout)) eqn:Hrun.
    + rewrite (executeOnce_ok _ _ _ _ _ Hrun). simpl.
      unfold bind, Since, Now, ret; simpl. rewrite Ha1.
      replace (S (attempts st) - attempts st)%nat with 1%nat by lia. simpl. lia.
    + destruct (executeOnce_fail _ _ _ _ _ Hrun) as (d & st2 & Hex & Hcode & Ha2 & _).
      rewrite Hex. simpl. destruct (executor_codes_not_permanent d Hcode) as [-> _].
      unfold bind at 1. unfold ctxErr at 1.
      destruct (ctxObs w (ctxReads st2)) as [ce|].
      * unfold bind, Since, Now, ret; simpl. rewrite Ha2, Ha1.
        replace (S (attempts st) - attempts st)%nat with 1%nat by lia. simpl. lia.
      * specialize (IH (attempt + 1) (Some (EDomain d))
                       {| clockReads := clockReads st2; ctxReads := S (ctxReads st2);
                          attempts := attempts st2 |} ltac:(lia) ltac:(lia)).
        destruct (retryLoop w config fuel (attempt + 1) (Some (EDomain d)) startTime
                    script timeout _) as [r st'].
        simpl in IH. rewrite Ha2, Ha1 in IH.
        destruct IH as (H1 & H2 & H3 & H4 & H5).
        replace (Z.of_nat (attempts st' - attempts st))
          with (Z.of_nat (attempts st' - S (attempts st)) + 1) by lia.
        destruct fuel as [|fuel']; [|specialize (H5 ltac:(lia))]; lia.
Qed.

(** X17.  With a [MaxRetries] below the largest [int], so that the loop
    counter never wraps and the loop condition fails in the end,
    [ExecuteWithTimeout] makes at most [MaxRetries + 1] attempts, whatever
    the runner and the context do.  With a [MaxRetries] that is also not
    negative and a script that is not blank, [RetryCount] lies between 0
    and [MaxRetries] and is the number of attempts made less one, except
    when the call is cancelled while waiting to retry: then it is the
    number of attempts made. *)
Theorem attempts_are_bounded script timeout st :
  MaxRetries config < maxInt ->
  let '(r, st') := ExecuteWithTimeout w config script timeout st in
  let made := (attempts st' - attempts st)%nat in
  (attempts st <= attempts st')%nat
  /\ Z.of_nat made <= Z.max 0 (MaxRetries config + 1)
  /\ (0 <= MaxRetries config -> String.eqb (TrimSpace script) "" = false ->
      0 <= RetryCount r <= MaxRetries config
      /\ Z.of_nat made - 1 <= RetryCount r <= Z.of_nat made).
Proof.
  intros _. unfold ExecuteWithTimeout.
  destruct (String.eqb (TrimSpace script) "") eqn:Hs.
  - unfold ret; simpl. rewrite Nat.sub_diag. simpl.
    split; [lia|]. split; [lia|]. discriminate.
  - unfold bind at 1, Now at 1.
    destruct (Z_le_gt_dec 0 (MaxRetries config)) as [Hm|Hm].
    + pose proof (retryLoop_counts (TrimSpace script) timeout (clock w (clockReads st))
                    (Z.to_nat (MaxRetries config + 1)) 0 None
                    {| clockReads := S (clockReads st); ctxReads := ctxReads st;
                       attempts := attempts st |} ltac:(lia) ltac:(lia)) as H.
      destruct (retryLoop _ _ _ _ _ _ _ _ _) as [r st']. simpl in H.
      destruct H as (H1 & H2 & H3 & H4 & H5). split; [lia|]. split; [lia|].
      intros _ _. specialize (H5 ltac:(lia)). lia.
    + replace (Z.to_nat (MaxRetries config + 1)) with 0%nat by lia.
      simpl. unfold bind, Since, Now, ret; simpl. rewrite Nat.sub_diag. simpl.
      split; [lia|]. split; [lia|]. lia.
Qed.

(** X18.  With a negative [MaxRetries] no attempt is made at all: a script that
    is not blank gets an operation-failed error without a cause, and the
    result reports the negative [MaxRetries] as its [RetryCount]. *)
Theorem negative_max_retries_runs_nothing script timeout st :
  MaxRetries config < 0 ->
  String.eqb (TrimSpace script) "" = false ->
  let '(r, st') := ExecuteWithTimeout w config script timeout st in
  attempts st' = attempts st
  /\ RetryCount r = MaxRetries config
  /\ exists d, Error r = Some (EDomain d)
               /\ Code d = ErrOperationFailed /\ Cause d = None.
Proof.
  intros Hm Hs. unfold ExecuteWithTimeout. rewrite Hs.
  replace (Z.to_nat (MaxRetries config + 1)) with 0%nat by lia.
  unfold bind, Now, Since, ret; simpl.
  split; [reflexivity|]. split; [reflexivity|]. eexists. repeat split.
Qed.

(** Once cancelled, the context stays cancelled with the same error. *)
Definition cancelStays : Prop :=
  forall k ce, ctxObs w k = Some ce -> ctxObs w (S k) = Some ce.

Lemma cancelStays_later (H : cancelStays) (k j : nat) (ce : CtxErr) :
  (k <= j)%nat -> ctxObs w k = Some ce -> ctxObs w j = Some ce.
Proof.
  intros Hkj Hk. induction Hkj; [exact Hk | apply H; assumption].
Qed.

Definition cancelledWith (r : ExecuteResult) (ce : CtxErr) : Prop :=
  exists msg,
    Error r = Some (EDomain (NewDomainErrorWithCause ErrTimeout msg
                               (Some (EContext ce))))
    /\ (msg = "context cancelled" \/ msg = "context cancelled during retry").

Lemma retryLoop_last_observation script timeout startTime :
  forall fuel attempt lastErr st,
    let '(r, st') :=
      retryLoop w config fuel attempt lastErr startTime script timeout st in
    (ctxReads st <= ctxReads st')%nat
    /\ forall ce, (ctxReads st < ctxReads st')%nat ->
                  ctxObs w (pred (ctxReads st')) = Some ce -> cancelledWith r ce.
Proof.
  induction fuel as [|fuel IH]; intros attempt lastErr st.
  - simpl. unfold bind, Since, Now, ret; simpl. split; [lia|]. intros ce H. lia.
  - simpl retryLoop. unfold bind at 1.
    assert (Hw : exists c st1,
               (if 0 <? attempt then ctxErr w else ret None) st = (c, st1)
               /\ clockReads st1 = clockReads st /\ attempts st1 = attempts st
               /\ ((ctxReads st1 = ctxReads st /\ c = None)
                   \/ (ctxReads st1 = S (ctxReads st) /\ c = ctxObs w (ctxReads st)))).
    { destruct (0 <? attempt); eexists _, _; (split; [reflexivity|]); simpl; auto. }
    destruct Hw as (c & st1 & -> & _ & _ & Hc).
    destruct c as [ce0|].
    { unfold bind, Since, Now, ret; simpl.
      destruct Hc as [[_ Hc] | [Hr Hc]]; [discriminate|].
      split; [lia|]. intros ce _ Hce. rewrite Hr in Hce. simpl in Hce.
      rewrite <- Hc in Hce. injection Hce as <-.
      eexists. split; [reflexivity|]. auto. }
    unfold bind at 1.
    destruct (runOK (runner w (attempts st1) (ExecPath config) script timeout)) eqn:Hrun.
    + rewrite (executeOnce_ok _ _ _ _ _ Hrun). simpl.
      unfold bind, Since, Now, ret; simpl.
      destruct Hc as [[Hr _] | [Hr Hc]]; rewrite Hr; (split; [lia|]); intros ce Hlt Hce.
      * lia.
      * simpl in Hce. congruence.
    + destruct (executeOnce_fail _ _ _ _ _ Hrun)
        as (d & st2 & Hex & Hcode & _ & _ & Hr2).
      rewrite Hex. simpl. destruct (executor_codes_not_permanent d Hcode) as [-> _].
      unfold bind at 1. unfold ctxErr at 1.
      destruct (ctxObs w (ctxReads st2)) as [ce1|] eqn:Hobs.
      * unfold bind, Since, Now, ret; simpl.
        split; [destruct Hc as [[? _]|[? _]], Hr2; lia|].
        intros ce _ Hce. rewrite Hobs in Hce. injection Hce as <-.
        eexists. split; [reflexivity|]. auto.
      * specialize (IH (attempt + 1) (Some (EDomain d))
                       {| clockReads := clockReads st2; ctxReads := S (ctxReads st2);
                          attempts := attempts st2 |}).
        destruct (retryLoop w config fuel (attempt + 1) (Some (EDomain d)) startTime
                    script timeout _) as [r st'].
        simpl in IH. destruct IH as (H1 & H2).
        split; [destruct Hc as [[? _]|[? _]], Hr2; lia|].
        intros ce _ Hce.
        destruct (Nat.eq_dec (ctxReads st') (S (ctxReads st2))) as [E|E].
        -- rewrite E in Hce. simpl in Hce. congruence.
        -- apply H2; [lia | exact Hce].
Qed.

(** X19.  Cancellation ends the call.  When the last look at the caller's
    context during a call found it cancelled, the result is a timeout
    error wrapping that cancellation; so with a context that stays
    cancelled once it is, any look that found it cancelled does. *)
Theorem cancellation_ends_the_call script timeout st :
  let '(r, st') := ExecuteWithTimeout w config script timeout st in
  (forall ce, (ctxReads st < ctxReads st')%nat ->
              ctxObs w (pred (ctxReads st')) = Some ce -> cancelledWith r ce)
  /\ (cancelStays ->
      forall k ce, (ctxReads st <= k < ctxReads st')%nat ->
                   ctxObs w k = Some ce -> cancelledWith r ce).
Proof.
  assert (Hmain :
    let '(r, st') := ExecuteWithTimeout w config script timeout st in
    forall ce, (ctxReads st < ctxReads st')%nat ->
               ctxObs w (pred (ctxReads st')) = Some ce -> cancelledWith r ce).
  { unfold ExecuteWithTimeout.
    destruct (String.eqb (TrimSpace script) "") eqn:Hs.
    - unfold ret; simpl. intros ce H. lia.
    - unfold bind at 1, Now at 1.
      pose proof (retryLoop_last_observation (TrimSpace script) timeout
                    (clock w (clockReads st))
                    (Z.to_nat (MaxRetries config + 1)) 0 None
                    {| clockReads := S (clockReads st); ctxReads := ctxReads st;
                       attempts := attempts st |}) as H.
      destruct (retryLoop _ _ _ _ _ _ _ _ _) as [r st']. simpl in H. apply H. }
  destruct (ExecuteWithTimeout w config script timeout st) as [r st'].
  split; [exact Hmain|].
  intros Hstay k ce Hk Hce. apply Hmain; [lia|].
  apply (cancelStays_later Hstay k); [lia | exact Hce].
Qed.

(** The run got no further than [Start]: the pipe could not be made, or
    [Start] returned an error, as it does for a context that is already
    done. *)
Definition notStarted (p : ProcRun) : Prop :=
  stdinPipeErr p <> None \/ startErr p <> None.

(** X20.  A context that is cancelled before the call.  [Start] refuses
    such a context, so the first attempt gets no further than [Start].
    With a [MaxRetries] that is not negative the call makes that one
    attempt, looks at the caller's context once, and returns the timeout
    error "context cancelled" wrapping the cancellation, in place of the
    attempt's own error, with an empty output and [RetryCount] 0; it does
    not retry, although the error is retryable. *)
Theorem cancelled_context_is_not_retried script timeout (ce : CtxErr) :
  (forall k, ctxObs w k = Some ce) ->
  0 <= MaxRetries config ->
  String.eqb (TrimSpace script) "" = false ->
  notStarted (attemptRun w config script timeout 0) ->
  let '(r, st') := ExecuteWithTimeout w config script timeout st0 in
  attempts st' = 1%nat
  /\ ctxReads st' = 1%nat
  /\ RetryCount r = 0
  /\ Output r = ""
  /\ Error r = Some (EDomain (NewDomainErrorWithCause ErrTimeout
                                "context cancelled" (Some (EContext ce))))
  /\ (forall e, Error r = Some e -> IsRetryable e = true).
Proof.
  intros Hall Hm Hs Hrun. unfold ExecuteWithTimeout. rewrite Hs.
  unfold bind at 1, Now at 1.
  destruct (Z.to_nat (MaxRetries config + 1)) as [|fuel] eqn:Ef; [lia|].
  simpl retryLoop. unfold bind at 1, ret at 1. simpl.
  unfold bind at 1. unfold attemptRun in Hrun.
  unfold executeOnce. unfold bind at 1, Now at 1. unfold bind at 1, run at 1.
  cbn [attempts clockReads ctxReads].
  destruct (stdinPipeErr (runner w 0 (ExecPath config) (TrimSpace script) timeout))
    as [perr|] eqn:Hpipe.
  - unfold bind, Since, Now, ret, failed, ctxErr; simpl. rewrite Hall.
    simpl. repeat split; try reflexivity. intros e [= <-]. reflexivity.
  - destruct (startErr (runner w 0 (ExecPath config) (TrimSpace script) timeout))
      as [serr|] eqn:Hstart.
    + unfold bind, Since, Now, ret, failed, ctxErr; simpl. rewrite Hall.
      simpl. repeat split; try reflexivity. intros e [= <-]. reflexivity.
    + destruct Hrun as [H|H]; contradiction.
Qed.

(** X21.  With a clock that never runs backwards, no result has a negative
    [Duration]. *)
Theorem duration_is_not_negative script timeout st :
  (forall i j, (i <= j)%nat -> clock w i <= clock w j) ->
  0 <= Duration (fst (ExecuteWithTimeout w config script timeout st)).
Proof.
  intros Hmono.
  pose proof (ExecuteWithTimeout_terminal w config script timeout st) as H.
  destruct (ExecuteWithTimeout w config script timeout st) as [r st']. simpl.
  destruct H as (_ & H). destruct (String.eqb (TrimSpace script) "").
  - destruct H as (_ & -> & _). lia.
  - destruct H as (Hlt & ->).
    pose proof (Hmono (clockReads st) (pred (clockReads st')) ltac:(lia)). lia.
Qed.

Lemma executeOnce_output_trimmed script timeout st :
  TrimSpace (Output (fst (executeOnce w config script timeout st)))
  = Output (fst (executeOnce w config script timeout st)).
Proof.
  unfold executeOnce, bind, Now, Since, run, ret, ctxErr, failed, setError.
  simpl.
  repeat match goal with
         | |- context [match ?x with _ => _ end] => destruct x; simpl
         end; try reflexivity; apply TrimSpace_idempotent.
Qed.

Lemma retryLoop_output_trimmed script timeout startTime :
  forall fuel attempt lastErr st,
    let '(r, _) :=
      retryLoop w config fuel attempt lastErr startTime script timeout st in
    TrimSpace (Output r) = Output r.
Proof.
  induction fuel as [|fuel IH]; intros attempt lastErr st.
  - reflexivity.
  - simpl retryLoop. unfold bind at 1.
    destruct (retry_wait_frame w attempt st) as (c & st1 & -> & _).
    destruct c as [ce|]; [reflexivity|].
    unfold bind at 1.
    pose proof (executeOnce_output_trimmed script timeout st1) as Ho.
    destruct (runOK (runner w (attempts st1) (ExecPath config) script timeout)) eqn:Hrun.
    + rewrite (executeOnce_ok _ _ _ _ _ Hrun) in *. simpl in *.
      unfold bind, Since, Now, ret; simpl. exact Ho.
    + destruct (executeOnce_fail _ _ _ _ _ Hrun) as (d & st2 & Hex & Hcode & _).
      rewrite Hex in *. simpl in Ho |- *.
      destruct (executor_codes_not_permanent d Hcode) as [-> _].
      unfold bind at 1. unfold ctxErr at 1.
      destruct (ctxObs w (ctxReads st2)) as [ce|].
      * unfold bind, Since, Now, ret; simpl. exact Ho.
      * apply IH.
Qed.

(** X22.  White space around the script does not matter: the call with a script
    is the call with the trimmed script.  The output of every result is
    itself trimmed, so trimming it again changes nothing. *)
Theorem surrounding_white_space_is_ignored script timeout st :
  ExecuteWithTimeout w config script timeout st
  = ExecuteWithTimeout w config (TrimSpace script) timeout st
  /\ let '(r, _) := ExecuteWithTimeout w config script timeout st in
     TrimSpace (Output r) = Output r.
Proof.
  split.
  - unfold ExecuteWithTimeout. rewrite TrimSpace_idempotent. reflexivity.
  - unfold ExecuteWithTimeout.
    destruct (String.eqb (TrimSpace script) ""); [reflexivity|].
    unfold bind at 1, Now at 1.
    pose proof (retryLoop_output_trimmed (TrimSpace script) timeout
                  (clock w (clockReads st))
                  (Z.to_nat (MaxRetries config + 1)) 0 None
                  {| clockReads := S (clockReads st); ctxReads := ctxReads st;
                     attempts := attempts st |}) as H.
    unfold bind, Now.
    destruct (retryLoop _ _ _ _ _ _ _ _ _) as [r st']. exact H.
Qed.

End MoreExecutor.

(* ===================================================================== *)
(** * Further properties: templates *)
(* ===================================================================== *)

Section MoreTemplates.
Variable w : World.
Variable config : ExecutorConfig.

Lemma ReplaceAll_absent (s old new : string) :
  Contains s old = false -> ReplaceAll s old new = s.
Proof.
  unfold ReplaceAll. induction s as [|c r IH]; intros H; [reflexivity|].
  rewrite Contains_unfold in H.
  destruct (String.prefix old (String c r)) eqn:E; [discriminate|].
  change (replaceFrom 0 (String c r) old new)
    with (if String.prefix old (String c r)
          then new +:+ replaceFrom (String.length old - 1) r old new
          else String c (replaceFrom 0 r old new)).
  rewrite E. f_equal. apply IH. exact H.
Qed.

(** X23.  A placeholder the template does not contain changes nothing: when no
    parameter's placeholder occurs in the template text, [ExecuteTemplate]
    executes the text as stored.  In particular, with no parameters at
    all, every placeholder of the template is left as written. *)
Theorem unmatched_placeholders_are_left templateName params content st :
  LoadScript w templateName = (content, None) ->
  (forall kv, In kv params ->
     Contains content ("{{" +:+ fst kv +:+ "}}") = false) ->
  ExecuteTemplate w config templateName params st = Execute w config content st.
Proof.
  intros Hload Habs. unfold ExecuteTemplate. rewrite Hload.
  assert (Hfold :
    fold_left (fun script kv =>
                 ReplaceAll script ("{{" +:+ fst kv +:+ "}}") (formatValue (snd kv)))
      params content = content).
  { induction params as [|kv params IH]; [reflexivity|]. simpl.
    rewrite ReplaceAll_absent by (apply Habs; left; reflexivity).
    apply IH. intros kv' H. apply Habs. right. exact H. }
  rewrite Hfold. reflexivity.
Qed.

End MoreTemplates.

(* ===================================================================== *)
(** * Further properties: the decoders *)
(* ===================================================================== *)

Section MoreDecoders.
Variable unicodeLower : string -> string.
Variable parseFloatInt : string -> option Z.

Local Abbreviation parsePlayerState :=
  (AppleScript.parsePlayerState unicodeLower parseFloatInt).
Local Abbreviation parseTrack := (AppleScript.parseTrack parseFloatInt).

Lemma leadSpaceRev_app (p u : string) :
  leadSpaceRev p = true -> leadSpaceRev (p +:+ u) = true.
Proof.
  destruct p as [|c1 [|c2 [|c3 r3]]]; rewrite ?app_cons, ?app_nil;
    simpl; try discriminate.
  - rewrite orb_false_r. intros ->. reflexivity.
  - rewrite orb_false_r. intros H. apply orb_prop in H as [-> | ->];
      [reflexivity|]. destruct u; simpl; now rewrite ?orb_true_r.
  - auto.
Qed.

Lemma rev_cons (c : ascii) (s : string) :
  GoStr.rev (String c s) = GoStr.rev s +:+ String c "".
Proof. unfold GoStr.rev. simpl. apply rev_append_app. Qed.

(** A text that is not empty and is all white space ends with white space. *)
Lemma all_space_ends_with_space (n : nat) :
  forall s, (String.length s <= n)%nat ->
    s <> "" -> trimLeft s = "" -> leadSpaceRev (GoStr.rev s) = true.
Proof.
  induction n as [|n IH]; intros s Hn Hne Ht.
  - destruct s; [congruence | simpl in Hn; lia].
  - destruct s as [|c1 r1]; [congruence|]. simpl in Hn. simpl in Ht.
    destruct (asciiSpace c1) eqn:E1.
    { destruct r1 as [|c2 r2]; [simpl; rewrite E1; reflexivity|].
      rewrite (rev_cons c1). apply leadSpaceRev_app.
      apply IH; [simpl in *; lia | discriminate | exact Ht]. }
    destruct r1 as [|c2 r2]; [discriminate|]. simpl in Hn.
    destruct (space2 c1 c2) eqn:E2.
    { destruct r2 as [|c3 r3].
      - simpl. rewrite E2. now rewrite orb_true_r.
      - rewrite (rev_cons c1), (rev_cons c2), app_assoc'. apply leadSpaceRev_app.
        apply IH; [simpl in *; lia | discriminate | exact Ht]. }
    destruct r2 as [|c3 r3]; [discriminate|]. simpl in Hn.
    destruct (space3 c1 c2 c3) eqn:E3; [|discriminate].
    destruct r3 as [|c4 r4].
    + simpl. rewrite E3. now rewrite !orb_true_r.
    + rewrite (rev_cons c1), (rev_cons c2), (rev_cons c3), !app_assoc'.
      apply leadSpaceRev_app. apply IH; [simpl in *; lia | discriminate | exact Ht].
Qed.

(** A text that is not empty and does not end with white space does not
    trim to the empty text. *)
Lemma TrimSpace_not_empty (s : string) :
  s <> "" -> leadSpaceRev (GoStr.rev s) = false -> TrimSpace s <> "".
Proof.
  intros Hne Hend.
  destruct (trimLeft_spec (String.length s) s (Nat.le_refl _)) as (_ & u & Hu).
  assert (Hv : trimLeft s <> "").
  { intros H. rewrite (all_space_ends_with_space _ s (Nat.le_refl _) Hne H) in Hend.
    discriminate. }
  assert (Hrv : leadSpaceRev (GoStr.rev (trimLeft s)) = false).
  { destruct (leadSpaceRev (GoStr.rev (trimLeft s))) eqn:E; [|reflexivity].
    apply (leadSpaceRev_app _ (GoStr.rev u)) in E.
    rewrite <- rev_app, <- Hu in E. congruence. }
  unfold TrimSpace, trimRight. rewrite (trimLeftRev_no_lead _ Hrv), rev_involutive.
  exact Hv.
Qed.

Lemma splitAcc_nonempty (sep : ascii) (s : string) :
  forall cur, splitAcc sep cur s <> [].
Proof.
  induction s as [|c r IH]; intros cur; simpl; [discriminate|].
  destruct (Ascii.eqb c sep); [discriminate | apply IH].
Qed.

(** The last field of a split is the end of the text. *)
Lemma splitAcc_last (sep : ascii) (s : string) :
  forall cur, exists u,
    GoStr.rev cur +:+ s = u +:+ List.last (splitAcc sep cur s) "".
Proof.
  induction s as [|c r IH]; intros cur.
  - exists "". simpl. rewrite app_empty_r, app_nil. reflexivity.
  - simpl splitAcc. destruct (Ascii.eqb c sep).
    + destruct (IH "") as (u & Hu). change (GoStr.rev "") with "" in Hu.
      rewrite app_nil in Hu.
      exists (GoStr.rev cur +:+ String c u).
      assert (Hl : List.last (GoStr.rev cur :: splitAcc sep "" r) ""
                   = List.last (splitAcc sep "" r) "").
      { pose proof (splitAcc_nonempty sep r "") as Hne.
        destruct (splitAcc sep "" r); [contradiction | reflexivity]. }
      rewrite Hl, app_assoc', app_cons. rewrite <- Hu. reflexivity.
    + destruct (IH (String c cur)) as (u & Hu). exists u. rewrite <- Hu.
      rewrite rev_cons, app_assoc'. reflexivity.
Qed.

Lemma last_field_has_no_trailing_space (output : string) p0 p1 p2 p3 p4 p5 :
  Split (TrimSpace output) "|" = [p0; p1; p2; p3; p4; p5] ->
  leadSpaceRev (GoStr.rev p5) = false.
Proof.
  intros Hs. destruct (splitAcc_last "|" (TrimSpace output) "") as (u & Hu).
  change (GoStr.rev "") with "" in Hu. rewrite app_nil in Hu.
  unfold Split in Hs. rewrite Hs in Hu. simpl in Hu.
  destruct (leadSpaceRev (GoStr.rev p5)) eqn:E; [|reflexivity].
  apply (leadSpaceRev_app _ (GoStr.rev u)) in E.
  rewrite <- rev_app, <- Hu, TrimSpace_no_trail in E. discriminate.
Qed.

Lemma six_fields (l : list string) :
  length l = 6%nat -> exists p0 p1 p2 p3 p4 p5, l = [p0; p1; p2; p3; p4; p5].
Proof.
  destruct l as [|p0 [|p1 [|p2 [|p3 [|p4 [|p5 [|x l]]]]]]]; simpl; try discriminate.
  intros _. eauto 10.
Qed.

(** X24.  Every player [parsePlayerState] returns is in order: it comes without
    an error, its volume is between 0 and 100 (a level outside is
    clamped), its position is not negative, its state is not buffering,
    its update time is the clock reading, and its current track is either
    absent or an identifier that is not empty.  Every error it returns is
    an operation-failed error without cause, which is retryable. *)
Theorem decoded_player_is_in_order now output :
  match parsePlayerState now output with
  | (Some player, err) =>
      err = None
      /\ Volume_IsValid (Player_Volume player) = true
      /\ Duration_IsValid (Position player) = true
      /\ State player <> PlayerStateBuffering
      /\ LastUpdated player = now
      /\ (forall t, CurrentTrack player = Some t -> TrackID_IsEmpty t = false)
      /\ (HasCurrentTrack player = true <-> CurrentTrack player <> None)
  | (None, err) =>
      exists d, err = Some (EDomain d)
                /\ Code d = ErrOperationFailed /\ Cause d = None
                /\ IsRetryable (EDomain d) = true
  end.
Proof.
  unfold AppleScript.parsePlayerState.
  destruct (length (Split (TrimSpace output) "|") =? 6)%nat eqn:El; simpl;
    [|eexists; repeat split].
  apply Nat.eqb_eq in El.
  destruct (six_fields _ El) as (p0 & p1 & p2 & p3 & p4 & p5 & Hs).
  pose proof (last_field_has_no_trailing_space output _ _ _ _ _ _ Hs) as Hend.
  rewrite Hs. cbn [part nth].
  destruct (Atoi p1) as [v|]; [|eexists; repeat split].
  assert (Htrack :
    forall t, (if negb (String.eqb p5 "") then Some (NewTrackID p5) else None) = Some t ->
              TrackID_IsEmpty t = false).
  { intros t Ht. destruct (String.eqb_spec p5 ""); simpl in Ht; [discriminate|].
    injection Ht as <-. unfold TrackID_IsEmpty, NewTrackID; simpl.
    apply String.eqb_neq. apply TrimSpace_not_empty; assumption. }
  assert (Hhas :
    forall ct : option TrackID,
      (forall t, ct = Some t -> TrackID_IsEmpty t = false) ->
      (match ct with Some t => negb (TrackID_IsEmpty t) | None => false end = true
       <-> ct <> None)).
  { intros [t|] H; [rewrite (H t eq_refl); simpl; split; [discriminate|reflexivity]|].
    split; [discriminate | congruence]. }
  assert (Hstate :
    (if String.eqb (ToLower unicodeLower p0) "stopped" then PlayerStateStopped
     else if String.eqb (ToLower unicodeLower p0) "playing" then PlayerStatePlaying
     else if String.eqb (ToLower unicodeLower p0) "paused" then PlayerStatePaused
     else PlayerStateStopped) <> PlayerStateBuffering).
  { repeat match goal with |- context [if ?b then _ else _] => destruct b end;
      discriminate. }
  destruct (String.eqb p2 "missing value" || String.eqb p2 ""); simpl.
  - unfold HasCurrentTrack; simpl.
    repeat split; try reflexivity; try exact Hstate; try exact Htrack;
      try apply NewVolume_valid; apply (Hhas _ Htrack).
  - destruct (parseFloatInt p2) as [n|]; [|eexists; repeat split].
    unfold HasCurrentTrack; simpl.
    repeat split; try reflexivity; try exact Hstate; try exact Htrack;
      try apply NewVolume_valid; try apply (Hhas _ Htrack).
    unfold Duration_IsValid. apply Z.leb_le. apply NewDuration_nonneg.
Qed.

(** X25.  The numeric fields of a six-field line.  A volume text that is no
    integer fails the decode with "invalid volume format"; an integer is
    clamped into 0..100.  The position is zero for the "missing value"
    marker and for an empty field, without asking the number parser;
    otherwise a text the parser rejects fails the decode with "invalid
    position format", and a number is taken with negatives raised to 0. *)
Theorem numeric_fields_decode now output p0 p1 p2 p3 p4 p5 :
  Split (TrimSpace output) "|" = [p0; p1; p2; p3; p4; p5] ->
  match Atoi p1 with
  | None =>
      parsePlayerState now output = (None, decodeError "invalid volume format")
  | Some v =>
      if String.eqb p2 "missing value" || String.eqb p2 "" then
        exists player,
          parsePlayerState now output = (Some player, None)
          /\ Level (Player_Volume player) = Z.max 0 (Z.min 100 v)
          /\ Seconds (Position player) = 0
      else
        match parseFloatInt p2 with
        | None =>
            parsePlayerState now output = (None, decodeError "invalid position format")
        | Some n =>
            exists player,
              parsePlayerState now output = (Some player, None)
              /\ Level (Player_Volume player) = Z.max 0 (Z.min 100 v)
              /\ Seconds (Position player) = Z.max 0 n
        end
  end.
Proof.
  intros Hs. unfold AppleScript.parsePlayerState. rewrite Hs.
  cbn [length Nat.eqb negb part nth].
  destruct (Atoi p1) as [v|]; [|reflexivity].
  destruct (String.eqb p2 "missing value" || String.eqb p2 "").
  - eexists. split; [reflexivity|]. simpl. split; [apply NewVolume_level | reflexivity].
  - destruct (parseFloatInt p2) as [n|]; [|reflexivity].
    eexists. split; [reflexivity|]. simpl. split; [apply NewVolume_level|].
    unfold Seconds, NewDuration; simpl.
    destruct (n <? 0) eqn:E; [apply Z.ltb_lt in E | apply Z.ltb_ge in E]; lia.
Qed.

(** X26.  The names of the enumerations read back: a line whose state field is
    the name of the stopped, playing or paused state decodes to that
    state, and one whose repeat field is the name of a repeat mode decodes
    to that mode. *)
Theorem enumeration_names_read_back now output
    (ps : PlayerState) (rm : RepeatMode) p1 p2 p3 p5 v :
  ps <> PlayerStateBuffering ->
  Split (TrimSpace output) "|"
    = [PlayerState_String ps; p1; p2; p3; RepeatMode_String rm; p5] ->
  Atoi p1 = Some v ->
  validPosition parseFloatInt p2 ->
  exists player,
    parsePlayerState now output = (Some player, None)
    /\ State player = ps /\ Repeat player = rm.
Proof.
  intros Hps Hs Hv Hp.
  destruct (parsePlayerState_six unicodeLower parseFloatInt now output
              _ p1 p2 p3 _ p5 v Hs Hv Hp) as (position & ->).
  eexists. split; [reflexivity|]. cbn [State Repeat].
  split; [destruct ps; try reflexivity; contradiction | destruct rm; reflexivity].
Qed.

Lemma five_fields (l : list string) :
  length l = 5%nat -> exists p0 p1 p2 p3 p4, l = [p0; p1; p2; p3; p4].
Proof.
  destruct l as [|p0 [|p1 [|p2 [|p3 [|p4 [|x l]]]]]]; simpl; try discriminate.
  intros _. eauto 10.
Qed.

(** X27.  Every track [parseTrack] returns comes without an error and holds the
    fields of the line: the trimmed first field as an identifier that is
    not empty, a title and an artist that are not empty, the album, and a
    duration that is not negative (a negative number of seconds is raised
    to 0, so the duration check of [NewTrack] never fails here).  Every
    error it returns is an operation-failed, invalid-track-ID or
    invalid-track error. *)
Theorem decoded_track_is_complete output :
  match parseTrack output with
  | (Some track, err) =>
      err = None
      /\ exists p0 p1 p2 p3 p4 n,
           Split (TrimSpace output) "|" = [p0; p1; p2; p3; p4]
           /\ parseFloatInt p4 = Some n
           /\ track = {| ID := NewTrackID p0; Title := p1; Artist := p2;
                         Album := p3; Track_Duration := NewDuration n |}
           /\ TrackID_IsEmpty (ID track) = false
           /\ p1 <> "" /\ p2 <> ""
           /\ Seconds (Track_Duration track) = Z.max 0 n
  | (None, err) =>
      exists d, err = Some (EDomain d)
                /\ In (Code d) [ErrOperationFailed; ErrInvalidTrackID; ErrInvalidTrack]
                /\ Message d <> "track duration must be valid"
  end.
Proof.
  unfold AppleScript.parseTrack.
  destruct (length (Split (TrimSpace output) "|") =? 5)%nat eqn:El; simpl.
  2:{ eexists. split; [reflexivity|]. split; [simpl; auto | discriminate]. }
  apply Nat.eqb_eq in El.
  destruct (five_fields _ El) as (p0 & p1 & p2 & p3 & p4 & Hs).
  rewrite Hs. cbn [part nth].
  destruct (parseFloatInt p4) as [n|] eqn:Hn.
  2:{ eexists. split; [reflexivity|]. split; [simpl; auto | discriminate]. }
  unfold NewTrack.
  destruct (TrackID_IsEmpty (NewTrackID p0)) eqn:E0.
  { eexists. split; [reflexivity|]. split; [simpl; auto | discriminate]. }
  destruct (String.eqb_spec p1 "").
  { eexists. split; [reflexivity|]. split; [simpl; auto | discriminate]. }
  destruct (String.eqb_spec p2 "").
  { eexists. split; [reflexivity|]. split; [simpl; auto | discriminate]. }
  assert (Hvalid : Duration_IsValid (NewDuration n) = true).
  { unfold Duration_IsValid. apply Z.leb_le. apply NewDuration_nonneg. }
  rewrite Hvalid. simpl. split; [reflexivity|].
  exists p0, p1, p2, p3, p4, n. repeat split; try assumption.
  unfold Seconds, NewDuration; simpl.
  destruct (n <? 0) eqn:E; [apply Z.ltb_lt in E | apply Z.ltb_ge in E]; lia.
Qed.

End MoreDecoders.

(* ===================================================================== *)
(** * Further properties: the player repository *)
(* ===================================================================== *)

Section MoreRepository.
Variable w : World.
Variable config : ExecutorConfig.

(** X28.  An argument that fails its check is refused before anything runs: the
    operation returns an invalid-track-ID, invalid-position,
    invalid-volume or invalid-repeat-mode error, and no process is
    started, no clock or context read.  Values made by [NewDuration],
    [NewVolume] and the three repeat-mode constants always pass. *)
Theorem validation_precedes_execution (op : RepoOp) (st : St) :
  (opValid op = false ->
   exists d,
     runOp w config op st = (Some (EDomain d), st)
     /\ Cause d = None
     /\ Code d = match op with
                 | RPlay _ => ErrInvalidTrackID
                 | RSeek _ => ErrInvalidPosition
                 | RSetVolume _ => ErrInvalidVolume
                 | _ => ErrInvalidRepeatMode
                 end)
  /\ (forall secs, opValid (RSeek (NewDuration secs)) = true)
  /\ (forall lvl, opValid (RSetVolume (NewVolume lvl)) = true)
  /\ (forall rm, opValid (RSetRepeat (RepeatMode_value rm)) = true).
Proof.
  split; [|split; [|split]].
  - intros Hv. destruct op; simpl in Hv; try discriminate; simpl.
    + unfold Play. apply negb_false_iff in Hv. rewrite Hv.
      eexists. repeat split.
    + unfold Seek. rewrite Hv. eexists. repeat split.
    + unfold SetVolume. rewrite Hv. eexists. repeat split.
    + unfold SetRepeat. rewrite Hv. eexists. repeat split.
  - intros secs. simpl. unfold Duration_IsValid. apply Z.leb_le.
    apply NewDuration_nonneg.
  - intros lvl. apply NewVolume_valid.
  - intros rm. destruct rm; reflexivity.
Qed.

Lemma executeOrFail_spec script message st :
  executeOrFail w config script message st
  = (match Error (fst (Execute w config script st)) with
     | None => None
     | Some e => Some (EDomain (NewDomainErrorWithCause ErrOperationFailed
                                  message (Some e)))
     end, snd (Execute w config script st)).
Proof.
  unfold executeOrFail, bind, ret.
  destruct (Execute w config script st) as [r st']. simpl.
  destruct (Error r); reflexivity.
Qed.

(** X29.  An operation whose argument passes its check hands its script to the
    executor once and succeeds exactly when the executor does.  When the
    executor fails, the error returned is an operation-failed error
    wrapping the executor's error: it is retryable and not permanent
    whatever lies beneath, while [IsTimeout] still finds a timeout in the
    chain of causes. *)
Theorem operation_failures_are_wrapped (op : RepoOp) (st : St) :
  opValid op = true ->
  let r := fst (Execute w config (opScript op) st) in
  snd (runOp w config op st) = snd (Execute w config (opScript op) st)
  /\ match Error r with
     | None => fst (runOp w config op st) = None
     | Some cause =>
         exists d,
           fst (runOp w config op st) = Some (EDomain d)
           /\ Code d = ErrOperationFailed
           /\ Cause d = Some cause
           /\ IsRetryable (EDomain d) = true
           /\ IsPermanent (EDomain d) = false
           /\ IsTimeout (EDomain d) = IsTimeout cause
     end.
Proof.
  intros Hv.
  assert (Hgen : forall script message,
    let r := fst (Execute w config script st) in
    snd (executeOrFail w config script message st) = snd (Execute w config script st)
    /\ match Error r with
       | None => fst (executeOrFail w config script message st) = None
       | Some cause =>
           exists d,
             fst (executeOrFail w config script message st) = Some (EDomain d)
             /\ Code d = ErrOperationFailed
             /\ Cause d = Some cause
             /\ IsRetryable (EDomain d) = true
             /\ IsPermanent (EDomain d) = false
             /\ IsTimeout (EDomain d) = IsTimeout cause
       end).
  { intros script message. rewrite executeOrFail_spec. simpl.
    split; [reflexivity|].
    destruct (Error (fst (Execute w config script st))) as [e|]; [|reflexivity].
    eexists. repeat split. }
  destruct op; simpl in Hv; unfold runOp, opScript; try apply Hgen.
  - unfold Play. apply negb_true_iff in Hv. rewrite Hv. apply Hgen.
  - unfold Seek. rewrite Hv. apply Hgen.
  - unfold SetVolume. rewrite Hv. apply Hgen.
  - unfold SetRepeat, RepeatMode_text. rewrite Hv. cbn [negb].
    unfold RepeatMode_IsValid in Hv. apply andb_prop in Hv as [H1 H2].
    apply Z.leb_le in H1. apply Z.leb_le in H2.
    destruct (mode =? 0) eqn:E0; [apply Hgen|].
    destruct (mode =? 1) eqn:E1; [apply Hgen|].
    destruct (mode =? 2) eqn:E2; [apply Hgen|].
    apply Z.eqb_neq in E0. apply Z.eqb_neq in E1. apply Z.eqb_neq in E2. lia.
Qed.

(** A call whose first attempt ends well. *)
Lemma first_attempt_succeeds script timeout st :
  0 <= MaxRetries config ->
  String.eqb (TrimSpace script) "" = false ->
  runOK (runner w (attempts st) (ExecPath config) (TrimSpace script) timeout) = true ->
  exists d,
    ExecuteWithTimeout w config script timeout st =
      ({| Output := TrimSpace (stdout (runner w (attempts st) (ExecPath config)
                                         (TrimSpace script) timeout));
          Error := None; Duration := d; RetryCount := 0 |},
       {| clockReads := S (S (S (S (clockReads st)))); ctxReads := ctxReads st;
          attempts := S (attempts st) |}).
Proof.
  intros Hm Hs Hok. unfold ExecuteWithTimeout. rewrite Hs.
  unfold bind at 1, Now at 1.
  destruct (Z.to_nat (MaxRetries config + 1)) as [|fuel] eqn:Ef; [lia|].
  simpl retryLoop. unfold bind at 1, ret at 1. simpl. unfold bind at 1.
  rewrite (executeOnce_ok w config (TrimSpace script) timeout
             {| clockReads := S (clockReads st); ctxReads := ctxReads st;
                attempts := attempts st |} Hok).
  simpl. unfold bind, Since, Now, ret; simpl. eexists. reflexivity.
Qed.

Variable parseFloatInt : string -> option Z.

(** X30.  No current track is not an error.  When the first attempt of
    [GetCurrentTrack] ends well, one process is run; if its output is
    blank the result is no track and no error, and otherwise the result is
    what [parseTrack] makes of the trimmed output. *)
Theorem no_track_is_not_an_error :
  let p := runner w 0 (ExecPath config) (TrimSpace getCurrentTrackScript)
             (DefaultTimeout config) in
  0 <= MaxRetries config ->
  runOK p = true ->
  let '(res, st') := GetCurrentTrack w config parseFloatInt st0 in
  attempts st' = 1%nat
  /\ (TrimSpace (stdout p) = "" -> res = (None, None))
  /\ (TrimSpace (stdout p) <> "" ->
      res = parseTrack parseFloatInt (TrimSpace (stdout p))).
Proof.
  intros p Hm Hok. unfold GetCurrentTrack, Execute. unfold bind.
  assert (Hs : String.eqb (TrimSpace getCurrentTrackScript) "" = false)
    by (vm_compute; reflexivity).
  destruct (first_attempt_succeeds getCurrentTrackScript (DefaultTimeout config) st0
              Hm Hs Hok) as [d Hd].
  rewrite Hd.
  cbn [Error Output attempts]. rewrite TrimSpace_idempotent.
  unfold ret. subst p. change (attempts st0) with 0%nat.
  destruct (String.eqb_spec
              (TrimSpace (stdout (runner w 0 (ExecPath config)
                                    (TrimSpace getCurrentTrackScript)
                                    (DefaultTimeout config)))) "") as [E|E]; simpl.
  - split; [reflexivity|]. split; [reflexivity | congruence].
  - split; [reflexivity|]. split; [congruence | reflexivity].
Qed.

End MoreRepository.

(* ===================================================================== *)
(** * The further properties on sample worlds *)
(* ===================================================================== *)

Lemma attempt_errors_are_never_permanent_witness :
  exists d,
    EDomain (NewDomainErrorWithCause ErrOperationFailed
               "AppleScript execution failed: Music got an error" (Some (EExit 1)))
    = EDomain d
    /\ (Code d = ErrOperationFailed \/ Code d = ErrTimeout)
    /\ IsRetryable (EDomain (NewDomainErrorWithCause ErrOperationFailed
               "AppleScript execution failed: Music got an error" (Some (EExit 1)))) = true
    /\ IsPermanent (EDomain (NewDomainErrorWithCause ErrOperationFailed
               "AppleScript execution failed: Music got an error" (Some (EExit 1)))) = false.
Proof.
  apply (attempt_errors_are_never_permanent (brokenWorld 1) DefaultExecutorConfig
           "return 1" Second st0).
  reflexivity.
Defined.

Lemma deadline_then_cancellation_then_exit_code_witness :
  Output (fst (executeOnce (worldOf (fun _ => timedOutRun)) DefaultExecutorConfig
                 "return 1" Second st0)) = "partial".
Proof.
  apply (deadline_then_cancellation_then_exit_code
           (worldOf (fun _ => timedOutRun)) DefaultExecutorConfig "return 1" Second st0);
    try reflexivity.
  discriminate.
Defined.

Lemma negative_max_retries_runs_nothing_witness :
  let '(r, st') :=
    ExecuteWithTimeout (flakyWorld 0)
      {| ExecPath := "maestro-exec"; DefaultTimeout := Second;
         MaxRetries := -1; RetryDelay := 0 |} "return 1" Second st0 in
  attempts st' = attempts st0
  /\ RetryCount r = -1
  /\ exists d, Error r = Some (EDomain d)
               /\ Code d = ErrOperationFailed /\ Cause d = None.
Proof.
  apply (negative_max_retries_runs_nothing (flakyWorld 0)
           {| ExecPath := "maestro-exec"; DefaultTimeout := Second;
              MaxRetries := -1; RetryDelay := 0 |} "return 1" Second st0).
  - reflexivity.
  - reflexivity.
Defined.

Lemma cancelled_context_is_not_retried_witness :
  let '(r, st') :=
    ExecuteWithTimeout cancelledWorld DefaultExecutorConfig "return 1" Second st0 in
  attempts st' = 1%nat
  /\ ctxReads st' = 1%nat
  /\ RetryCount r = 0
  /\ Output r = ""
  /\ Error r = Some (EDomain (NewDomainErrorWithCause ErrTimeout
                                "context cancelled" (Some (EContext Canceled))))
  /\ (forall e, Error r = Some e -> IsRetryable e = true).
Proof.
  apply (cancelled_context_is_not_retried cancelledWorld
           DefaultExecutorConfig "return 1" Second Canceled).
  - intros k; reflexivity.
  - simpl; lia.
  - reflexivity.
  - right. discriminate.
Defined.

Lemma duration_is_not_negative_witness :
  0 <= Duration (fst (ExecuteWithTimeout (flakyWorld 1) DefaultExecutorConfig
                        "return 1" Second st0)).
Proof.
  apply (duration_is_not_negative (flakyWorld 1) DefaultExecutorConfig
           "return 1" Second st0).
  intros i j Hij. unfold flakyWorld, worldOf, tick, Millisecond; simpl. lia.
Defined.

Lemma unmatched_placeholders_are_left_witness :
  ExecuteTemplate templateWorld DefaultExecutorConfig "stop"
    [("track_id", VStr "12")] st0
  = Execute templateWorld DefaultExecutorConfig "stop {{what}}" st0.
Proof.
  apply (unmatched_placeholders_are_left templateWorld DefaultExecutorConfig
           "stop" [("track_id", VStr "12")] "stop {{what}}" st0).
  - reflexivity.
  - intros kv [<- | []]. reflexivity.
Defined.

Lemma numeric_fields_decode_witness :
  exists player,
    parsePlayerState sampleLower sampleParseFloatInt 0 "paused|150|-4|true|all|7"
      = (Some player, None)
    /\ Level (Player_Volume player) = Z.max 0 (Z.min 100 150)
    /\ Seconds (Position player) = Z.max 0 (-4).
Proof.
  apply (numeric_fields_decode sampleLower sampleParseFloatInt 0
           "paused|150|-4|true|all|7" "paused" "150" "-4" "true" "all" "7").
  reflexivity.
Defined.

Lemma enumeration_names_read_back_witness :
  exists player,
    parsePlayerState sampleLower sampleParseFloatInt 0 "paused|20|3|true|one|7"
      = (Some player, None)
    /\ State player = PlayerStatePaused /\ Repeat player = RepeatModeOne.
Proof.
  apply (enumeration_names_read_back sampleLower sampleParseFloatInt 0
           "paused|20|3|true|one|7" PlayerStatePaused RepeatModeOne
           "20" "3" "true" "7" 20).
  - discriminate.
  - reflexivity.
  - reflexivity.
  - right; right. vm_compute. discriminate.
Defined.

Lemma validation_precedes_execution_witness :
  exists d,
    runOp (flakyWorld 0) DefaultExecutorConfig (RPlay (NewTrackID "  ")) st0
      = (Some (EDomain d), st0)
    /\ Cause d = None
    /\ Code d = ErrInvalidTrackID.
Proof.
  apply (proj1 (validation_precedes_execution (flakyWorld 0) DefaultExecutorConfig
                  (RPlay (NewTrackID "  ")) st0)).
  reflexivity.
Defined.

Lemma operation_failures_are_wrapped_witness :
  let op := RSetVolume (NewVolume 40) in
  let r := fst (Execute (brokenWorld 1) DefaultExecutorConfig (opScript op) st0) in
  snd (runOp (brokenWorld 1) DefaultExecutorConfig op st0)
    = snd (Execute (brokenWorld 1) DefaultExecutorConfig (opScript op) st0)
  /\ match Error r with
     | None => fst (runOp (brokenWorld 1) DefaultExecutorConfig op st0) = None
     | Some cause =>
         exists d,
           fst (runOp (brokenWorld 1) DefaultExecutorConfig op st0) = Some (EDomain d)
           /\ Code d = ErrOperationFailed
           /\ Cause d = Some cause
           /\ IsRetryable (EDomain d) = true
           /\ IsPermanent (EDomain d) = false
           /\ IsTimeout (EDomain d) = IsTimeout cause
     end.
Proof.
  apply (operation_failures_are_wrapped (brokenWorld 1) DefaultExecutorConfig
           (RSetVolume (NewVolume 40)) st0).
  reflexivity.
Defined.

Lemma no_track_is_not_an_error_witness :
  let '(res, st') :=
    GetCurrentTrack templateWorld DefaultExecutorConfig sampleParseFloatInt st0 in
  attempts st' = 1%nat
  /\ (TrimSpace (stdout (okRun "")) = "" -> res = (None, None))
  /\ (TrimSpace (stdout (okRun "")) <> "" ->
      res = parseTrack sampleParseFloatInt (TrimSpace (stdout (okRun "")))).
Proof.
  apply (no_track_is_not_an_error templateWorld DefaultExecutorConfig
           sampleParseFloatInt).
  - simpl; lia.
  - reflexivity.
Defined.

Lemma attempts_are_bounded_witness :
  let '(r, st') :=
    ExecuteWithTimeout (flakyWorld 1) DefaultExecutorConfig "return 1" Second st0 in
  0 <= RetryCount r <= MaxRetries DefaultExecutorConfig
  /\ Z.of_nat (attempts st' - attempts st0) - 1 <= RetryCount r
     <= Z.of_nat (attempts st' - attempts st0).
Proof.
  pose proof (attempts_are_bounded (flakyWorld 1) DefaultExecutorConfig
                "return 1" Second st0 eq_refl) as H.
  destruct (ExecuteWithTimeout (flakyWorld 1) DefaultExecutorConfig
              "return 1" Second st0) as [r st'].
  destruct H as (_ & _ & H). apply H.
  - simpl; lia.
  - reflexivity.
Defined.

Lemma cancellation_ends_the_call_witness :
  cancelledWith
    (fst (ExecuteWithTimeout cancelledWorld DefaultExecutorConfig
            "return 1" Second st0))
    Canceled.
Proof.
  pose proof (cancellation_ends_the_call cancelledWorld
                DefaultExecutorConfig "return 1" Second st0) as H.
  destruct (ExecuteWithTimeout cancelledWorld DefaultExecutorConfig
              "return 1" Second st0) as [r st'] eqn:E.
  destruct H as [_ H]. simpl.
  apply (H (fun k ce Hk => Hk) 0%nat Canceled); [|reflexivity].
  assert (Hreads : ctxReads st' = 1%nat).
  { apply (f_equal (fun x => ctxReads (snd x))) in E. vm_compute in E.
    symmetry. exact E. }
  rewrite Hreads. simpl. lia.
Defined.
